(** * Fused elementwise kernels on the Metal backend

    A shallow embedding of [mlx/backend/metal/compiled.cpp]: the kernel
    source generator [build_kernel] and the dispatcher [Compiled::eval_gpu].

    The generator writes Metal source text to an output stream.  It is
    embedded in two layers: [gen_kernel] follows the control flow of
    [build_kernel] and records every piece of text it writes as a node of a
    small syntax tree (together with the array it was written for), and
    [print_kernel] renders each node with the string template of the source.
    [build_kernel] is their composition followed by the argument-count
    check.  The dispatcher is embedded as a function from the call's arrays
    to the trace of command-encoder calls it performs. *)

From Stdlib Require Import ZArith String Ascii List.
From stdpp Require Import base numbers list gmap sets strings pretty.

Local Open Scope string_scope.
Local Open Scope list_scope.

(** ** Output streams and exceptions *)

(** [std::endl] writes a newline (the flush is not observable here). *)
Definition endl : string := String "010"%char EmptyString.

(** How a call ends: it returns, it throws [std::runtime_error], or it
    reaches an operation whose behaviour C++ leaves undefined (an integer
    division by zero). *)
Inductive outcome : Type :=
| Returned
| Thrown (msg : string)
| Undefined.

(** Whether [needle] occurs in [hay] as a substring: some suffix of [hay]
    starts with it. *)
Fixpoint is_prefix (p s : string) : bool :=
  match p, s with
  | EmptyString, _ => true
  | String a p', String b s' => if Ascii.eqb a b then is_prefix p' s' else false
  | String _ _, EmptyString => false
  end.

Fixpoint contains (needle hay : string) : bool :=
  is_prefix needle hay ||
  match hay with
  | EmptyString => false
  | String _ hay' => contains needle hay'
  end.

(** Whether a character occurs in a string. *)
Fixpoint occurs (ch : ascii) (s : string) : bool :=
  match s with
  | EmptyString => false
  | String a s' => Ascii.eqb ch a || occurs ch s'
  end.

(** The double-quote character written around the host name. *)
Definition dquote : string := String "034"%char EmptyString.

Definition concat_strings (l : list string) : string :=
  fold_right String.append EmptyString l.

(** Row-major strides of a shape, innermost stride 1. *)
Fixpoint row_major_strides (shape : list Z) : list Z :=
  match shape with
  | [] => []
  | _ :: rest => fold_right Z.mul 1%Z rest :: row_major_strides rest
  end.

Definition UINT32_MAX : Z := 4294967295.
Definition INT32_MAX : Z := 2147483647.

Section Model.

(** Element types, primitives and the node namer are declared in other
    headers; they are kept abstract. *)
Context {Dtype Primitive NodeNamer : Type}.

(** ** Arrays

    The part of [mlx::core::array] the two functions read. *)
#[warnings="-register-all"] Inductive array : Type := mk_array {
  id : N;                   (* x.id() *)
  shape : list Z;           (* x.shape(), a vector of int *)
  strides : list Z;         (* x.strides(), a vector of size_t *)
  dtype : Dtype;            (* x.dtype() *)
  data_size : Z;            (* x.data_size() *)
  primitive : Primitive;    (* x.primitive(), read for tape nodes only *)
  inputs : list array       (* x.inputs() *)
}.

Definition ndim (x : array) : nat := length (shape x).

(** [x.size()]: the product of the dimensions. *)
Definition size (x : array) : Z := fold_right Z.mul 1%Z (shape x).

(** ** Collaborators

    Functions [compiled.cpp] calls that are defined in other files of the
    repository. *)
Class Collaborators : Type := {
  (* mlx/graph_utils.h: a default-constructed namer, and get_name, which
     may extend the naming table *)
  new_namer : NodeNamer;
  get_name : NodeNamer -> array -> string * NodeNamer;
  (* mlx/backend/common/compiled.h *)
  is_scalar : array -> bool;
  is_static_cast : Primitive -> bool;
  get_type_string : Dtype -> string;
  print_constant : array -> string;
  print_primitive : Primitive -> string;     (* x.primitive().print(os) *)
  compiled_check_contiguity : list array -> list Z -> bool;
  build_lib_name :
    list array -> list array -> list array -> gset N -> string;
  (* mlx/backend/common/utils.h *)
  collapse_contiguous_dims :
    list Z -> list (list Z) -> Z -> list Z * list (list Z);
  (* mlx/backend/metal *)
  metal_preamble : string;   (* utils() unary_ops() binary_ops() ternary_ops() *)
  maxTotalThreadsPerThreadgroup : string -> Z;
  get_2d_grid_dims : list Z -> list Z -> Z * Z * Z;
  get_block_dims : Z -> Z -> Z -> Z * Z * Z
}.

Context `{Collaborators}.

(** ** Syntax of a generated kernel *)

(** One entry of the kernel's parameter list; [slot] is the number written
    inside [[[buffer(...)]]]. *)
Inductive param : Type :=
| PInput (x : array) (xname : string) (slot : nat)
| PInStrides (slot : nat)
| POutput (x : array) (xname : string) (slot : nat)
| POutStrides (slot : nat)
| POutShape (slot : nat)
| PNdim (slot : nat).

Inductive pos_component : Type := pos_x | pos_y | pos_z.

(** One [uint index_i = ...;] line. *)
Inductive axis_decl : Type :=
| AxisPos (i : Z) (c : pos_component)
| AxisDivMod (i : Z).

(** One line reading an input into [tmp_<name>]. *)
Inductive load : Type :=
| LoadConstant (x : array) (xname : string)
| LoadScalar (x : array) (xname : string)
| LoadContiguous (x : array) (xname : string)
| LoadStrided (x : array) (xname : string) (offset : Z) (ndim : Z)
| LoadDynamic (x : array) (xname : string) (offset : Z).

(** One line of the computation: the tape node, its name and the names of
    the inputs that are written. *)
Inductive stmt : Type :=
| TapeStmt (x : array) (xname : string) (arg_names : list string).

(** One line writing an output; the name is looked up twice. *)
Inductive store : Type :=
| Store (x : array) (lhs_name rhs_name : string).

Record kernel : Type := mk_kernel {
  k_name : string;
  k_params : list param;
  k_big_index : bool;
  k_axes : list axis_decl;
  k_loads : list load;
  k_tape : list stmt;
  k_stores : list store
}.

(** ** Rendering: the string templates of [build_kernel] *)

Definition slot_of (p : param) : nat :=
  match p with
  | PInput _ _ s | PInStrides s | POutput _ _ s
  | POutStrides s | POutShape s | PNdim s => s
  end.

Definition print_param (p : param) : string :=
  match p with
  | PInput x xname cnt =>
      "    device const " +:+ get_type_string (dtype x) +:+ "* " +:+ xname
      +:+ " [[buffer(" +:+ pretty cnt +:+ ")]]," +:+ endl
  | PInStrides cnt =>
      "    constant const size_t* in_strides [[buffer(" +:+ pretty cnt
      +:+ ")]]," +:+ endl
  | POutput x xname cnt =>
      "    device " +:+ get_type_string (dtype x) +:+ "* " +:+ xname
      +:+ " [[buffer(" +:+ pretty cnt +:+ ")]]," +:+ endl
  | POutStrides cnt =>
      "    constant const size_t* output_strides [[buffer(" +:+ pretty cnt
      +:+ ")]]," +:+ endl
  | POutShape cnt =>
      "    constant const int* output_shape [[buffer(" +:+ pretty cnt
      +:+ ")]]," +:+ endl
  | PNdim cnt =>
      "    constant const int& ndim [[buffer(" +:+ pretty cnt +:+ ")]],"
      +:+ endl
  end.

Definition print_index (use_big_index : bool) : string :=
  (if use_big_index
   then "  size_t index = pos.x + grid.x * size_t(pos.y);"
   else "  uint index = pos.x + grid.x * (pos.y + grid.y * pos.z);")
  +:+ endl.

Definition print_pos_component (c : pos_component) : string :=
  match c with pos_x => "pos.x" | pos_y => "pos.y" | pos_z => "pos.z" end.

Definition print_axis (a : axis_decl) : string :=
  match a with
  | AxisPos i c =>
      "  uint index_" +:+ pretty i +:+ " = " +:+ print_pos_component c
      +:+ ";" +:+ endl
  | AxisDivMod i =>
      "  uint index_" +:+ pretty i +:+ " = (index / uint(output_strides["
      +:+ pretty i +:+ "])) % output_shape[" +:+ pretty i +:+ "];" +:+ endl
  end.

Definition print_load (l : load) : string :=
  match l with
  | LoadConstant x xname =>
      "  auto tmp_" +:+ xname +:+ " = static_cast<"
      +:+ get_type_string (dtype x) +:+ ">(" +:+ print_constant x +:+ ");"
      +:+ endl
  | LoadScalar x xname =>
      "  " +:+ get_type_string (dtype x) +:+ " tmp_" +:+ xname +:+ " = "
      +:+ xname +:+ "[0];" +:+ endl
  | LoadContiguous x xname =>
      "  " +:+ get_type_string (dtype x) +:+ " tmp_" +:+ xname +:+ " = "
      +:+ xname +:+ "[index];" +:+ endl
  | LoadStrided x xname offset ndim =>
      "  " +:+ get_type_string (dtype x) +:+ " tmp_" +:+ xname +:+ " = "
      +:+ xname +:+ "["
      +:+ "index_0 * " +:+ "in_strides[" +:+ pretty offset +:+ "]"
      +:+ concat_strings
            (map (fun i : Z =>
                    " + index_" +:+ pretty i +:+ " * " +:+ "in_strides["
                    +:+ pretty (offset + i)%Z +:+ "]")
                 (seqZ 1 (ndim - 1)))
      +:+ "];" +:+ endl
  | LoadDynamic x xname offset =>
      "  " +:+ get_type_string (dtype x) +:+ " tmp_" +:+ xname +:+ " = "
      +:+ xname +:+ "[elem_to_loc(index, output_shape, in_strides + "
      +:+ pretty offset +:+ ", ndim)];" +:+ endl
  end.

(** The argument list of an operator application: every name but the last
    is followed by a comma.  (With no inputs the source reads
    [x.inputs().back()] of an empty vector, which is undefined; elementwise
    nodes have one to three inputs.) *)
Fixpoint print_args (arg_names : list string) : string :=
  match arg_names with
  | [] => "tmp_" +:+ ");" +:+ endl
  | [a] => "tmp_" +:+ a +:+ ");" +:+ endl
  | a :: rest => "tmp_" +:+ a +:+ ", " +:+ print_args rest
  end.

Definition print_stmt (s : stmt) : string :=
  match s with
  | TapeStmt x xname arg_names =>
      "  " +:+ get_type_string (dtype x) +:+ " tmp_" +:+ xname +:+ " = "
      +:+ (if is_static_cast (primitive x)
           then "static_cast<" +:+ get_type_string (dtype x) +:+ ">(tmp_"
                +:+ hd EmptyString arg_names +:+ ");" +:+ endl
           else print_primitive (primitive x) +:+ "()(" +:+ print_args arg_names)
  end.

Definition print_store (s : store) : string :=
  match s with
  | Store x lhs_name rhs_name =>
      "  " +:+ lhs_name +:+ "[index] = tmp_" +:+ rhs_name +:+ ";" +:+ endl
  end.

(** Everything from "Start the kernel" to "Write the outputs from tmps". *)
Definition print_kernel_open (k : kernel) : string :=
  "[[host_name(" +:+ dquote +:+ k_name k +:+ dquote +:+ ")]]" +:+ endl
  +:+ "[[kernel]] void " +:+ k_name k +:+ "(" +:+ endl
  +:+ concat_strings (map print_param (k_params k))
  +:+ "    uint3 pos [[thread_position_in_grid]]," +:+ endl
  +:+ "    uint3 grid [[threads_per_grid]]) {" +:+ endl
  +:+ print_index (k_big_index k)
  +:+ concat_strings (map print_axis (k_axes k))
  +:+ concat_strings (map print_load (k_loads k))
  +:+ concat_strings (map print_stmt (k_tape k))
  +:+ concat_strings (map print_store (k_stores k)).

(** "Finish the kernel". *)
Definition print_kernel (k : kernel) : string :=
  print_kernel_open k +:+ "}" +:+ endl.

(** ** The generator: control flow of [build_kernel] *)

Section Generator.

Variable constant_ids : gset N.

(** Constants are scalars captured by value. *)
Definition is_constant (x : array) : bool :=
  bool_decide (id x ∈ constant_ids).

Variables (contiguous : bool) (ndim_arg : Z) (dynamic_dims : bool).

(** The inputs that are given a row of the stride buffer: neither a
    constant, nor a scalar, nor read by the linear index. *)
Definition reads_through_strides (x : array) : bool :=
  negb (is_constant x) && negb (is_scalar x || contiguous).

(** The number of resources a kernel needs bound, counted from the call:
    one buffer per non-constant input, the stride buffer if some input is
    read through strides, one buffer per output, the output strides and
    shape when not contiguous, the rank when it is dynamic. *)
Definition bound_resources (inputs outputs : list array) : nat :=
  length (List.filter (fun x => negb (is_constant x)) inputs)
  + (if existsb reads_through_strides inputs then 1 else 0)
  + length outputs
  + (if contiguous then 0 else 2)
  + (if dynamic_dims then 1 else 0).

(** The loop adding the input arguments.  The state is the namer, the
    argument counter [cnt] and the flag [add_indices]. *)
Fixpoint input_params (xs : list array) (namer : NodeNamer) (cnt : nat)
    (add_indices : bool) : list param * NodeNamer * nat * bool :=
  match xs with
  | [] => ([], namer, cnt, add_indices)
  | x :: rest =>
      let '(xname, namer) := get_name namer x in
      if is_constant x then input_params rest namer cnt add_indices
      else
        let add_indices :=
          if is_scalar x || contiguous then add_indices else true in
        let '(ps, namer, cnt', add_indices) :=
          input_params rest namer (S cnt) add_indices in
        (PInput x xname cnt :: ps, namer, cnt', add_indices)
  end.

(** The loop adding the output arguments. *)
Fixpoint output_params (xs : list array) (namer : NodeNamer) (cnt : nat)
    : list param * NodeNamer * nat :=
  match xs with
  | [] => ([], namer, cnt)
  | x :: rest =>
      let '(xname, namer) := get_name namer x in
      let '(ps, namer, cnt') := output_params rest namer (S cnt) in
      (POutput x xname cnt :: ps, namer, cnt')
  end.

(** The per-axis indices, written when some input is read through strides
    and the rank is static. *)
Definition axis_decls (add_indices : bool) : list axis_decl :=
  if add_indices then
    if negb dynamic_dims then
      if (ndim_arg =? 1)%Z then [AxisPos 0 pos_x]
      else if (ndim_arg =? 2)%Z then [AxisPos 0 pos_y; AxisPos 1 pos_x]
      else if (ndim_arg =? 3)%Z then
        [AxisPos 0 pos_z; AxisPos 1 pos_y; AxisPos 2 pos_x]
      else
        map AxisDivMod (seqZ 0 (ndim_arg - 2))
        ++ [AxisPos (ndim_arg - 2) pos_y; AxisPos (ndim_arg - 1) pos_x]
    else []
  else [].

(** The loop reading the inputs into temporaries; [nc_in_count] counts the
    inputs read through strides so far. *)
Fixpoint input_loads (xs : list array) (namer : NodeNamer) (nc_in_count : Z)
    : list load * NodeNamer :=
  match xs with
  | [] => ([], namer)
  | x :: rest =>
      let '(xname, namer) := get_name namer x in
      if is_constant x then
        let '(ls, namer) := input_loads rest namer nc_in_count in
        (LoadConstant x xname :: ls, namer)
      else if is_scalar x then
        let '(ls, namer) := input_loads rest namer nc_in_count in
        (LoadScalar x xname :: ls, namer)
      else if contiguous then
        let '(ls, namer) := input_loads rest namer nc_in_count in
        (LoadContiguous x xname :: ls, namer)
      else if negb dynamic_dims then
        let offset := (nc_in_count * ndim_arg)%Z in
        let '(ls, namer) := input_loads rest namer (nc_in_count + 1)%Z in
        (LoadStrided x xname offset ndim_arg :: ls, namer)
      else
        let '(ls, namer) := input_loads rest namer (nc_in_count + 1)%Z in
        (LoadDynamic x xname (nc_in_count * ndim_arg)%Z :: ls, namer)
  end.

(** Names of a list of arrays, looked up from left to right. *)
Fixpoint get_names (xs : list array) (namer : NodeNamer)
    : list string * NodeNamer :=
  match xs with
  | [] => ([], namer)
  | x :: rest =>
      let '(xname, namer) := get_name namer x in
      let '(names, namer) := get_names rest namer in
      (xname :: names, namer)
  end.

(** The loop writing the computation: a cast names its first input only,
    any other primitive names all its inputs in order. *)
Fixpoint tape_stmts (xs : list array) (namer : NodeNamer)
    : list stmt * NodeNamer :=
  match xs with
  | [] => ([], namer)
  | x :: rest =>
      let '(xname, namer) := get_name namer x in
      let '(arg_names, namer) :=
        if is_static_cast (primitive x)
        then get_names (take 1 (inputs x)) namer
        else get_names (inputs x) namer in
      let '(ss, namer) := tape_stmts rest namer in
      (TapeStmt x xname arg_names :: ss, namer)
  end.

(** The loop writing the outputs from the temporaries. *)
Fixpoint output_stores (xs : list array) (namer : NodeNamer)
    : list store * NodeNamer :=
  match xs with
  | [] => ([], namer)
  | x :: rest =>
      let '(lhs_name, namer) := get_name namer x in
      let '(rhs_name, namer) := get_name namer x in
      let '(ss, namer) := output_stores rest namer in
      (Store x lhs_name rhs_name :: ss, namer)
  end.

(** Everything [build_kernel] writes for one kernel, and the final value of
    the argument counter. *)
Definition gen_kernel (kernel_name : string)
    (inputs outputs tape : list array) (use_big_index : bool)
    : kernel * nat :=
  let namer := new_namer in
  let add_indices := false in
  let cnt := 0%nat in
  let '(in_ps, namer, cnt, add_indices) :=
    input_params inputs namer cnt add_indices in
  let '(stride_ps, cnt) :=
    if add_indices then ([PInStrides cnt], S cnt) else ([], cnt) in
  let '(out_ps, namer, cnt) := output_params outputs namer cnt in
  let '(shape_ps, cnt) :=
    if negb contiguous
    then ([POutStrides cnt; POutShape (S cnt)], S (S cnt)) else ([], cnt) in
  let '(ndim_ps, cnt) :=
    if dynamic_dims then ([PNdim cnt], S cnt) else ([], cnt) in
  let '(loads, namer) := input_loads inputs namer 0 in
  let '(body, namer) := tape_stmts tape namer in
  let '(stores, namer) := output_stores outputs namer in
  ({| k_name := kernel_name;
      k_params := in_ps ++ stride_ps ++ out_ps ++ shape_ps ++ ndim_ps;
      k_big_index := use_big_index;
      k_axes := axis_decls add_indices;
      k_loads := loads;
      k_tape := body;
      k_stores := stores |}, cnt).

(** The message of the argument-overflow exception. *)
Definition too_many_arguments (kernel_name : string) : string :=
  "[compile] Too many inputs/outputs fused in the Metal Compiled "
  +:+ "primitive which exhausted the available argument buffers for "
  +:+ "the kernel. Please file an issue with the function that results "
  +:+ "in this error. The name of the kernel is '" +:+ kernel_name +:+ "'".

(** [build_kernel]: the text is appended to the stream [os]; only then is
    the counter compared with 31. *)
Definition build_kernel (os : string) (kernel_name : string)
    (inputs outputs tape : list array) (use_big_index : bool)
    : string * outcome :=
  let '(k, cnt) := gen_kernel kernel_name inputs outputs tape use_big_index in
  let os := os +:+ print_kernel k in
  if (31 <? cnt)%nat then (os, Thrown (too_many_arguments kernel_name))
  else (os, Returned).

End Generator.

(** ** The [Compiled] primitive and its kernel library *)

Record Compiled : Type := mk_Compiled {
  inputs_ : list array;
  outputs_ : list array;
  tape_ : list array;
  constant_ids_ : gset N;
  kernel_lib_ : string
}.

(** The arguments of one [build_kernel] call of the library builder. *)
Record variant : Type := mk_variant {
  v_suffix : string;
  v_contiguous : bool;
  v_ndim : Z;
  v_dynamic_dims : bool;
  v_use_big_index : bool
}.

(** The calls the builder makes, in order: contiguous, contiguous_big,
    strided_1 .. strided_7 (the loop [for (int i = 1; i < 8; i++)]), and
    strided_dynamic, which is passed [ndim = 0]. *)
Definition library_variants : list variant :=
  [ mk_variant "_contiguous" true 0 false false;
    mk_variant "_contiguous_big" true 0 false true ]
  ++ map (fun i : Z => mk_variant ("_strided_" +:+ pretty i) false i false false)
         (seqZ 1 7)
  ++ [ mk_variant "_strided_dynamic" false 0 true false ].

Definition build_variant (c : Compiled) (lib : string) (os : string)
    (v : variant) : string * outcome :=
  build_kernel (constant_ids_ c) (v_contiguous v) (v_ndim v)
    (v_dynamic_dims v) os (lib +:+ v_suffix v)
    (inputs_ c) (outputs_ c) (tape_ c) (v_use_big_index v).

(** Consecutive [build_kernel] calls on one stream; an exception ends the
    sequence. *)
Fixpoint build_variants (c : Compiled) (lib : string) (os : string)
    (vs : list variant) : string * outcome :=
  match vs with
  | [] => (os, Returned)
  | v :: rest =>
      match build_variant c lib os v with
      | (os, Returned) => build_variants c lib os rest
      | (os, Thrown msg) => (os, Thrown msg)
      | (os, Undefined) => (os, Undefined)
      end
  end.

(** The builder passed to [get_library]: the Metal helper sources followed
    by every variant. *)
Definition build_library (c : Compiled) (lib : string) : string * outcome :=
  build_variants c lib metal_preamble library_variants.

(** ** The dispatcher: [Compiled::eval_gpu] *)

(** What is bound to an argument slot. *)
Inductive resource : Type :=
| InputBuffer (x : array)            (* set_input_array(x, cnt++) *)
| InStrides (data : list Z)          (* setBytes(in_strides.data(), ...) *)
| OutputBuffer (x : array)           (* set_output_array(x, cnt++) *)
| OutStrides (data : list Z)         (* setBytes(strides[0].data(), ...) *)
| OutShape (data : list Z)           (* setBytes(shape.data(), ...) *)
| RankScalar (n : Z).                (* setBytes(&ndim, sizeof(int), ...) *)

(** The calls made on the device and the command encoder. *)
Inductive call : Type :=
| new_library (name source : string)
| get_kernel (kernel_name : string)
| setComputePipelineState (kernel_name : string)
| Bind (r : resource) (slot : nat)
| allocate_outputs
| dispatchThreads (grid_dims group_dims : Z * Z * Z).

(** Modelled from the spec: [Device::get_library] is defined in
    [mlx/backend/metal/device.cpp].  The library is built on first use: the
    builder runs only when no library of that name is cached, its text is
    then compiled, and an exception of the builder leaves [get_library]
    before anything is compiled. *)
Definition get_library (device_libs : gset string) (name : string)
    (builder : string * outcome) : list call * outcome :=
  if bool_decide (name ∈ device_libs) then ([], Returned)
  else
    match builder with
    | (source, Returned) => ([new_library name source], Returned)
    | (_, Thrown msg) => ([], Thrown msg)
    | (_, Undefined) => ([], Undefined)
    end.

(** The stride row of input [x] against the output shape.  The first loop
    runs over [output_shape.size() - x.ndim()] leading axes; the second
    continues with the same [j].  (The subtraction is on size_t: an input
    with more axes than the output is not a case the loop handles.) *)
Definition broadcast_strides (output_shape out_strides : list Z) (x : array)
    : list Z :=
  let lead := (length output_shape - ndim x)%nat in
  map (fun j : nat =>
         if (output_shape !!! j =? 1)%Z then out_strides !!! j else 0%Z)
      (seq 0 lead)
  ++ map (fun i : nat =>
            let j := (lead + i)%nat in
            if (shape x !!! i =? 1)%Z then
              if (output_shape !!! j =? 1)%Z then out_strides !!! j else 0%Z
            else strides x !!! i)
         (seq 0 (ndim x)).

(** The rows pushed after the output's own strides: constants (by the
    identity of the traced input [inputs_[i]]) and scalars are skipped. *)
Fixpoint input_strides (constant_ids : gset N)
    (output_shape out_strides : list Z) (xs : list (array * array))
    : list (list Z) :=
  match xs with
  | [] => []
  | (x_, x) :: rest =>
      if is_constant constant_ids x_ then
        input_strides constant_ids output_shape out_strides rest
      else if is_scalar x then
        input_strides constant_ids output_shape out_strides rest
      else
        broadcast_strides output_shape out_strides x
        :: input_strides constant_ids output_shape out_strides rest
  end.

(** What the dispatcher knows once the shapes and strides are inspected. *)
Record analysis : Type := mk_analysis {
  a_contiguous : bool;
  a_shape : list Z;              (* collapsed shape; empty when contiguous *)
  a_strides : list (list Z);     (* collapsed strides, row 0 the output's *)
  a_use_2d : bool
}.

(** Lines from "Figure out which kernel we are using" to the computation
    of [use_2d].  [inputs_[i]] and [inputs[i]] are read at the same [i]: the
    primitive is evaluated on as many inputs as it was traced with. *)
Definition analyze (c : Compiled) (inputs : list array) (out0 : array)
    : analysis :=
  let output_shape := shape out0 in
  let contiguous := compiled_check_contiguity inputs output_shape in
  let initial_strides := [strides out0] in
  let '(shape, strides) :=
    if negb contiguous then
      collapse_contiguous_dims output_shape
        (initial_strides
         ++ input_strides (constant_ids_ c) output_shape (strides out0)
              (zip (inputs_ c) inputs))
        INT32_MAX
    else ([], []) in
  let use_2d :=
    if contiguous then
      let max_size :=
        fold_left (fun m x => Z.max m (data_size x)) inputs 0%Z in
      (UINT32_MAX <? max_size)%Z
    else false in
  mk_analysis contiguous shape strides use_2d.

(** "Get the kernel from the lib": the name of the variant. *)
Definition is_dynamic (a : analysis) : bool :=
  (8 <=? length (a_shape a))%nat.

Definition select_kernel_name (lib : string) (a : analysis) : string :=
  let kernel_name :=
    lib +:+ (if a_contiguous a then "_contiguous" else "_strided_") in
  if negb (a_contiguous a) then
    if is_dynamic a then kernel_name +:+ "dynamic"
    else kernel_name +:+ pretty (length (a_shape a))
  else if a_use_2d a then kernel_name +:+ "_big"
  else kernel_name.

(** "Put the inputs in": the state is the slot counter, the index of the
    next stride row and the stride buffer built so far. *)
Fixpoint bind_inputs (constant_ids : gset N) (a : analysis)
    (xs : list (array * array)) (cnt stride_idx : nat) (in_strides : list Z)
    : list call * nat * list Z :=
  match xs with
  | [] => ([], cnt, in_strides)
  | (x_, x) :: rest =>
      if is_constant constant_ids x_ then
        bind_inputs constant_ids a rest cnt stride_idx in_strides
      else
        let '(stride_idx, in_strides) :=
          if negb (a_contiguous a) && negb (is_scalar x)
          then (S stride_idx, in_strides ++ a_strides a !!! stride_idx)
          else (stride_idx, in_strides) in
        let '(calls, cnt', in_strides) :=
          bind_inputs constant_ids a rest (S cnt) stride_idx in_strides in
        (Bind (InputBuffer x) cnt :: calls, cnt', in_strides)
  end.

Fixpoint bind_outputs (xs : list array) (cnt : nat) : list call * nat :=
  match xs with
  | [] => ([], cnt)
  | x :: rest =>
      let '(calls, cnt') := bind_outputs rest (S cnt) in
      (Bind (OutputBuffer x) cnt :: calls, cnt')
  end.

(** From "Put the inputs in" to "Put the number of dims in if it is
    dynamic". *)
Definition bind_arguments (c : Compiled) (a : analysis)
    (inputs outputs : list array) : list call :=
  let cnt := 0%nat in
  let stride_idx := 1%nat in
  let '(in_calls, cnt, in_strides) :=
    bind_inputs (constant_ids_ c) a (zip (inputs_ c) inputs)
      cnt stride_idx [] in
  let '(stride_calls, cnt) :=
    match in_strides with
    | [] => ([], cnt)
    | _ :: _ => ([Bind (InStrides in_strides) cnt], S cnt)
    end in
  let '(out_calls, cnt) := bind_outputs outputs cnt in
  let '(shape_calls, cnt) :=
    if negb (a_contiguous a) then
      ([Bind (OutStrides (a_strides a !!! 0%nat)) cnt;
        Bind (OutShape (a_shape a)) (S cnt)], S (S cnt))
    else ([], cnt) in
  let rank_calls :=
    if is_dynamic a
    then [Bind (RankScalar (Z.of_nat (length (a_shape a)))) cnt] else [] in
  in_calls ++ stride_calls ++ [allocate_outputs] ++ out_calls
  ++ shape_calls ++ rank_calls.

(** The message of the threadgroup exception. *)
Definition must_use_1024 : string :=
  "[Metal::binary] Must use 1024 sized block".

(** size_t arithmetic. *)
Definition size_t_mul (a b : Z) : Z := ((a * b) mod 2 ^ 64)%Z.

(** "Launch the kernel".  The strided branch divides by [dim0 * dim1],
    a product on [size_t], before it checks the threadgroup size: when the
    product is zero the division is by zero, the behaviour is undefined and
    the check is never reached. *)
Definition launch (kernel_name : string) (a : analysis) (out0 : array)
    : list call * outcome :=
  if a_contiguous a then
    let nthreads := data_size out0 in
    let grid_dims :=
      if a_use_2d a then get_2d_grid_dims (shape out0) (strides out0)
      else (nthreads, 1%Z, 1%Z) in
    let group_dims :=
      (Z.min nthreads (maxTotalThreadsPerThreadgroup kernel_name), 1%Z, 1%Z) in
    ([dispatchThreads grid_dims group_dims], Returned)
  else
    let ndim := length (a_shape a) in
    let dim0 :=
      if (0 <? ndim)%nat then a_shape a !!! (ndim - 1)%nat else 1%Z in
    let dim1 :=
      if (1 <? ndim)%nat then a_shape a !!! (ndim - 2)%nat else 1%Z in
    if (size_t_mul dim0 dim1 =? 0)%Z then ([], Undefined)
    else
      let rest := (size out0 / size_t_mul dim0 dim1)%Z in
      let thread_group_size := maxTotalThreadsPerThreadgroup kernel_name in
      if negb (thread_group_size =? 1024)%Z then ([], Thrown must_use_1024)
      else
        let group_dims := get_block_dims dim0 dim1 rest in
        let grid_dims := (dim0, dim1, rest) in
        ([dispatchThreads grid_dims group_dims], Returned).

(** "Make the name for the kernel library". *)
Definition library_name (c : Compiled) : string :=
  if String.eqb (kernel_lib_ c) EmptyString
  then build_lib_name (inputs_ c) (outputs_ c) (tape_ c) (constant_ids_ c)
  else kernel_lib_ c.

(** [Compiled::eval_gpu] on [inputs] and the outputs [out0 :: outs]
    ([outputs[0]] is read unconditionally).  [device_libs] are the names of
    the libraries the device has already built. *)
Definition eval_gpu (c : Compiled) (device_libs : gset string)
    (inputs : list array) (out0 : array) (outs : list array)
    : list call * outcome :=
  let outputs := out0 :: outs in
  let lib := library_name c in
  match get_library device_libs lib (build_library c lib) with
  | (lib_calls, Thrown msg) => (lib_calls, Thrown msg)
  | (lib_calls, Undefined) => (lib_calls, Undefined)
  | (lib_calls, Returned) =>
      let a := analyze c inputs out0 in
      let kernel_name := select_kernel_name lib a in
      let '(launch_calls, result) := launch kernel_name a out0 in
      (lib_calls
       ++ [get_kernel kernel_name; setComputePipelineState kernel_name]
       ++ bind_arguments c a inputs outputs
       ++ launch_calls, result)
  end.

(** The library of [c] is cached on the device or its builder returns. *)
Definition library_available (c : Compiled) (device_libs : gset string)
    : Prop :=
  snd (get_library device_libs (library_name c)
         (build_library c (library_name c))) = Returned.

(** ** Reading syntax trees and traces *)

(** The arrays that own an input-buffer parameter, in order. *)
Definition param_inputs (ps : list param) : list array :=
  omap (fun p => match p with PInput x _ _ => Some x | _ => None end) ps.

(** The offsets into the stride buffer at which the loads through strides
    start, in order. *)
Definition stride_offsets (ls : list load) : list Z :=
  omap (fun l => match l with
                 | LoadStrided _ _ offset _ | LoadDynamic _ _ offset =>
                     Some offset
                 | _ => None
                 end) ls.

(** The kernel one variant of the library is generated as. *)
Definition variant_kernel (c : Compiled) (lib : string) (v : variant)
    : kernel * nat :=
  gen_kernel (constant_ids_ c) (v_contiguous v) (v_ndim v) (v_dynamic_dims v)
    (lib +:+ v_suffix v) (inputs_ c) (outputs_ c) (tape_ c)
    (v_use_big_index v).

(** The slot bindings of a trace, in order. *)
Definition bindings (cs : list call) : list (resource * nat) :=
  omap (fun c => match c with Bind r slot => Some (r, slot) | _ => None end) cs.

Definition bound_inputs (cs : list call) : list array :=
  omap (fun c => match c with Bind (InputBuffer x) _ => Some x | _ => None end)
       cs.

Definition bound_in_strides (cs : list call) : list (list Z) :=
  omap (fun c => match c with Bind (InStrides d) _ => Some d | _ => None end)
       cs.

Definition is_dispatch (c : call) : bool :=
  match c with dispatchThreads _ _ => true | _ => false end.

Definition is_new_library (c : call) : bool :=
  match c with new_library _ _ => true | _ => false end.

(** The runtime inputs whose traced identity is not a constant, and among
    them those that are not scalars. *)
Definition nonconstant_inputs (constant_ids : gset N)
    (xs : list (array * array)) : list array :=
  map snd (List.filter (fun p => negb (is_constant constant_ids (fst p))) xs).

Definition strided_inputs (constant_ids : gset N)
    (xs : list (array * array)) : list array :=
  List.filter (fun x => negb (is_scalar x)) (nonconstant_inputs constant_ids xs).

(** The order of resources the binding convention prescribes for a call. *)
Definition binding_order (c : Compiled) (a : analysis)
    (inputs outputs : list array) : list resource :=
  let ins := nonconstant_inputs (constant_ids_ c) (zip (inputs_ c) inputs) in
  let strided := strided_inputs (constant_ids_ c) (zip (inputs_ c) inputs) in
  map InputBuffer ins
  ++ (if negb (a_contiguous a) && negb (bool_decide (strided = []))
      then [InStrides
              (concat (map (fun k : nat => a_strides a !!! S k)
                           (seq 0 (length strided))))]
      else [])
  ++ map OutputBuffer outputs
  ++ (if negb (a_contiguous a)
      then [OutStrides (a_strides a !!! 0%nat); OutShape (a_shape a)]
      else [])
  ++ (if negb (a_contiguous a) && is_dynamic a
      then [RankScalar (Z.of_nat (length (a_shape a)))]
      else []).

(** ** Three sentences of the specification, as written *)




(** The broadcast rule with the aligned-axis case split on "output size
    greater than 1", "both sizes 1" and "otherwise". *)
Definition broadcast_rule_as_stated (output_shape out_strides : list Z)
    (x : array) : Prop :=
  let row := broadcast_strides output_shape out_strides x in
  let lead := (length output_shape - ndim x)%nat in
  (forall j : nat, (j < lead)%nat ->
     row !!! j =
     if (output_shape !!! j =? 1)%Z then out_strides !!! j else 0%Z)
  /\ (forall i : nat, (i < ndim x)%nat ->
       let j := (lead + i)%nat in
       row !!! j =
       if (shape x !!! i =? 1)%Z && (1 <? output_shape !!! j)%Z then 0%Z
       else if (shape x !!! i =? 1)%Z && (output_shape !!! j =? 1)%Z
            then out_strides !!! j
            else strides x !!! i).

(** The threadgroup failure with a message that names the kernel. *)
Definition threadgroup_failure_as_stated (c : Compiled)
    (device_libs : gset string) (inputs : list array) (out0 : array)
    (outs : list array) : Prop :=
  let a := analyze c inputs out0 in
  let kernel_name := select_kernel_name (library_name c) a in
  a_contiguous a = false ->
  maxTotalThreadsPerThreadgroup kernel_name <> 1024%Z ->
  exists msg,
    snd (eval_gpu c device_libs inputs out0 outs) = Thrown msg
    /\ contains kernel_name msg = true
    /\ existsb is_dispatch (fst (eval_gpu c device_libs inputs out0 outs))
       = false.

(** ** Meaning of a generated kernel for one thread

    The kernel text is Metal code; what one thread of it computes is read
    off the syntax tree, line by line.  The helpers of the Metal kernel
    library and the arithmetic of the element types are collaborators. *)

Class MetalRuntime (V : Type) : Type := {
  (* elem_to_loc(index, shape, strides, ndim) of the Metal utilities *)
  elem_to_loc : Z -> list Z -> list Z -> Z -> Z;
  (* the literal written by print_constant *)
  constant_value : array -> V;
  static_cast : Dtype -> V -> V;
  (* Op()(args) of the Metal unary, binary and ternary operators *)
  apply_primitive : Primitive -> list V -> V
}.

Record uint3 : Type := mk_uint3 { u_x : Z; u_y : Z; u_z : Z }.

(** What is bound when the kernel runs.  A pointer parameter is identified
    by its name in the kernel text. *)
Record kernel_args (V : Type) : Type := mk_kernel_args {
  arg_buffer : string -> Z -> V;
  arg_in_strides : list Z;
  arg_output_strides : list Z;
  arg_output_shape : list Z;
  arg_ndim : Z
}.
#[global] Arguments arg_buffer {V} _ _ _.
#[global] Arguments arg_in_strides {V} _.
#[global] Arguments arg_output_strides {V} _.
#[global] Arguments arg_output_shape {V} _.
#[global] Arguments arg_ndim {V} _.

Definition to_uint (n : Z) : Z := (n mod 2 ^ 32)%Z.
Definition to_size_t (n : Z) : Z := (n mod 2 ^ 64)%Z.

Section Execution.

Context {V : Type} `{MetalRuntime V}.
Variable args : kernel_args V.
Variables pos grid : uint3.

(** [size_t index = pos.x + grid.x * size_t(pos.y)] or
    [uint index = pos.x + grid.x * (pos.y + grid.y * pos.z)]. *)
Definition eval_index (use_big_index : bool) : Z :=
  if use_big_index then to_size_t (u_x pos + u_x grid * u_y pos)
  else to_uint (u_x pos + u_x grid * (u_y pos + u_y grid * u_z pos)).

Definition eval_pos_component (c : pos_component) : Z :=
  match c with pos_x => u_x pos | pos_y => u_y pos | pos_z => u_z pos end.

(** One [uint index_i] declaration: the pair of [i] and its value. *)
Definition eval_axis (index : Z) (a : axis_decl) : Z * Z :=
  match a with
  | AxisPos i c => (i, eval_pos_component c)
  | AxisDivMod i =>
      (i, (to_uint (index / to_uint (arg_output_strides args !!! Z.to_nat i))
           mod to_uint (arg_output_shape args !!! Z.to_nat i))%Z)
  end.

Fixpoint lookup_axis (axes : list (Z * Z)) (i : Z) : option Z :=
  match axes with
  | [] => None
  | (j, v) :: rest => if (i =? j)%Z then Some v else lookup_axis rest i
  end.

(** [index_0 * in_strides[offset] + index_1 * in_strides[offset + 1] ...],
    computed on size_t. *)
Definition strided_loc (axes : list (Z * Z)) (offset ndim : Z) : option Z :=
  terms ← mapM (fun i : Z =>
                  v ← lookup_axis axes i;
                  Some (v * (arg_in_strides args !!! Z.to_nat (offset + i)))%Z)
               (0%Z :: seqZ 1 (ndim - 1));
  Some (to_size_t (fold_right Z.add 0%Z terms)).

(** The value a load line puts in [tmp_<name>]. *)
Definition eval_load (index : Z) (axes : list (Z * Z)) (l : load)
    : option (string * V) :=
  match l with
  | LoadConstant x xname =>
      Some (xname, static_cast (dtype x) (constant_value x))
  | LoadScalar x xname => Some (xname, arg_buffer args xname 0%Z)
  | LoadContiguous x xname => Some (xname, arg_buffer args xname index)
  | LoadStrided x xname offset ndim =>
      loc ← strided_loc axes offset ndim;
      Some (xname, arg_buffer args xname loc)
  | LoadDynamic x xname offset =>
      Some (xname,
            arg_buffer args xname
              (elem_to_loc index (arg_output_shape args)
                 (drop (Z.to_nat offset) (arg_in_strides args))
                 (arg_ndim args)))
  end.

Fixpoint eval_loads (index : Z) (axes : list (Z * Z)) (ls : list load)
    (tmp : gmap string V) : option (gmap string V) :=
  match ls with
  | [] => Some tmp
  | l :: rest =>
      '(xname, v) ← eval_load index axes l;
      eval_loads index axes rest (<[xname := v]> tmp)
  end.

(** One line of the computation extends the temporaries. *)
Definition eval_stmt (tmp : gmap string V) (s : stmt)
    : option (gmap string V) :=
  match s with
  | TapeStmt x xname arg_names =>
      if is_static_cast (primitive x) then
        v ← tmp !! hd EmptyString arg_names;
        Some (<[xname := static_cast (dtype x) v]> tmp)
      else
        vs ← mapM (fun a : string => tmp !! a) arg_names;
        Some (<[xname := apply_primitive (primitive x) vs]> tmp)
  end.

Fixpoint eval_tape (ss : list stmt) (tmp : gmap string V)
    : option (gmap string V) :=
  match ss with
  | [] => Some tmp
  | s :: rest => tmp ← eval_stmt tmp s; eval_tape rest tmp
  end.

(** One [name[index] = tmp_name;] line: the output, the element written
    and the value. *)
Definition eval_store (index : Z) (tmp : gmap string V) (s : store)
    : option (string * Z * V) :=
  match s with
  | Store x lhs_name rhs_name => v ← tmp !! rhs_name; Some (lhs_name, index, v)
  end.

(** What the thread at [pos] of a launch of [grid] threads writes; [None]
    when the text uses a name it has not declared. *)
Definition exec_thread (k : kernel) : option (list (string * Z * V)) :=
  let index := eval_index (k_big_index k) in
  let axes := map (eval_axis index) (k_axes k) in
  tmp ← eval_loads index axes (k_loads k) ∅;
  tmp ← eval_tape (k_tape k) tmp;
  mapM (eval_store index tmp) (k_stores k).

End Execution.

End Model.

(** ** A concrete instance

    Used to run the definitions on the scenarios of the specification. *)

Inductive ex_dtype : Type := float32 | int32 | bool_.

Inductive ex_primitive : Type := Add | Multiply | AsType.

(** Modelled from the spec: [NodeNamer] is defined in [mlx/graph_utils.h].
    A naming table from identities to names: an identity already in the
    table keeps its name, a new one gets the next name of the sequence
    A, B, ..., Z, AA, AB, ... *)
Fixpoint ex_letters (fuel var_num : nat) (acc : string) : string :=
  match fuel with
  | O => acc
  | S fuel =>
      if (var_num =? 0)%nat then acc
      else ex_letters fuel ((var_num - 1) / 26)%nat
             (String (ascii_of_nat (65 + (var_num - 1) mod 26)) acc)
  end.

Definition ex_namer : Type := list (N * string).

Fixpoint ex_find (names : ex_namer) (i : N) : option string :=
  match names with
  | [] => None
  | (j, s) :: rest => if (i =? j)%N then Some s else ex_find rest i
  end.

Definition ex_get_name (names : ex_namer)
    (x : @array ex_dtype ex_primitive) : string * ex_namer :=
  match ex_find names (id x) with
  | Some s => (s, names)
  | None =>
      let s := ex_letters 8 (length names + 1) EmptyString in
      (s, names ++ [(id x, s)])
  end.

Definition ex_type_string (t : ex_dtype) : string :=
  match t with float32 => "float" | int32 => "int" | bool_ => "bool" end.

Definition ex_print_primitive (p : ex_primitive) : string :=
  match p with Add => "Add" | Multiply => "Multiply" | AsType => "AsType" end.

Definition list_Z_eqb (a b : list Z) : bool := bool_decide (a = b).

Definition ex_collaborators (max_threads : Z)
    : @Collaborators ex_dtype ex_primitive ex_namer := {|
  new_namer := [];
  get_name := ex_get_name;
  is_scalar := fun x => (ndim x =? 0)%nat;
  is_static_cast := fun p => match p with AsType => true | _ => false end;
  get_type_string := ex_type_string;
  print_constant := fun _ => "2";
  print_primitive := ex_print_primitive;
  compiled_check_contiguity := fun inputs shape_ =>
    forallb (fun x => (ndim x =? 0)%nat
                      || (list_Z_eqb (strides x) (row_major_strides (shape x))
                          && list_Z_eqb (shape x) shape_)) inputs;
  build_lib_name := fun _ _ _ _ => "lib";
  collapse_contiguous_dims := fun shape_ strides_ _ => (shape_, strides_);
  metal_preamble := "// metal" +:+ endl;
  maxTotalThreadsPerThreadgroup := fun _ => max_threads;
  get_2d_grid_dims := fun shape_ _ =>
    (fold_right Z.mul 1%Z (take (length shape_ - 1) shape_),
     fold_right Z.mul 1%Z (drop (length shape_ - 1) shape_), 1%Z);
  get_block_dims := fun d0 d1 d2 => (Z.min d0 32, Z.min d1 32, 1%Z)
|}.

Definition ex_array (i : N) (shape_ strides_ : list Z) : array :=
  mk_array i shape_ strides_ float32 (fold_right Z.mul 1%Z shape_) Add [].

Definition ex_node (i : N) (shape_ : list Z) (p : ex_primitive)
    (ins : list array) : array :=
  mk_array i shape_ (row_major_strides shape_) float32
    (fold_right Z.mul 1%Z shape_) p ins.

#[local] Instance ex_default : @Collaborators ex_dtype ex_primitive ex_namer :=
  ex_collaborators 1024.

(** Integers as element values; [elem_to_loc] is left open. *)
Definition ex_metal (e2l : Z -> list Z -> list Z -> Z -> Z)
    : @MetalRuntime ex_dtype ex_primitive Z := {|
  elem_to_loc := e2l;
  constant_value := fun _ => 2%Z;
  static_cast := fun _ v => v;
  apply_primitive := fun p vs =>
    match p with
    | Add => fold_right Z.add 0%Z vs
    | Multiply => fold_right Z.mul 1%Z vs
    | AsType => hd 0%Z vs
    end
|}.

(** Scenario A: z = (x + y) * 2 on contiguous arrays of length 1000. *)
Definition scA_x : array := ex_array 1 [1000%Z] [1%Z].
Definition scA_y : array := ex_array 2 [1000%Z] [1%Z].
Definition scA_two : array := ex_array 3 [] [].
Definition scA_sum : array := ex_node 4 [1000%Z] Add [scA_x; scA_y].
Definition scA_z : array := ex_node 5 [1000%Z] Multiply [scA_sum; scA_two].
Definition scA : Compiled :=
  mk_Compiled [scA_x; scA_y; scA_two] [scA_z] [scA_sum; scA_z] {[ 3%N ]} "lib".


(** Scenario B: x of shape [4,1,8] and y of shape [1,6,8] against the
    output shape [4,6,8]. *)
Definition scB_x : array := ex_array 1 [4; 1; 8]%Z [8; 8; 1]%Z.
Definition scB_y : array := ex_array 2 [1; 6; 8]%Z [48; 8; 1]%Z.
Definition scB_z : array := ex_node 3 [4; 6; 8]%Z Add [scB_x; scB_y].
Definition scB : Compiled :=
  mk_Compiled [scB_x; scB_y] [scB_z] [scB_z] ∅ "lib".

(** Scenario C: a contiguous input of 2^32 elements. *)
Definition scC_x : array := ex_array 1 [65536; 65536]%Z [65536; 1]%Z.
Definition scC_z : array := ex_node 2 [65536; 65536]%Z AsType [scC_x].
Definition scC : Compiled := mk_Compiled [scC_x] [scC_z] [scC_z] ∅ "lib".

(** x + y where y is a transposed view. *)
Definition tr_x : array := ex_array 1 [2; 2]%Z [2; 1]%Z.
Definition tr_y : array := ex_array 2 [2; 2]%Z [1; 2]%Z.
Definition tr_z : array := ex_node 3 [2; 2]%Z Add [tr_x; tr_y].
Definition tr : Compiled := mk_Compiled [tr_x; tr_y] [tr_z] [tr_z] ∅ "lib".

(** The buffers of that call: x holds a one at element 1, y at element 2;
    the stride buffer holds the row of x, then the row of y. *)
Definition tr_args : kernel_args Z := {|
  arg_buffer := fun name i =>
    if String.eqb name "A" then (if (i =? 1)%Z then 1%Z else 0%Z)
    else if String.eqb name "B" then (if (i =? 2)%Z then 1%Z else 0%Z)
    else 0%Z;
  arg_in_strides := [2; 1; 1; 2]%Z;
  arg_output_strides := [2; 1]%Z;
  arg_output_shape := [2; 2]%Z;
  arg_ndim := 2%Z
|}.

(** x + y on eight axes of size 2, y with its axes reversed: no two axes
    can be merged. *)
Definition r8_shape : list Z := [2; 2; 2; 2; 2; 2; 2; 2]%Z.
Definition r8_x : array := ex_array 1 r8_shape (row_major_strides r8_shape).
Definition r8_y : array :=
  ex_array 2 r8_shape (rev (row_major_strides r8_shape)).
Definition r8_z : array := ex_node 3 r8_shape Add [r8_x; r8_y].
Definition r8 : Compiled := mk_Compiled [r8_x; r8_y] [r8_z] [r8_z] ∅ "lib".

(** The variants of a library, by name. *)
Definition contiguous_narrow : variant :=
  mk_variant "_contiguous" true 0 false false.
Definition contiguous_big : variant :=
  mk_variant "_contiguous_big" true 0 false true.
Definition strided_static (n : Z) : variant :=
  mk_variant ("_strided_" +:+ pretty n) false n false false.
Definition strided_dynamic : variant :=
  mk_variant "_strided_dynamic" false 0 true false.

(** A sum of 28 arrays: 29 buffers when contiguous, 32 arguments when
    strided. *)
Fixpoint ex_chain (next_id : N) (acc : array) (xs : list array)
    : list array :=
  match xs with
  | [] => []
  | x :: rest =>
      let node := ex_node next_id [4%Z] Add [acc; x] in
      node :: ex_chain (next_id + 1)%N node rest
  end.

Definition ov_inputs : list array :=
  map (fun i : nat => ex_array (N.of_nat i) [4%Z] [1%Z]) (seq 1 28).
Definition ov_tape : list array :=
  ex_chain 100 (ex_array 1 [4%Z] [1%Z]) (tail ov_inputs).
Definition ov_out : array := List.last ov_tape (ex_array 1 [4%Z] [1%Z]).
Definition ov : Compiled := mk_Compiled ov_inputs [ov_out] ov_tape ∅ "lib".

(** An input of shape [1] against an output with an axis of size 0. *)
Definition z0_x : array := ex_array 1 [1%Z] [1%Z].

(** x * y where y, and with it the output, has an empty axis. *)
Definition z0_y : array := ex_array 2 [0%Z] [1%Z].
Definition z0_z : array := ex_node 3 [0%Z] Multiply [z0_x; z0_y].
Definition z0 : Compiled := mk_Compiled [z0_x; z0_y] [z0_z] [z0_z] ∅ "lib".


(** ** Grids and coordinates *)

(** The product of a list of dimensions. *)
Definition product (l : list Z) : Z := fold_right Z.mul 1%Z l.

(** A thread position lies in a grid. *)
Definition in_grid (pos grid : uint3) : Prop :=
  (0 <= u_x pos < u_x grid)%Z /\ (0 <= u_y pos < u_y grid)%Z
  /\ (0 <= u_z pos < u_z grid)%Z.

(** The grid of a strided launch over the collapsed shape [s]: the last
    axis, the axis before it, and the product of the others. *)
Definition strided_grid (s : list Z) : uint3 :=
  let n := length s in
  mk_uint3 (if (0 <? n)%nat then s !!! (n - 1)%nat else 1%Z)
           (if (1 <? n)%nat then s !!! (n - 2)%nat else 1%Z)
           (product (take (n - 2) s)).

(** ** Addresses *)

(** The element offset of the coordinates [idx] under the strides [row]. *)
Definition dot (idx row : list Z) : Z :=
  fold_right Z.add 0%Z (zip_with Z.mul idx row).

(** The coordinates in an input of shape [xshape] of the output coordinates
    [idx] under trailing-aligned broadcasting: the [lead] leading output
    axes are dropped and an axis of size 1 is read at 0. *)
Definition broadcast_coords (xshape : list Z) (lead : nat) (idx : list Z)
    : list Z :=
  zip_with (fun i d => if (d =? 1)%Z then 0%Z else i) (drop lead idx) xshape.

(** ** Kernel parameters against bound resources *)

(** The kind of an argument slot. *)
Inductive slot_kind : Type :=
| KInput | KInStrides | KOutput | KOutStrides | KOutShape | KNdim.

Definition param_kind {Dtype Primitive : Type}
    (p : @param Dtype Primitive) : slot_kind :=
  match p with
  | PInput _ _ _ => KInput
  | PInStrides _ => KInStrides
  | POutput _ _ _ => KOutput
  | POutStrides _ => KOutStrides
  | POutShape _ => KOutShape
  | PNdim _ => KNdim
  end.

Definition resource_kind {Dtype Primitive : Type}
    (r : @resource Dtype Primitive) : slot_kind :=
  match r with
  | InputBuffer _ => KInput
  | InStrides _ => KInStrides
  | OutputBuffer _ => KOutput
  | OutStrides _ => KOutStrides
  | OutShape _ => KOutShape
  | RankScalar _ => KNdim
  end.

(** The variant whose name the dispatcher selects. *)
Definition selected_variant (a : analysis) : variant :=
  if a_contiguous a then
    if a_use_2d a then contiguous_big else contiguous_narrow
  else if is_dynamic a then strided_dynamic
  else strided_static (Z.of_nat (length (a_shape a))).

(** ** Reading the loads of a kernel *)

(** The temporary a load line declares and the input it reads. *)
Definition load_name {Dtype Primitive : Type}
    (l : @load Dtype Primitive) : string :=
  match l with
  | LoadConstant _ xname | LoadScalar _ xname | LoadContiguous _ xname
  | LoadStrided _ xname _ _ | LoadDynamic _ xname _ => xname
  end.

Definition load_array {Dtype Primitive : Type}
    (l : @load Dtype Primitive) : @array Dtype Primitive :=
  match l with
  | LoadConstant x _ | LoadScalar x _ | LoadContiguous x _
  | LoadStrided x _ _ _ | LoadDynamic x _ _ => x
  end.

(** ** The names of a kernel and the order of the tape *)

Section Scoping.

Context {Dtype Primitive NodeNamer : Type}
        {collaborators : @Collaborators Dtype Primitive NodeNamer}.

(** The inputs of a tape node that its line names: the first one for a
    cast, all of them otherwise. *)
Definition named_inputs (x : @array Dtype Primitive)
    : list (@array Dtype Primitive) :=
  if is_static_cast (primitive x) then take 1 (inputs x) else inputs x.

(** The arrays [build_kernel] asks the namer for, in the order of the
    calls: the inputs (parameters), the outputs (parameters), the inputs
    (loads), every tape node followed by the inputs its line names, and
    every output twice (stores). *)
Definition lookups (c : @Compiled Dtype Primitive)
    : list (@array Dtype Primitive) :=
  inputs_ c ++ outputs_ c ++ inputs_ c
  ++ flat_map (fun x => x :: named_inputs x) (tape_ c)
  ++ flat_map (fun x => [x; x]) (outputs_ c).

(** The namer names by identity: every lookup of the run returns the name
    [name_of] gives to the identity of the array. *)
Definition named_by (name_of : N -> string) (c : @Compiled Dtype Primitive)
    : Prop :=
  fst (get_names (lookups c) new_namer)
  = map (fun x => name_of (id x)) (lookups c).

(** Arrays of different identities have different names. *)
Definition names_apart (name_of : N -> string)
    (c : @Compiled Dtype Primitive) : bool :=
  forallb (fun x =>
             forallb (fun y =>
                        implb (String.eqb (name_of (id x)) (name_of (id y)))
                              (N.eqb (id x) (id y)))
                     (lookups c))
          (lookups c).

(** The tape is in evaluation order: every tape node has an input (the
    tape loop reads [x.inputs()[0]] or [x.inputs().back()]), and every
    input its line names is an input of the primitive or an earlier tape
    node. *)
Fixpoint closed_tape (known : list N) (tape : list (@array Dtype Primitive))
    : bool :=
  match tape with
  | [] => true
  | x :: rest =>
      match inputs x with
      | [] => false
      | y :: _ =>
          if is_static_cast (primitive x) then bool_decide (id y ∈ known)
          else forallb (fun y => bool_decide (id y ∈ known)) (inputs x)
      end
      && closed_tape (known ++ [id x]) rest
  end.

(** The tape is in evaluation order and computes every output. *)
Definition closed (c : @Compiled Dtype Primitive) : bool :=
  closed_tape (map id (inputs_ c)) (tape_ c)
  && forallb (fun o => bool_decide (id o ∈ map id (inputs_ c ++ tape_ c)))
             (outputs_ c).

End Scoping.

(** The value of a tape line from the values of the inputs it names: a
    cast converts its first input, any other primitive is applied to all
    its inputs in order. *)
Definition node_value {Dtype Primitive V : Type}
    {collaborators_types : Type}
    {collaborators : @Collaborators Dtype Primitive collaborators_types}
    {metal : @MetalRuntime Dtype Primitive V}
    (val : N -> V) (x : @array Dtype Primitive) : V :=
  if is_static_cast (primitive x) then
    match inputs x with
    | y :: _ => static_cast (dtype x) (val (id y))
    | [] => val (id x)
    end
  else apply_primitive (primitive x) (map (fun y => val (id y)) (inputs x)).

(** ** The transposed sum as a running example *)

(** Element values of the examples, with [elem_to_loc] constantly 0. *)
#[local] Instance ex_metal_default : @MetalRuntime ex_dtype ex_primitive Z :=
  ex_metal (fun _ _ _ _ => 0%Z).

(** The names the namer gives in [tr], by identity. *)
Definition tr_name_of (i : N) : string :=
  if (i =? 1)%N then "A" else if (i =? 2)%N then "B" else "C".

(** The values at the thread (1, 0, 0) of the buffers of [tr_args]: x[1],
    y[2] and their sum. *)
Definition tr_val (i : N) : Z :=
  if (i =? 1)%N then 1%Z else if (i =? 2)%N then 1%Z else 2%Z.

(** * Properties *)

(** ** Strings *)

Lemma append_nil (s : string) : EmptyString +:+ s = s.
Proof. reflexivity. Qed.

Lemma append_cons (ch : ascii) (a b : string) :
  String ch a +:+ b = String ch (a +:+ b).
Proof. reflexivity. Qed.

Lemma append_nil_r (s : string) : s +:+ EmptyString = s.
Proof.
  induction s as [|ch s IH]; [reflexivity|].
  now rewrite append_cons, IH.
Qed.

Lemma append_assoc (a b c : string) : (a +:+ b) +:+ c = a +:+ (b +:+ c).
Proof.
  induction a as [|ch a IH]; [reflexivity|].
  now rewrite !append_cons, IH.
Qed.

Lemma is_prefix_append (p s : string) : is_prefix p (p +:+ s) = true.
Proof.
  induction p as [|ch p IH]; [reflexivity|].
  rewrite append_cons. simpl. now rewrite Ascii.eqb_refl.
Qed.

Lemma contains_prefix (needle hay : string) :
  is_prefix needle hay = true -> contains needle hay = true.
Proof. intros Hp. destruct hay; simpl; now rewrite Hp. Qed.

Lemma contains_append (needle pre post : string) :
  contains needle (pre +:+ needle +:+ post) = true.
Proof.
  induction pre as [|ch pre IH].
  - rewrite append_nil. apply contains_prefix, is_prefix_append.
  - rewrite append_cons. simpl. rewrite IH. apply orb_true_r.
Qed.

Lemma is_prefix_split (p s : string) :
  is_prefix p s = true -> exists post, s = p +:+ post.
Proof.
  revert s. induction p as [|a p IH]; intros s Hp.
  - now exists s.
  - destruct s as [|b s]; [discriminate Hp|]. simpl in Hp.
    destruct (Ascii.eqb a b) eqn:E; [|discriminate Hp].
    apply Ascii.eqb_eq in E as ->. destruct (IH s Hp) as [post ->].
    now exists post.
Qed.

(** [contains] decides the substring relation. *)
Lemma contains_spec (needle hay : string) :
  contains needle hay = true
  <-> exists pre post, hay = pre +:+ needle +:+ post.
Proof.
  split.
  - induction hay as [|b hay IH]; simpl.
    + rewrite orb_false_r. intros Hp.
      destruct (is_prefix_split _ _ Hp) as [post E]. now exists EmptyString, post.
    + intros [Hp|Hc]%orb_true_iff.
      * destruct (is_prefix_split _ _ Hp) as [post E].
        now exists EmptyString, post.
      * destruct (IH Hc) as (pre & post & ->).
        now exists (String b pre), post.
  - intros (pre & post & ->). apply contains_append.
Qed.

Lemma occurs_append (ch : ascii) (a b : string) :
  occurs ch (a +:+ b) = occurs ch a || occurs ch b.
Proof.
  induction a as [|c a IH]; [reflexivity|].
  rewrite append_cons. simpl. now rewrite IH, orb_assoc.
Qed.

Lemma is_prefix_occurs (ch : ascii) (p s : string) :
  is_prefix p s = true -> occurs ch p = true -> occurs ch s = true.
Proof.
  revert s. induction p as [|a p IH]; intros [|b s]; simpl; try discriminate.
  destruct (Ascii.eqb a b) eqn:E; [|discriminate].
  apply Ascii.eqb_eq in E as ->. intros Hp [Hc|Hc]%orb_true_iff.
  - now rewrite Hc.
  - rewrite (IH _ Hp Hc). apply orb_true_r.
Qed.

Lemma contains_occurs (ch : ascii) (needle hay : string) :
  contains needle hay = true -> occurs ch needle = true ->
  occurs ch hay = true.
Proof.
  induction hay as [|b hay IH]; simpl.
  - rewrite orb_false_r. intros Hp Hc.
    destruct needle; [discriminate Hc | discriminate Hp].
  - intros [Hp|Hp]%orb_true_iff Hc.
    + apply (is_prefix_occurs ch needle (String b hay) Hp Hc).
    + rewrite (IH Hp Hc). apply orb_true_r.
Qed.

Section Facts.

Context {Dtype Primitive NodeNamer : Type}
        {collaborators : @Collaborators Dtype Primitive NodeNamer}.

Local Abbreviation array := (@array Dtype Primitive).
Local Abbreviation param := (@param Dtype Primitive).
Local Abbreviation Compiled := (@Compiled Dtype Primitive).
Local Abbreviation resource := (@resource Dtype Primitive).
Local Abbreviation call := (@call Dtype Primitive).
Local Abbreviation kernel := (@kernel Dtype Primitive).

(** ** The generator *)

Section GeneratorFacts.

Variable constant_ids : gset N.
Variables (contiguous : bool) (ndim_arg : Z) (dynamic_dims : bool).

Local Abbreviation nonconstant :=
  (fun x : array => negb (is_constant constant_ids x)).
Local Abbreviation strided := (reads_through_strides constant_ids contiguous).

Lemma param_inputs_app (ps qs : list param) :
  param_inputs (ps ++ qs) = param_inputs ps ++ param_inputs qs.
Proof. unfold param_inputs. apply omap_app. Qed.

(** The input loop declares one buffer per non-constant input, at
    consecutive slots, and raises [add_indices] iff one of them is read
    through strides. *)
Lemma input_params_spec (xs : list array) :
  forall namer cnt add_indices ps namer' cnt' add_indices',
  input_params constant_ids contiguous xs namer cnt add_indices
  = (ps, namer', cnt', add_indices') ->
  param_inputs ps = List.filter nonconstant xs
  /\ map slot_of ps = seq cnt (length ps)
  /\ length ps = length (List.filter nonconstant xs)
  /\ cnt' = (cnt + length ps)%nat
  /\ add_indices' = add_indices || existsb strided xs.
Proof.
  induction xs as [|x xs IH]; intros namer cnt ai ps namer' cnt' ai' E;
    simpl in E.
  - inversion E; subst. simpl. rewrite orb_false_r, Nat.add_0_r. auto.
  - destruct (get_name namer x) as [xname namer1].
    unfold reads_through_strides at 1. simpl.
    destruct (is_constant constant_ids x) eqn:Hc; simpl.
    + apply IH in E. exact E.
    + destruct (input_params _ _ xs namer1 (S cnt) _)
        as [[[ps1 namer2] cnt2] ai2] eqn:E1.
      inversion E; subst. apply IH in E1 as (Hin & Hslots & Hlen & Hcnt & Hai).
      simpl. rewrite Hin, Hslots, Hlen, Hcnt, Hai.
      repeat split; try reflexivity; try lia.
      destruct (is_scalar x || contiguous), ai; reflexivity.
Qed.

Lemma output_params_spec (xs : list array) :
  forall namer cnt ps namer' cnt',
  output_params xs namer cnt = (ps, namer', cnt') ->
  param_inputs ps = []
  /\ map slot_of ps = seq cnt (length xs)
  /\ length ps = length xs
  /\ cnt' = (cnt + length xs)%nat.
Proof.
  induction xs as [|x xs IH]; intros namer cnt ps namer' cnt' E; simpl in E.
  - inversion E; subst. simpl. auto.
  - destruct (get_name namer x) as [xname namer1].
    destruct (output_params xs namer1 (S cnt)) as [[ps1 namer2] cnt2] eqn:E1.
    inversion E; subst. apply IH in E1 as (Hin & Hslots & Hlen & Hcnt).
    simpl. rewrite Hin, Hslots, Hlen. repeat split; try reflexivity; lia.
Qed.

(** The parameter list of a kernel: consecutive slots from zero, as many
    as the final counter, one input buffer per non-constant input. *)
Lemma gen_kernel_params (kernel_name : string)
    (inputs outputs tape : list array) (use_big_index : bool) :
  let r := gen_kernel constant_ids contiguous ndim_arg dynamic_dims
             kernel_name inputs outputs tape use_big_index in
  snd r = length (k_params (fst r))
  /\ map slot_of (k_params (fst r)) = seq 0 (snd r)
  /\ snd r = bound_resources constant_ids contiguous dynamic_dims
               inputs outputs
  /\ param_inputs (k_params (fst r)) = List.filter nonconstant inputs
  /\ k_name (fst r) = kernel_name.
Proof.
  unfold gen_kernel, bound_resources.
  destruct (input_params _ _ inputs new_namer 0 false)
    as [[[in_ps namer1] cnt1] ai] eqn:Ein.
  apply input_params_spec in Ein as (Hin & Hs1 & Hl1 & Hc1 & Hai).
  simpl in Hc1, Hai. subst cnt1 ai.
  set (stride_ps := if existsb strided inputs
                    then ([PInStrides (length in_ps)], S (length in_ps))
                    else ([], length in_ps)).
  assert (Hst : map slot_of (fst stride_ps)
                = seq (length in_ps) (length (fst stride_ps))
                /\ snd stride_ps = (length in_ps + length (fst stride_ps))%nat
                /\ param_inputs (fst stride_ps) = []
                /\ length (fst stride_ps)
                   = if existsb strided inputs then 1%nat else 0%nat).
  { unfold stride_ps. destruct (existsb strided inputs); simpl;
      repeat split; try reflexivity; lia. }
  destruct stride_ps as [stride_ps cnt2]. simpl in Hst.
  destruct Hst as (Hs2 & Hc2 & Hi2 & Hl2). subst cnt2.
  destruct (output_params outputs namer1 _) as [[out_ps namer2] cnt3] eqn:Eout.
  apply output_params_spec in Eout as (Hi3 & Hs3 & Hl3 & Hc3). subst cnt3.
  set (shape_ps := if negb contiguous
                   then ([POutStrides _; POutShape _], S (S _))
                   else ([], _)).
  assert (Hsh : map slot_of (fst shape_ps)
                = seq (length in_ps + length stride_ps + length outputs)
                      (length (fst shape_ps))
                /\ snd shape_ps
                   = (length in_ps + length stride_ps + length outputs
                      + length (fst shape_ps))%nat
                /\ param_inputs (fst shape_ps) = []
                /\ length (fst shape_ps) = if contiguous then 0%nat else 2%nat).
  { unfold shape_ps. destruct contiguous; simpl;
      repeat split; try reflexivity; lia. }
  destruct shape_ps as [shape_ps cnt4]. simpl in Hsh.
  destruct Hsh as (Hs4 & Hc4 & Hi4 & Hl4). subst cnt4.
  set (ndim_ps := if dynamic_dims then ([PNdim _], S _) else ([], _)).
  assert (Hnd : map slot_of (fst ndim_ps)
                = seq (length in_ps + length stride_ps + length outputs
                       + length shape_ps) (length (fst ndim_ps))
                /\ snd ndim_ps
                   = (length in_ps + length stride_ps + length outputs
                      + length shape_ps + length (fst ndim_ps))%nat
                /\ param_inputs (fst ndim_ps) = []
                /\ length (fst ndim_ps) = if dynamic_dims then 1%nat else 0%nat).
  { unfold ndim_ps. destruct dynamic_dims; simpl;
      repeat split; try reflexivity; lia. }
  destruct ndim_ps as [ndim_ps cnt5]. simpl in Hnd.
  destruct Hnd as (Hs5 & Hc5 & Hi5 & Hl5). subst cnt5.
  destruct (input_loads _ _ _ _ inputs namer2 0) as [loads namer3].
  destruct (tape_stmts tape namer3) as [body namer4].
  destruct (output_stores outputs namer4) as [stores namer5].
  simpl.
  rewrite !length_app, !map_app, !param_inputs_app.
  rewrite Hi2, Hi3, Hi4, Hi5, Hin, !app_nil_r.
  rewrite Hs1, Hs2, Hs3, Hs4, Hs5, Hl3.
  rewrite <- Hl1, <- Hl2, <- Hl4, <- Hl5.
  repeat split; try reflexivity; try lia.
  replace (length in_ps + length stride_ps + length outputs + length shape_ps
           + length ndim_ps)%nat
    with (length in_ps + (length stride_ps + (length outputs
           + (length shape_ps + length ndim_ps))))%nat by lia.
  rewrite !seq_app. simpl.
  repeat f_equal; lia.
Qed.

End GeneratorFacts.

(** [build_kernel] appends the whole kernel and then compares the counter
    with 31. *)
Lemma build_kernel_unfold (constant_ids : gset N) (contiguous : bool)
    (ndim_arg : Z) (dynamic_dims : bool) (os kernel_name : string)
    (inputs outputs tape : list array) (use_big_index : bool) :
  build_kernel constant_ids contiguous ndim_arg dynamic_dims os kernel_name
    inputs outputs tape use_big_index
  = (os +:+ print_kernel
              (fst (gen_kernel constant_ids contiguous ndim_arg dynamic_dims
                      kernel_name inputs outputs tape use_big_index)),
     if (31 <? bound_resources constant_ids contiguous dynamic_dims
                 inputs outputs)%nat
     then Thrown (too_many_arguments kernel_name) else Returned).
Proof.
  unfold build_kernel.
  pose proof (gen_kernel_params constant_ids contiguous ndim_arg dynamic_dims
                kernel_name inputs outputs tape use_big_index)
    as (_ & _ & Hcnt & _).
  destruct (gen_kernel _ _ _ _ _ _ _ _ _) as [k cnt]. simpl in *.
  rewrite Hcnt. now destruct (31 <? _)%nat.
Qed.

Lemma build_variant_unfold (c : Compiled) (lib os : string) (v : variant) :
  build_variant c lib os v
  = (os +:+ print_kernel (fst (variant_kernel c lib v)),
     if (31 <? bound_resources (constant_ids_ c) (v_contiguous v)
                 (v_dynamic_dims v) (inputs_ c) (outputs_ c))%nat
     then Thrown (too_many_arguments (lib +:+ v_suffix v)) else Returned).
Proof. unfold build_variant, variant_kernel. apply build_kernel_unfold. Qed.

(** The message of the overflow names the kernel. *)
Lemma too_many_arguments_names (kernel_name : string) :
  contains kernel_name (too_many_arguments kernel_name) = true.
Proof.
  unfold too_many_arguments. rewrite <- !append_assoc.
  rewrite append_assoc. apply contains_append.
Qed.

(** The last thing written for a kernel is its closing brace. *)
Lemma print_kernel_ends_with_brace (k : kernel) :
  exists body, print_kernel k = body +:+ "}" +:+ endl.
Proof. now exists (print_kernel_open k). Qed.

(** The text of the variants of a library, one after the other. *)
Lemma build_variants_thrown (c : Compiled) (lib : string)
    (vs : list variant) :
  forall os msg,
  snd (build_variants c lib os vs) = Thrown msg ->
  exists done v rest,
    vs = done ++ v :: rest
    /\ msg = too_many_arguments (lib +:+ v_suffix v)
    /\ fst (build_variants c lib os vs)
       = (os +:+ concat_strings
                   (map (fun v => print_kernel (fst (variant_kernel c lib v)))
                        done))
         +:+ print_kernel (fst (variant_kernel c lib v)).
Proof.
  induction vs as [|v vs IH]; intros os msg E; simpl in E; [discriminate|].
  simpl. rewrite build_variant_unfold in *.
  destruct (31 <? _)%nat.
  - simpl in E. inversion E; subst. exists [], v, vs. simpl.
    repeat split. now rewrite append_nil_r.
  - apply IH in E as (done & v' & rest & -> & -> & Hos).
    exists (v :: done), v', rest. repeat split. rewrite Hos. simpl.
    f_equal. unfold concat_strings at 2. simpl. now rewrite append_assoc.
Qed.

Lemma build_variants_overflow (c : Compiled) (lib : string)
    (vs : list variant) (v : variant) :
  In v vs ->
  (31 < bound_resources (constant_ids_ c) (v_contiguous v)
          (v_dynamic_dims v) (inputs_ c) (outputs_ c))%nat ->
  forall os, exists v',
    In v' vs
    /\ snd (build_variants c lib os vs)
       = Thrown (too_many_arguments (lib +:+ v_suffix v')).
Proof.
  induction vs as [|w vs IH]; intros Hin Hb os; [destruct Hin|].
  simpl. rewrite build_variant_unfold.
  destruct (31 <? bound_resources _ (v_contiguous w) _ _ _)%nat eqn:Ew.
  - exists w. split; [now left | reflexivity].
  - destruct Hin as [->|Hin].
    + apply Nat.ltb_lt in Hb. congruence.
    + destruct (IH Hin Hb (os +:+ print_kernel (fst (variant_kernel c lib w))))
        as (v' & Hv' & E).
      exists v'. split; [now right | exact E].
Qed.

(** An exception of the library builder leaves [eval_gpu] before any call
    on the device. *)
Lemma eval_gpu_builder_throws (c : Compiled) (device_libs : gset string)
    (inputs : list array) (out0 : array) (outs : list array) (msg : string) :
  library_name c ∉ device_libs ->
  snd (build_library c (library_name c)) = Thrown msg ->
  eval_gpu c device_libs inputs out0 outs = ([], Thrown msg).
Proof.
  intros Hlib E. unfold eval_gpu, get_library.
  rewrite bool_decide_eq_false_2 by exact Hlib.
  destruct (build_library c (library_name c)) as [src r]. simpl in E.
  now subst r.
Qed.

(** ** The dispatcher *)

Lemma bindings_app (cs ds : list call) :
  bindings (cs ++ ds) = bindings cs ++ bindings ds.
Proof. unfold bindings. apply omap_app. Qed.

Lemma bound_inputs_app (cs ds : list call) :
  bound_inputs (cs ++ ds) = bound_inputs cs ++ bound_inputs ds.
Proof. unfold bound_inputs. apply omap_app. Qed.

Lemma bound_in_strides_app (cs ds : list call) :
  bound_in_strides (cs ++ ds) = bound_in_strides cs ++ bound_in_strides ds.
Proof. unfold bound_in_strides. apply omap_app. Qed.

Lemma bindings_zip_with (f : array -> resource) (xs : list array)
    (slots : list nat) :
  bindings (zip_with (fun x slot => Bind (f x) slot) xs slots)
  = zip (map f xs) slots.
Proof.
  revert slots. induction xs as [|x xs IH]; intros [|s slots]; simpl;
    try reflexivity.
  now rewrite <- IH.
Qed.

Lemma map_fst_zip_seq {A : Type} (l : list A) (start : nat) :
  map fst (zip l (seq start (length l))) = l.
Proof.
  revert start. induction l as [|x l IH]; intros start; simpl;
    [reflexivity | now rewrite IH].
Qed.

Lemma map_snd_zip_seq {A : Type} (l : list A) (start : nat) :
  map snd (zip l (seq start (length l))) = seq start (length l).
Proof.
  revert start. induction l as [|x l IH]; intros start; simpl;
    [reflexivity | now rewrite IH].
Qed.

Lemma length_zip_seq {A : Type} (l : list A) (start : nat) :
  length (zip l (seq start (length l))) = length l.
Proof.
  revert start. induction l as [|x l IH]; intros start; simpl;
    [reflexivity | now rewrite IH].
Qed.

(** The input loop binds the inputs whose traced identity is not a
    constant, at consecutive slots, and appends one collapsed stride row
    per such input that is not a scalar when the call is not contiguous. *)
Lemma bind_inputs_spec (constant_ids : gset N) (a : analysis)
    (xs : list (array * array)) :
  forall cnt stride_idx in_strides calls cnt' in_strides',
  bind_inputs constant_ids a xs cnt stride_idx in_strides
  = (calls, cnt', in_strides') ->
  let ins := nonconstant_inputs constant_ids xs in
  calls = zip_with (fun x slot => Bind (InputBuffer x) slot) ins
            (seq cnt (length ins))
  /\ cnt' = (cnt + length ins)%nat
  /\ in_strides'
     = in_strides
       ++ (if a_contiguous a then []
           else concat (map (fun k : nat => a_strides a !!! (stride_idx + k)%nat)
                          (seq 0 (length (strided_inputs constant_ids xs))))).
Proof.
  unfold strided_inputs, nonconstant_inputs.
  induction xs as [|[x_ x] xs IH];
    intros cnt sidx acc calls cnt' acc' E; simpl in E.
  - inversion E; subst. simpl. rewrite Nat.add_0_r.
    destruct (a_contiguous a); now rewrite app_nil_r.
  - simpl. destruct (is_constant constant_ids x_) eqn:Hc; simpl.
    + now apply IH in E.
    + destruct (negb (a_contiguous a) && negb (is_scalar x)) eqn:Hs.
      * destruct (bind_inputs constant_ids a xs (S cnt) (S sidx) _)
          as [[calls1 cnt1] acc1] eqn:E1.
        inversion E; subst. apply IH in E1 as (-> & -> & ->).
        apply andb_true_iff in Hs as [Ha Hx].
        apply negb_true_iff in Ha. rewrite Ha, Hx. simpl.
        repeat split; try lia.
        rewrite <- app_assoc. f_equal. rewrite Nat.add_0_r. f_equal.
        rewrite <- seq_shift, map_map. f_equal.
        apply map_ext. intros k. f_equal. lia.
      * destruct (bind_inputs constant_ids a xs (S cnt) sidx acc)
          as [[calls1 cnt1] acc1] eqn:E1.
        inversion E; subst. apply IH in E1 as (-> & -> & ->).
        simpl. repeat split; try lia.
        destruct (a_contiguous a); [reflexivity|].
        simpl in Hs. apply negb_false_iff in Hs. now rewrite Hs.
Qed.

Lemma bind_outputs_spec (xs : list array) :
  forall cnt calls cnt',
  bind_outputs xs cnt = (calls, cnt') ->
  calls = zip_with (fun x slot => Bind (OutputBuffer x) slot) xs
            (seq cnt (length xs))
  /\ cnt' = (cnt + length xs)%nat.
Proof.
  induction xs as [|x xs IH]; intros cnt calls cnt' E; simpl in E.
  - inversion E; subst. simpl. split; [reflexivity | lia].
  - destruct (bind_outputs xs (S cnt)) as [calls1 cnt1] eqn:E1.
    inversion E; subst. apply IH in E1 as (-> & ->). simpl.
    split; [reflexivity | lia].
Qed.

(** A contiguous call has no collapsed shape, hence no dynamic rank. *)
Lemma analyze_contiguous (c : Compiled) (inputs : list array) (out0 : array) :
  a_contiguous (analyze c inputs out0)
  = compiled_check_contiguity inputs (shape out0)
  /\ (a_contiguous (analyze c inputs out0) = true ->
      a_shape (analyze c inputs out0) = []
      /\ is_dynamic (analyze c inputs out0) = false).
Proof.
  unfold analyze.
  destruct (compiled_check_contiguity inputs (shape out0)); simpl.
  - split; [reflexivity|]. intros _. split; reflexivity.
  - destruct (collapse_contiguous_dims _ _ _). simpl.
    split; [reflexivity | discriminate].
Qed.

Lemma zip_app_seq {A : Type} (l1 l2 : list A) (start : nat) :
  zip (l1 ++ l2) (seq start (length (l1 ++ l2)))
  = zip l1 (seq start (length l1))
    ++ zip l2 (seq (start + length l1) (length l2)).
Proof.
  revert start. induction l1 as [|x l1 IH]; intros start; simpl.
  - now rewrite Nat.add_0_r.
  - rewrite IH.
    now replace (start + S (length l1))%nat with (S start + length l1)%nat
      by lia.
Qed.

Lemma bind_arguments_bindings (c : Compiled) (a : analysis)
    (inputs outputs : list array) :
  (a_contiguous a = true -> is_dynamic a = false) ->
  (a_contiguous a = false ->
   strided_inputs (constant_ids_ c) (zip (inputs_ c) inputs) <> [] ->
   a_strides a !!! 1%nat <> []) ->
  bindings (bind_arguments c a inputs outputs)
  = zip (binding_order c a inputs outputs)
        (seq 0 (length (binding_order c a inputs outputs))).
Proof.
  intros Hdyn Hrow. unfold bind_arguments, binding_order.
  destruct (bind_inputs _ a _ 0 1 []) as [[in_calls cnt] in_strides] eqn:E.
  apply bind_inputs_spec in E as (-> & -> & ->). simpl.
  set (ins := nonconstant_inputs _ _).
  set (strided := strided_inputs _ _) in *.
  set (data := concat _).
  assert (Hdata : (if a_contiguous a then [] else data) = []
                  /\ negb (a_contiguous a) && negb (bool_decide (strided = []))
                     = false
                  \/ a_contiguous a = false
                     /\ negb (bool_decide (strided = [])) = true
                     /\ exists d ds, data = d :: ds).
  { destruct (a_contiguous a) eqn:Ha; [left; split; reflexivity|].
    destruct strided as [|x strided'] eqn:Es.
    - left. split; reflexivity.
    - right. repeat split.
      specialize (Hrow eq_refl ltac:(discriminate)).
      subst data. simpl.
      destruct (a_strides a !!! 1%nat) as [|d ds]; [congruence|].
      simpl. eauto. }
  destruct Hdata as [[-> ->] | (Ha & -> & d & ds & Hd)].
  - destruct (bind_outputs outputs (length ins)) as [out_calls cnt] eqn:Eo.
    apply bind_outputs_spec in Eo as (-> & ->).
    destruct (a_contiguous a) eqn:Ha; simpl.
    + rewrite (Hdyn eq_refl). simpl.
      repeat (rewrite ?bindings_app, ?bindings_zip_with, ?app_nil_r; simpl).
      rewrite zip_app_seq, !length_map. reflexivity.
    + repeat (rewrite ?bindings_app, ?bindings_zip_with, ?app_nil_r; simpl).
      rewrite zip_app_seq, zip_app_seq, !length_map. simpl.
      repeat f_equal.
      destruct (is_dynamic a); simpl; repeat f_equal; lia.
  - rewrite Ha, Hd. simpl. rewrite <- Hd.
    destruct (bind_outputs outputs (S (length ins))) as [out_calls cnt] eqn:Eo.
    apply bind_outputs_spec in Eo as (-> & ->).
    repeat (rewrite ?bindings_app, ?bindings_zip_with, ?app_nil_r; simpl).
    rewrite zip_app_seq, !length_map. simpl.
    rewrite zip_app_seq, !length_map. simpl.
    repeat f_equal; try lia.
    destruct (is_dynamic a); simpl; repeat f_equal; lia.
Qed.

Lemma get_library_calls (device_libs : gset string) (name : string)
    (builder : string * outcome) :
  let calls : list call := fst (get_library device_libs name builder) in
  bindings calls = [] /\ bound_inputs calls = []
  /\ bound_in_strides calls = [] /\ existsb is_dispatch calls = false.
Proof.
  unfold get_library. destruct (bool_decide _); [now simpl|].
  destruct builder as [src [|msg|]]; now simpl.
Qed.

Lemma launch_calls (kernel_name : string) (a : analysis) (out0 : array) :
  let calls : list call := fst (launch kernel_name a out0) in
  bindings calls = [] /\ bound_inputs calls = []
  /\ bound_in_strides calls = [].
Proof.
  unfold launch. destruct (a_contiguous a); [now simpl|].
  destruct (_ =? 0)%Z; [now simpl|].
  destruct (negb _); now simpl.
Qed.

(** Once the library is there, the trace of [eval_gpu] is the library
    calls, the kernel selection, the bindings and the launch. *)
Lemma eval_gpu_available (c : Compiled) (device_libs : gset string)
    (inputs : list array) (out0 : array) (outs : list array) :
  library_available c device_libs ->
  let a := analyze c inputs out0 in
  let kernel_name := select_kernel_name (library_name c) a in
  eval_gpu c device_libs inputs out0 outs
  = (fst (get_library device_libs (library_name c)
            (build_library c (library_name c)))
     ++ [get_kernel kernel_name; setComputePipelineState kernel_name]
     ++ bind_arguments c a inputs (out0 :: outs)
     ++ fst (launch kernel_name a out0),
     snd (launch kernel_name a out0)).
Proof.
  unfold library_available, eval_gpu. intros Hlib.
  destruct (get_library _ _ _) as [lib_calls r]. simpl in Hlib. subst r.
  simpl. now destruct (launch _ _ _).
Qed.

Lemma eval_gpu_bindings (c : Compiled) (device_libs : gset string)
    (inputs : list array) (out0 : array) (outs : list array) :
  library_available c device_libs ->
  bindings (fst (eval_gpu c device_libs inputs out0 outs))
  = bindings (bind_arguments c (analyze c inputs out0) inputs (out0 :: outs)).
Proof.
  intros Hlib. rewrite eval_gpu_available by exact Hlib. simpl.
  destruct (get_library_calls device_libs (library_name c)
              (build_library c (library_name c))) as (Hb & _).
  destruct (launch_calls
              (select_kernel_name (library_name c) (analyze c inputs out0))
              (analyze c inputs out0) out0) as (Hl & _).
  rewrite bindings_app, Hb. simpl.
  rewrite bindings_app, Hl. now rewrite app_nil_r.
Qed.

(** C8. In every kernel invocation the resources are bound at the slots
    0, 1, 2, ... with none skipped or reused, in the order: the
    non-constant input buffers, the input-stride buffer if the call is not
    contiguous and has a non-scalar non-constant input, the output buffers,
    the output-stride and output-shape buffers when not contiguous, the
    rank scalar when the dynamic variant is selected.  The collapsed
    strides come from [collapse_contiguous_dims]; on the strided path its
    rows have at least one axis (there is no kernel of rank 0), which is
    assumed here of the row of the first such input. *)
Theorem binding_convention (c : Compiled) (device_libs : gset string)
    (inputs : list array) (out0 : array) (outs : list array) :
  let a := analyze c inputs out0 in
  let bound := bindings (fst (eval_gpu c device_libs inputs out0 outs)) in
  library_available c device_libs ->
  (a_contiguous a = false ->
   strided_inputs (constant_ids_ c) (zip (inputs_ c) inputs) <> [] ->
   a_strides a !!! 1%nat <> []) ->
  map fst bound = binding_order c a inputs (out0 :: outs)
  /\ map snd bound = seq 0 (length bound).
Proof.
  intros a bound Hlib Hrow. subst bound.
  rewrite eval_gpu_bindings by exact Hlib. fold a.
  rewrite bind_arguments_bindings.
  - rewrite map_fst_zip_seq, map_snd_zip_seq, length_zip_seq. auto.
  - intros Ha. now apply analyze_contiguous in Ha.
  - exact Hrow.
Qed.

(** The load loop writes one line per input, a literal for each constant,
    and gives the j-th input read through strides the offset
    [(nc_in_count + j) * ndim]. *)
Lemma input_loads_spec (constant_ids : gset N) (contiguous : bool)
    (ndim_arg : Z) (dynamic_dims : bool) (xs : list array) :
  forall namer nc_in_count loads namer',
  input_loads constant_ids contiguous ndim_arg dynamic_dims xs namer
    nc_in_count = (loads, namer') ->
  length loads = length xs
  /\ (forall (i : nat) x, xs !! i = Some x ->
      is_constant constant_ids x = true ->
      exists xname, loads !! i = Some (LoadConstant x xname))
  /\ stride_offsets loads
     = map (fun j : nat => ((nc_in_count + Z.of_nat j) * ndim_arg)%Z)
           (seq 0 (length (List.filter
                             (reads_through_strides constant_ids contiguous)
                             xs))).
Proof.
  induction xs as [|x xs IH]; intros namer nc loads namer' E; simpl in E.
  - inversion E; subst. simpl. repeat split. intros i x Hi. discriminate Hi.
  - destruct (get_name namer x) as [xname namer1].
    unfold reads_through_strides at 1. simpl.
    destruct (is_constant constant_ids x) eqn:Hc;
      [|destruct (is_scalar x) eqn:Hs;
        [|destruct contiguous eqn:Hg;
          [|destruct (negb dynamic_dims) eqn:Hd]]];
      simpl;
      match type of E with
      | context [input_loads _ _ _ _ xs namer1 ?n] =>
          destruct (input_loads constant_ids _ ndim_arg dynamic_dims xs
                      namer1 n) as [ls namer2] eqn:E1
      end;
      inversion E; subst; apply IH in E1 as (Hlen & Hconst & Hoff);
      simpl; rewrite ?Hs; simpl.
    + repeat split; [now rewrite Hlen | | exact Hoff].
      intros [|i] y Hi Hy; simpl in *.
      * inversion Hi; subst. eauto.
      * eauto.
    + repeat split; [now rewrite Hlen | | exact Hoff].
      intros [|i] y Hi Hy; simpl in *; [|eauto].
      inversion Hi; subst. congruence.
    + repeat split; [now rewrite Hlen | | exact Hoff].
      intros [|i] y Hi Hy; simpl in *; [|eauto].
      inversion Hi; subst. congruence.
    + repeat split; [now rewrite Hlen | | ].
      * intros [|i] y Hi Hy; simpl in *; [|eauto].
        inversion Hi; subst. congruence.
      * rewrite Hoff. f_equal; [f_equal; lia|].
        rewrite <- seq_shift, map_map. apply map_ext. intros j. f_equal. lia.
    + repeat split; [now rewrite Hlen | | ].
      * intros [|i] y Hi Hy; simpl in *; [|eauto].
        inversion Hi; subst. congruence.
      * rewrite Hoff. f_equal; [f_equal; lia|].
        rewrite <- seq_shift, map_map. apply map_ext. intros j. f_equal. lia.
Qed.

Lemma gen_kernel_loads (constant_ids : gset N) (contiguous : bool)
    (ndim_arg : Z) (dynamic_dims : bool) (kernel_name : string)
    (inputs outputs tape : list array) (use_big_index : bool) :
  exists namer,
    k_loads (fst (gen_kernel constant_ids contiguous ndim_arg dynamic_dims
                    kernel_name inputs outputs tape use_big_index))
    = fst (input_loads constant_ids contiguous ndim_arg dynamic_dims inputs
             namer 0).
Proof.
  unfold gen_kernel.
  destruct (input_params _ _ inputs new_namer 0 false)
    as [[[in_ps namer1] cnt1] ai].
  destruct (if ai then _ else _) as [stride_ps cnt2].
  destruct (output_params outputs namer1 cnt2) as [[out_ps namer2] cnt3].
  destruct (if negb contiguous then _ else _) as [shape_ps cnt4].
  destruct (if dynamic_dims then _ else _) as [ndim_ps cnt5].
  exists namer2.
  destruct (input_loads _ _ _ _ inputs namer2 0) as [loads namer3].
  destruct (tape_stmts tape namer3) as [body namer4].
  destruct (output_stores outputs namer4) as [stores namer5].
  reflexivity.
Qed.

(** The stride offsets of a generated kernel: the j-th input read through
    strides starts at [j * ndim], with the [ndim] the kernel was generated
    for. *)
Lemma gen_kernel_stride_offsets (constant_ids : gset N) (contiguous : bool)
    (ndim_arg : Z) (dynamic_dims : bool) (kernel_name : string)
    (inputs outputs tape : list array) (use_big_index : bool) :
  stride_offsets
    (k_loads (fst (gen_kernel constant_ids contiguous ndim_arg dynamic_dims
                     kernel_name inputs outputs tape use_big_index)))
  = map (fun j : nat => (Z.of_nat j * ndim_arg)%Z)
        (seq 0 (length (List.filter
                          (reads_through_strides constant_ids contiguous)
                          inputs))).
Proof.
  destruct (gen_kernel_loads constant_ids contiguous ndim_arg dynamic_dims
              kernel_name inputs outputs tape use_big_index) as [namer ->].
  destruct (input_loads _ _ _ _ inputs namer 0) as [loads namer'] eqn:E.
  apply input_loads_spec in E as (_ & _ & Hoff). simpl. rewrite Hoff.
  apply map_ext. intros j. f_equal.
Qed.

(** In the variant generated for the dynamic rank, where [build_kernel] is
    passed [ndim = 0], every load through strides starts at offset 0. *)
Lemma strided_dynamic_offsets (c : Compiled) (lib : string) :
  stride_offsets (k_loads (fst (variant_kernel c lib strided_dynamic)))
  = map (fun _ => 0%Z)
        (List.filter (reads_through_strides (constant_ids_ c) false)
                     (inputs_ c)).
Proof.
  unfold variant_kernel. simpl. rewrite gen_kernel_stride_offsets.
  induction (List.filter _ (inputs_ c)) as [|x l IH]; [reflexivity|].
  simpl. f_equal. rewrite <- seq_shift, map_map.
  rewrite <- IH. apply map_ext. intros j. lia.
Qed.

Lemma input_strides_spec (constant_ids : gset N)
    (output_shape out_strides : list Z) (xs : list (array * array)) :
  input_strides constant_ids output_shape out_strides xs
  = map (broadcast_strides output_shape out_strides)
        (strided_inputs constant_ids xs).
Proof.
  unfold strided_inputs, nonconstant_inputs.
  induction xs as [|[x_ x] xs IH]; simpl; [reflexivity|].
  destruct (is_constant constant_ids x_); simpl; [exact IH|].
  destruct (is_scalar x); simpl; [exact IH | now rewrite IH].
Qed.

Lemma bound_inputs_zip_with (xs : list array) (slots : list nat) :
  length xs = length slots ->
  bound_inputs (zip_with (fun x slot => Bind (InputBuffer x) slot) xs slots)
  = xs.
Proof.
  revert slots. induction xs as [|x xs IH]; intros [|s slots] Hlen;
    simpl in *; try reflexivity; try discriminate.
  f_equal. apply IH. lia.
Qed.

Lemma bound_inputs_outputs (xs : list array) (slots : list nat) :
  bound_inputs (zip_with (fun x slot => Bind (OutputBuffer x) slot) xs slots)
  = [].
Proof.
  revert slots. induction xs as [|x xs IH]; intros [|s slots]; simpl;
    try reflexivity. apply IH.
Qed.

Lemma bound_in_strides_zip_with (f : array -> resource) (xs : list array)
    (slots : list nat) :
  (forall x d, f x <> InStrides d) ->
  bound_in_strides (zip_with (fun x slot => Bind (f x) slot) xs slots) = [].
Proof.
  intros Hf. revert slots.
  induction xs as [|x xs IH]; intros [|s slots]; simpl; try reflexivity.
  specialize (Hf x). destruct (f x); try apply IH. now destruct (Hf data).
Qed.

(** What [bind_arguments] binds as input buffers and as stride buffer. *)
Lemma bind_arguments_inputs (c : Compiled) (a : analysis)
    (inputs outputs : list array) :
  let cs := bind_arguments c a inputs outputs in
  bound_inputs cs = nonconstant_inputs (constant_ids_ c) (zip (inputs_ c) inputs)
  /\ forall d, In d (bound_in_strides cs) ->
       d = concat (map (fun k : nat => a_strides a !!! S k)
                       (seq 0 (length (strided_inputs (constant_ids_ c)
                                         (zip (inputs_ c) inputs))))).
Proof.
  unfold bind_arguments.
  destruct (bind_inputs _ a _ 0 1 []) as [[in_calls cnt] in_strides] eqn:E.
  apply bind_inputs_spec in E as (-> & -> & ->). simpl.
  set (ins := nonconstant_inputs _ _).
  set (data := concat _).
  destruct (match (if a_contiguous a then [] else data) with
            | [] => _ | _ :: _ => _ end) as [stride_calls cnt] eqn:Es.
  destruct (bind_outputs outputs cnt) as [out_calls cnt1] eqn:Eo.
  apply bind_outputs_spec in Eo as (-> & ->).
  assert (Hs : bound_inputs stride_calls = []
               /\ forall d, In d (bound_in_strides stride_calls) -> d = data).
  { destruct (a_contiguous a); simpl in Es.
    - inversion Es; subst. simpl. split; [reflexivity | intros d []].
    - destruct data eqn:Ed; inversion Es; subst; simpl.
      + split; [reflexivity | intros d []].
      + split; [reflexivity | intros d [<-|[]]; reflexivity]. }
  destruct Hs as [Hs1 Hs2]. clear Es.
  destruct (negb (a_contiguous a)), (is_dynamic a); simpl;
    rewrite !bound_inputs_app, !bound_in_strides_app, Hs1;
    (rewrite bound_inputs_zip_with by now rewrite length_seq);
    (rewrite (bound_in_strides_zip_with InputBuffer) by discriminate);
    simpl; rewrite !bound_inputs_app, !bound_in_strides_app;
    rewrite bound_inputs_outputs;
    (rewrite (bound_in_strides_zip_with OutputBuffer) by discriminate);
    simpl; rewrite !app_nil_r; (split; [reflexivity|]);
    intros d Hd; apply Hs2; exact Hd.
Qed.
Lemma classic_available (c : Compiled) (device_libs : gset string) :
  library_available c device_libs \/ ~ library_available c device_libs.
Proof.
  unfold library_available.
  destruct (snd (get_library _ _ _)); [now left | now right | now right].
Qed.

Lemma eval_gpu_bound (c : Compiled) (device_libs : gset string)
    (inputs : list array) (out0 : array) (outs : list array) :
  let trace := fst (eval_gpu c device_libs inputs out0 outs) in
  let cs := bind_arguments c (analyze c inputs out0) inputs (out0 :: outs) in
  (library_available c device_libs ->
   bound_inputs trace = bound_inputs cs
   /\ bound_in_strides trace = bound_in_strides cs)
  /\ (~ library_available c device_libs ->
      bound_inputs trace = [] /\ bound_in_strides trace = []).
Proof.
  split.
  - intros Hlib. rewrite eval_gpu_available by exact Hlib. simpl.
    destruct (get_library_calls device_libs (library_name c)
                (build_library c (library_name c))) as (_ & Hi & Hs & _).
    destruct (launch_calls
                (select_kernel_name (library_name c) (analyze c inputs out0))
                (analyze c inputs out0) out0) as (_ & Hli & Hls).
    rewrite bound_inputs_app, bound_in_strides_app, Hi, Hs. simpl.
    rewrite bound_inputs_app, bound_in_strides_app, Hli, Hls.
    now rewrite !app_nil_r.
  - unfold library_available, eval_gpu. intros Hlib.
    pose proof (get_library_calls device_libs (library_name c)
                  (build_library c (library_name c))) as (_ & Hi & Hs & _).
    destruct (get_library _ _ _) as [lib_calls [|msg|]]; simpl in *.
    + now destruct Hlib.
    + auto.
    + auto.
Qed.

(** C9. An input whose identity is in the constant set has no buffer
    parameter in any generated kernel, is not bound at dispatch, and has no
    row among the stride rows; its load line is the literal
    [static_cast<type>(value)]. *)
Theorem constants_are_inlined (c : Compiled) (device_libs : gset string)
    (inputs : list array) (out0 : array) (outs : list array) (v : variant) :
  let consts := constant_ids_ c in
  let k := fst (variant_kernel c (library_name c) v) in
  let xs := zip (inputs_ c) inputs in
  let a := analyze c inputs out0 in
  let trace := fst (eval_gpu c device_libs inputs out0 outs) in
  param_inputs (k_params k)
  = List.filter (fun x => negb (is_constant consts x)) (inputs_ c)
  /\ (forall (i : nat) x, inputs_ c !! i = Some x ->
      is_constant consts x = true ->
      exists xname,
        k_loads k !! i = Some (LoadConstant x xname)
        /\ print_load (LoadConstant x xname)
           = "  auto tmp_" +:+ xname +:+ " = static_cast<"
             +:+ get_type_string (dtype x) +:+ ">(" +:+ print_constant x
             +:+ ");" +:+ endl)
  /\ (forall x, In x (bound_inputs trace) -> In x (nonconstant_inputs consts xs))
  /\ (library_available c device_libs ->
      bound_inputs trace = nonconstant_inputs consts xs)
  /\ input_strides consts (shape out0) (strides out0) xs
     = map (broadcast_strides (shape out0) (strides out0))
           (strided_inputs consts xs)
  /\ (forall d, In d (bound_in_strides trace) ->
      d = concat (map (fun j : nat => a_strides a !!! S j)
                      (seq 0 (length (strided_inputs consts xs))))).
Proof.
  intros consts k xs a trace. subst a.
  pose proof (eval_gpu_bound c device_libs inputs out0 outs) as [Hav Hno].
  pose proof (bind_arguments_inputs c (analyze c inputs out0) inputs
                (out0 :: outs)) as [Hin Hst].
  fold trace in Hav, Hno.
  repeat split.
  - unfold k, variant_kernel. apply gen_kernel_params.
  - intros i x Hi Hx. unfold k, variant_kernel.
    destruct (gen_kernel_loads (constant_ids_ c) (v_contiguous v) (v_ndim v)
                (v_dynamic_dims v) (library_name c +:+ v_suffix v)
                (inputs_ c) (outputs_ c) (tape_ c) (v_use_big_index v))
      as [namer ->].
    destruct (input_loads _ _ _ _ (inputs_ c) namer 0) as [ls namer'] eqn:E.
    apply input_loads_spec in E as (_ & Hconst & _).
    destruct (Hconst i x Hi Hx) as [xname Hl]. exists xname. auto.
  - intros x Hx.
    destruct (classic_available c device_libs) as [Hlib|Hlib].
    + destruct (Hav Hlib) as [E _]. rewrite E, Hin in Hx. exact Hx.
    + destruct (Hno Hlib) as [E _]. rewrite E in Hx. destruct Hx.
  - intros Hlib. destruct (Hav Hlib) as [E _]. now rewrite E.
  - apply input_strides_spec.
  - intros d Hd.
    destruct (classic_available c device_libs) as [Hlib|Hlib].
    + destruct (Hav Hlib) as [_ E]. rewrite E in Hd. now apply Hst.
    + destruct (Hno Hlib) as [_ E]. rewrite E in Hd. destruct Hd.
Qed.

Lemma max_size_exceeds (inputs : list array) (m0 bound : Z) :
  (bound < fold_left (fun m x => Z.max m (data_size x)) inputs m0)%Z
  <-> (bound < m0)%Z \/ exists x, In x inputs /\ (bound < data_size x)%Z.
Proof.
  revert m0. induction inputs as [|x xs IH]; intros m0; simpl.
  - split; [now left | intros [H|(x & [] & _)]; exact H].
  - rewrite IH. split.
    + intros [H|(y & Hy & H)].
      * destruct (Z.max_spec m0 (data_size x)) as [[_ E]|[_ E]];
          rewrite E in H; [right; exists x | left]; auto.
      * right. exists y. auto.
    + intros [H|(y & [->|Hy] & H)].
      * left. lia.
      * left. lia.
      * right. exists y. auto.
Qed.

(** C4. The variant name is a function of the analysis: contiguous, with
    "_big" iff some input has more than UINT32_MAX elements; otherwise
    strided_N for a collapsed rank N from 1 to 7 and strided_dynamic from
    rank 8 on.  Each of these names one of the generated variants. *)
Theorem variant_selection (c : Compiled) (inputs : list array)
    (out0 : array) :
  let a := analyze c inputs out0 in
  let lib := library_name c in
  let name := select_kernel_name lib a in
  (a_use_2d a = true <->
   a_contiguous a = true
   /\ exists x, In x inputs /\ (UINT32_MAX < data_size x)%Z)
  /\ (a_contiguous a = true ->
      (forall x, In x inputs -> (data_size x <= UINT32_MAX)%Z) ->
      name = lib +:+ "_contiguous")
  /\ (a_contiguous a = true ->
      (exists x, In x inputs /\ (UINT32_MAX < data_size x)%Z) ->
      name = lib +:+ "_contiguous_big")
  /\ (a_contiguous a = false ->
      forall n : nat, (1 <= n <= 7)%nat -> length (a_shape a) = n ->
      name = lib +:+ "_strided_" +:+ pretty n)
  /\ (a_contiguous a = false -> (8 <= length (a_shape a))%nat ->
      name = lib +:+ "_strided_dynamic")
  /\ (a_contiguous a = true \/ (1 <= length (a_shape a))%nat ->
      exists v, In v library_variants /\ name = lib +:+ v_suffix v).
Proof.
  intros a lib name.
  assert (H2d : a_use_2d a = true <->
                a_contiguous a = true
                /\ exists x, In x inputs /\ (UINT32_MAX < data_size x)%Z).
  { subst a. unfold analyze.
    destruct (compiled_check_contiguity inputs (shape out0)); simpl.
    - rewrite Z.ltb_lt, max_size_exceeds. unfold UINT32_MAX. split.
      + intros [H|H]; [lia | auto].
      + intros [_ H]. now right.
    - destruct (collapse_contiguous_dims _ _ _). simpl.
      split; [discriminate | intros [H _]; discriminate H]. }
  assert (Hsmall : a_contiguous a = true ->
                   (forall x, In x inputs -> (data_size x <= UINT32_MAX)%Z) ->
                   name = lib +:+ "_contiguous").
  { intros Ha Hall. subst name. unfold select_kernel_name. rewrite Ha. simpl.
    destruct H2d as [H2d1 _].
    destruct (a_use_2d a); [|reflexivity].
    destruct (H2d1 eq_refl) as (_ & x & Hx & Hgt). specialize (Hall x Hx).
    lia. }
  assert (Hbig : a_contiguous a = true ->
                 (exists x, In x inputs /\ (UINT32_MAX < data_size x)%Z) ->
                 name = lib +:+ "_contiguous_big").
  { intros Ha Hex. subst name. unfold select_kernel_name. rewrite Ha. simpl.
    destruct H2d as [_ H2d2].
    destruct (a_use_2d a).
    - now rewrite append_assoc.
    - discriminate (H2d2 (conj Ha Hex)). }
  assert (Hstatic : a_contiguous a = false ->
                    forall n : nat, (1 <= n <= 7)%nat ->
                    length (a_shape a) = n ->
                    name = lib +:+ "_strided_" +:+ pretty n).
  { intros Ha n Hn Hlen. subst name. unfold select_kernel_name, is_dynamic.
    rewrite Ha, Hlen. cbn [negb].
    destruct (8 <=? n)%nat eqn:E; [apply Nat.leb_le in E; lia|].
    now rewrite append_assoc. }
  assert (Hdyn : a_contiguous a = false -> (8 <= length (a_shape a))%nat ->
                 name = lib +:+ "_strided_dynamic").
  { intros Ha Hlen. subst name. unfold select_kernel_name, is_dynamic.
    rewrite Ha. cbn [negb]. apply Nat.leb_le in Hlen. rewrite Hlen.
    now rewrite append_assoc. }
  split; [exact H2d|]. split; [exact Hsmall|]. split; [exact Hbig|].
  split; [exact Hstatic|]. split; [exact Hdyn|].
  intros Hcase.
  destruct (a_contiguous a) eqn:Ha.
  - destruct (Bool.bool_dec (a_use_2d a) true) as [E|E].
    + exists (mk_variant "_contiguous_big" true 0 false true).
      split; [vm_compute; tauto|]. apply Hbig; [reflexivity|].
      now apply H2d.
    + exists (mk_variant "_contiguous" true 0 false false).
      split; [vm_compute; tauto|]. subst name. unfold select_kernel_name.
      rewrite Ha. simpl. now destruct (a_use_2d a).
  - destruct Hcase as [Hcase|Hcase]; [discriminate|].
    destruct (le_lt_dec 8 (length (a_shape a))) as [Hge|Hlt].
    + exists strided_dynamic. split; [vm_compute; tauto|]. now apply Hdyn.
    + exists (mk_variant ("_strided_" +:+ pretty (Z.of_nat (length (a_shape a))))
                false (Z.of_nat (length (a_shape a))) false false).
      rewrite (Hstatic eq_refl (length (a_shape a)) ltac:(lia) eq_refl).
      split; [|simpl].
      * unfold library_variants. apply in_app_iff. right.
        apply in_app_iff. left. apply in_map_iff.
        exists (Z.of_nat (length (a_shape a))). split; [reflexivity|].
        destruct (length (a_shape a)) as [|[|[|[|[|[|[|[|n]]]]]]]];
          try lia; vm_compute; tauto.
      * destruct (length (a_shape a)) as [|[|[|[|[|[|[|[|n]]]]]]]];
          try lia; reflexivity.
Qed.
Lemma lookup_total_map_seq (f : nat -> Z) (start n i : nat) :
  (i < n)%nat -> map f (seq start n) !!! i = f (start + i)%nat.
Proof.
  revert start i. induction n as [|n IH]; intros start [|i] Hi; simpl;
    try lia.
  - now rewrite Nat.add_0_r.
  - rewrite IH by lia. f_equal. lia.
Qed.

(** The stride row of one input, axis by axis. *)
Lemma broadcast_strides_lookup (output_shape out_strides : list Z)
    (x : array) :
  let row := broadcast_strides output_shape out_strides x in
  let lead := (length output_shape - ndim x)%nat in
  length row = (lead + ndim x)%nat
  /\ (forall j : nat, (j < lead)%nat ->
      row !!! j =
      if (output_shape !!! j =? 1)%Z then out_strides !!! j else 0%Z)
  /\ (forall i : nat, (i < ndim x)%nat ->
      let j := (lead + i)%nat in
      row !!! j =
      if (shape x !!! i =? 1)%Z then
        if (output_shape !!! j =? 1)%Z then out_strides !!! j else 0%Z
      else strides x !!! i).
Proof.
  intros row lead. subst row. unfold broadcast_strides. fold lead.
  split; [|split].
  - now rewrite length_app, !length_map, !length_seq.
  - intros j Hj. rewrite lookup_total_app_l
      by now rewrite length_map, length_seq.
    now rewrite lookup_total_map_seq.
  - intros i Hi. cbv zeta. rewrite lookup_total_app_r
      by (rewrite length_map, length_seq; lia).
    rewrite length_map, length_seq.
    replace (lead + i - lead)%nat with i by lia.
    now rewrite lookup_total_map_seq.
Qed.

(** C3, as amended.  The rows the analyzer computes are those of the
    non-constant, non-scalar inputs, and for such an input with no more
    axes than the output: a leading output axis without input axis gets
    stride 0 unless its size is 1, when it gets the output's stride; an
    aligned axis gets stride 0 when the input's size is 1 and the output's
    size is not 1, the output's stride when both sizes are 1, and the
    input's own stride otherwise. *)
Theorem broadcast_strides_rule (c : Compiled) (inputs : list array)
    (out0 : array) (x : array) :
  let output_shape := shape out0 in
  let out_strides := strides out0 in
  let xs := zip (inputs_ c) inputs in
  let row := broadcast_strides output_shape out_strides x in
  let lead := (length output_shape - ndim x)%nat in
  (ndim x <= length output_shape)%nat ->
  input_strides (constant_ids_ c) output_shape out_strides xs
  = map (broadcast_strides output_shape out_strides)
        (strided_inputs (constant_ids_ c) xs)
  /\ length row = length output_shape
  /\ (forall j : nat, (j < lead)%nat ->
      row !!! j =
      if (output_shape !!! j =? 1)%Z then out_strides !!! j else 0%Z)
  /\ (forall i : nat, (i < ndim x)%nat ->
      let j := (lead + i)%nat in
      row !!! j =
      if (shape x !!! i =? 1)%Z && negb (output_shape !!! j =? 1)%Z then 0%Z
      else if (shape x !!! i =? 1)%Z && (output_shape !!! j =? 1)%Z
           then out_strides !!! j
           else strides x !!! i).
Proof.
  intros output_shape out_strides xs row lead Hrank.
  destruct (broadcast_strides_lookup output_shape out_strides x)
    as (Hlen & Hlead & Haligned).
  split; [apply input_strides_spec|].
  split; [subst row lead; lia|].
  split; [exact Hlead|].
  cbv zeta in Haligned.
  intros i Hi. cbv zeta. subst row lead. rewrite (Haligned i Hi).
  destruct (shape x !!! i =? 1)%Z,
           (output_shape !!! (length output_shape - ndim x + i)%nat =? 1)%Z;
    reflexivity.
Qed.

(** Where no output axis is empty the rule holds as the specification
    words it. *)
Lemma broadcast_rule_nonempty (output_shape out_strides : list Z)
    (x : array) :
  Forall (fun d => (1 <= d)%Z) output_shape ->
  (ndim x <= length output_shape)%nat ->
  broadcast_rule_as_stated output_shape out_strides x.
Proof.
  intros Hpos Hrank. unfold broadcast_rule_as_stated.
  destruct (broadcast_strides_lookup output_shape out_strides x)
    as (Hlen & Hlead & Haligned).
  split; [exact Hlead|]. cbv zeta in Haligned.
  intros i Hi. cbv zeta. rewrite (Haligned i Hi).
  set (j := (length output_shape - ndim x + i)%nat).
  assert (Hj : (1 <= output_shape !!! j)%Z).
  { assert (Hlt : (j < length output_shape)%nat) by (unfold j, ndim in *; lia).
    destruct (lookup_lt_is_Some_2 output_shape j Hlt) as [d Hd].
    rewrite (list_lookup_total_correct _ _ _ Hd).
    rewrite Forall_lookup in Hpos. exact (Hpos j d Hd). }
  destruct (shape x !!! i =? 1)%Z; [|reflexivity]. simpl.
  destruct (output_shape !!! j =? 1)%Z eqn:E1.
  - apply Z.eqb_eq in E1. rewrite E1. reflexivity.
  - apply Z.eqb_neq in E1.
    destruct (1 <? output_shape !!! j)%Z eqn:E2; [reflexivity|].
    apply Z.ltb_ge in E2. lia.
Qed.
Lemma no_dispatch_zip_with (f : array -> resource) (xs : list array)
    (slots : list nat) :
  existsb is_dispatch (zip_with (fun x slot => Bind (f x) slot) xs slots)
  = false.
Proof.
  revert slots. induction xs as [|x xs IH]; intros [|s slots]; simpl;
    try reflexivity. apply IH.
Qed.

(** Binding arguments submits nothing. *)
Lemma bind_arguments_no_dispatch (c : Compiled) (a : analysis)
    (inputs outputs : list array) :
  existsb is_dispatch (bind_arguments c a inputs outputs) = false.
Proof.
  unfold bind_arguments.
  destruct (bind_inputs _ a _ 0 1 []) as [[in_calls cnt] in_strides] eqn:E.
  apply bind_inputs_spec in E as (-> & -> & ->).
  destruct (match _ with [] => _ | _ :: _ => _ end)
    as [stride_calls cnt] eqn:Es.
  assert (Hs : existsb is_dispatch stride_calls = false).
  { destruct ([] ++ _); inversion Es; reflexivity. }
  destruct (bind_outputs outputs cnt) as [out_calls cnt1] eqn:Eo.
  apply bind_outputs_spec in Eo as (-> & ->).
  destruct (negb (a_contiguous a)), (is_dynamic a); simpl;
    rewrite !existsb_app, Hs, !no_dispatch_zip_with; simpl;
    rewrite !existsb_app, !no_dispatch_zip_with; reflexivity.
Qed.

(** The name of a strided variant contains an underscore; the message of
    the threadgroup exception does not. *)
Lemma must_use_1024_names_no_variant (lib suffix stem : string) :
  occurs "_" stem = true ->
  contains ((lib +:+ stem) +:+ suffix) must_use_1024 = false.
Proof.
  intros Hstem.
  destruct (contains _ must_use_1024) eqn:E; [|reflexivity].
  apply (contains_occurs "_") in E.
  - vm_compute in E. discriminate E.
  - rewrite !occurs_append, Hstem. now rewrite orb_true_r.
Qed.

(** C7, as amended.  On a strided dispatch in which the product of the
    last two collapsed axes, the divisor of the launch geometry, is not
    zero: if the kernel reports a maximum of threads per group other than
    1024, [eval_gpu] throws the fixed message "[Metal::binary] Must use
    1024 sized block", which does not name the kernel, and submits no
    dispatch; with 1024 no failure is raised and the call returns. *)
Theorem threadgroup_check (c : Compiled) (device_libs : gset string)
    (inputs : list array) (out0 : array) (outs : list array) :
  let a := analyze c inputs out0 in
  let kernel_name := select_kernel_name (library_name c) a in
  let g := strided_grid (a_shape a) in
  let r := eval_gpu c device_libs inputs out0 outs in
  library_available c device_libs ->
  a_contiguous a = false ->
  size_t_mul (u_x g) (u_y g) <> 0%Z ->
  (maxTotalThreadsPerThreadgroup kernel_name <> 1024%Z ->
   snd r = Thrown must_use_1024
   /\ existsb is_dispatch (fst r) = false
   /\ contains kernel_name must_use_1024 = false)
  /\ (maxTotalThreadsPerThreadgroup kernel_name = 1024%Z ->
      snd r = Returned).
Proof.
  intros a kernel_name g r Hlib Ha Hdiv. subst r.
  rewrite eval_gpu_available by exact Hlib. fold a kernel_name. simpl.
  destruct (get_library_calls device_libs (library_name c)
              (build_library c (library_name c))) as (_ & _ & _ & Hnd).
  rewrite !existsb_app, Hnd. simpl.
  rewrite !existsb_app, bind_arguments_no_dispatch. simpl.
  unfold launch. rewrite Ha.
  subst g. unfold strided_grid in Hdiv. cbn [u_x u_y] in Hdiv.
  apply Z.eqb_neq in Hdiv. rewrite Hdiv.
  split.
  - intros Hne. apply Z.eqb_neq in Hne. rewrite Hne. simpl.
    repeat split.
    subst kernel_name. unfold select_kernel_name. rewrite Ha. cbn [negb].
    destruct (is_dynamic a); now apply must_use_1024_names_no_variant.
  - intros Heq. apply Z.eqb_eq in Heq. rewrite Heq. reflexivity.
Qed.
(** C6. Generating a variant throws iff the resources its kernel needs
    bound (input buffers, stride and shape buffers, output buffers, rank
    scalar) number more than 31; the message names the kernel; with 31 or
    fewer the call returns.  When a variant of the library overflows and
    the library is not cached, [eval_gpu] throws before any call on the
    device: nothing is compiled and nothing is dispatched. *)
Theorem argument_overflow (c : Compiled) (os : string) (v : variant) :
  let lib := library_name c in
  let kernel_name := lib +:+ v_suffix v in
  let bound :=
    bound_resources (constant_ids_ c) (v_contiguous v) (v_dynamic_dims v)
      (inputs_ c) (outputs_ c) in
  length (k_params (fst (variant_kernel c lib v))) = bound
  /\ ((exists msg, snd (build_variant c lib os v) = Thrown msg)
      <-> (31 < bound)%nat)
  /\ (forall msg, snd (build_variant c lib os v) = Thrown msg ->
      msg = too_many_arguments kernel_name
      /\ contains kernel_name msg = true)
  /\ (snd (build_variant c lib os v) = Returned <-> (bound <= 31)%nat)
  /\ (In v library_variants -> (31 < bound)%nat ->
      forall device_libs inputs out0 outs,
        lib ∉ device_libs ->
        exists msg,
          eval_gpu c device_libs inputs out0 outs = ([], Thrown msg)).
Proof.
  intros lib kernel_name bound.
  pose proof (gen_kernel_params (constant_ids_ c) (v_contiguous v) (v_ndim v)
                (v_dynamic_dims v) kernel_name (inputs_ c) (outputs_ c)
                (tape_ c) (v_use_big_index v)) as (Hlen & _ & Hcnt & _).
  split.
  { unfold variant_kernel. subst bound lib kernel_name.
    rewrite <- Hlen. exact Hcnt. }
  rewrite build_variant_unfold. fold bound kernel_name. simpl.
  destruct (31 <? bound)%nat eqn:E.
  - apply Nat.ltb_lt in E.
    split; [split; [intros _; exact E | intros _; eauto]|].
    split.
    { intros msg Hm. inversion Hm. split; [reflexivity|].
      apply too_many_arguments_names. }
    split; [split; [discriminate | lia]|].
    intros Hv _ device_libs inputs out0 outs Hlib.
    destruct (build_variants_overflow c lib library_variants v Hv E
                metal_preamble) as (v' & _ & Hthrown).
    eexists. apply eval_gpu_builder_throws; [exact Hlib | exact Hthrown].
  - apply Nat.ltb_ge in E.
    split; [split; [intros [msg Hm]; discriminate Hm | lia]|].
    split; [intros msg Hm; discriminate Hm|].
    split; [split; [intros _; exact E | reflexivity]|].
    intros _ Hb. lia.
Qed.

(** C10. When building the variants of a library throws, the stream holds
    what it held before, then the complete text of every variant built
    before the failing one, then the complete text of the failing kernel,
    whose last line is the closing brace. *)
Theorem overflow_after_emission (c : Compiled) (lib os : string)
    (vs : list variant) (msg : string) :
  snd (build_variants c lib os vs) = Thrown msg ->
  exists done v rest,
    vs = done ++ v :: rest
    /\ msg = too_many_arguments (lib +:+ v_suffix v)
    /\ fst (build_variants c lib os vs)
       = (os +:+ concat_strings
                   (map (fun w => print_kernel (fst (variant_kernel c lib w)))
                        done))
         +:+ print_kernel (fst (variant_kernel c lib v))
    /\ print_kernel (fst (variant_kernel c lib v))
       = print_kernel_open (fst (variant_kernel c lib v)) +:+ "}" +:+ endl.
Proof.
  intros E. apply build_variants_thrown in E as (done & v & rest & H1 & H2 & H3).
  exists done, v, rest. repeat split; assumption.
Qed.
(** ** Executing the variants *)

Section ExecutionFacts.

Context {V : Type} {metal : @MetalRuntime Dtype Primitive V}.

(** The index flag and the name change nothing else in a kernel. *)
Lemma gen_kernel_index_flag (constant_ids : gset N) (contiguous : bool)
    (ndim_arg : Z) (dynamic_dims : bool) (name1 name2 : string)
    (inputs outputs tape : list array) (big1 big2 : bool) :
  let k1 := fst (gen_kernel constant_ids contiguous ndim_arg dynamic_dims
                   name1 inputs outputs tape big1) in
  let k2 := fst (gen_kernel constant_ids contiguous ndim_arg dynamic_dims
                   name2 inputs outputs tape big2) in
  k_params k1 = k_params k2 /\ k_axes k1 = k_axes k2
  /\ k_loads k1 = k_loads k2 /\ k_tape k1 = k_tape k2
  /\ k_stores k1 = k_stores k2.
Proof.
  unfold gen_kernel.
  destruct (input_params _ _ inputs new_namer 0 false)
    as [[[in_ps namer1] cnt1] ai].
  destruct (if ai then _ else _) as [stride_ps cnt2].
  destruct (output_params outputs namer1 cnt2) as [[out_ps namer2] cnt3].
  destruct (if negb contiguous then _ else _) as [shape_ps cnt4].
  destruct (if dynamic_dims then _ else _) as [ndim_ps cnt5].
  destruct (input_loads _ _ _ _ inputs namer2 0) as [loads namer3].
  destruct (tape_stmts tape namer3) as [body namer4].
  destruct (output_stores outputs namer4) as [stores namer5].
  simpl. auto.
Qed.

(** Within the 32-bit range the two index computations agree. *)
Lemma eval_index_agree (pos grid : uint3) :
  u_z pos = 0%Z ->
  (0 <= u_x pos + u_x grid * u_y pos < 2 ^ 32)%Z ->
  eval_index pos grid false = eval_index pos grid true.
Proof.
  intros Hz Hrange. unfold eval_index, to_uint, to_size_t.
  rewrite Hz, Z.mul_0_r, Z.add_0_r.
  rewrite !Z.mod_small; [reflexivity | lia | lia].
Qed.

(** The contiguous and the contiguous_big kernel write the same values to
    the same elements wherever the linear index fits 32 bits. *)
Lemma contiguous_variants_agree (c : Compiled) (lib : string)
    (args : kernel_args V) (pos grid : uint3) :
  u_z pos = 0%Z ->
  (0 <= u_x pos + u_x grid * u_y pos < 2 ^ 32)%Z ->
  exec_thread args pos grid (fst (variant_kernel c lib contiguous_narrow))
  = exec_thread args pos grid (fst (variant_kernel c lib contiguous_big)).
Proof.
  intros Hz Hrange. unfold variant_kernel. simpl.
  pose proof (gen_kernel_index_flag (constant_ids_ c) true 0 false
                (lib +:+ "_contiguous") (lib +:+ "_contiguous_big")
                (inputs_ c) (outputs_ c) (tape_ c) false true)
    as (_ & Hax & Hld & Htp & Hst).
  unfold exec_thread.
  assert (Hb1 : k_big_index (fst (gen_kernel (constant_ids_ c) true 0 false
                  (lib +:+ "_contiguous") (inputs_ c) (outputs_ c) (tape_ c)
                  false)) = false).
  { unfold gen_kernel.
    repeat match goal with
           | |- context [let '(_, _) := ?e in _] => destruct e
           end. reflexivity. }
  assert (Hb2 : k_big_index (fst (gen_kernel (constant_ids_ c) true 0 false
                  (lib +:+ "_contiguous_big") (inputs_ c) (outputs_ c)
                  (tape_ c) true)) = true).
  { unfold gen_kernel.
    repeat match goal with
           | |- context [let '(_, _) := ?e in _] => destruct e
           end. reflexivity. }
  cbv zeta in Hax, Hld, Htp, Hst.
  rewrite Hb1, Hb2, Hax, Hld, Htp, Hst.
  now rewrite (eval_index_agree pos grid Hz Hrange).
Qed.

End ExecutionFacts.

End Facts.

(** ** The scenarios of the specification *)

(** Scenario A selects the contiguous variant, binds two input buffers and
    one output buffer, and launches 1000 threads. *)
Example scenario_A :
  eval_gpu scA {[ "lib" ]} [scA_x; scA_y; scA_two] scA_z []
  = ([get_kernel "lib_contiguous"; setComputePipelineState "lib_contiguous";
      Bind (InputBuffer scA_x) 0; Bind (InputBuffer scA_y) 1;
      allocate_outputs; Bind (OutputBuffer scA_z) 2;
      dispatchThreads (1000, 1, 1)%Z (1000, 1, 1)%Z], Returned).
Proof. vm_compute. reflexivity. Qed.

(** The source text of its contiguous kernel; the constant is a literal. *)
Example scenario_A_source :
  build_kernel {[ 3%N ]} true 0 false EmptyString "lib_contiguous"
    [scA_x; scA_y; scA_two] [scA_z] [scA_sum; scA_z] false
  = (concat_strings
       (map (fun line => line +:+ endl)
          [ "[[host_name(" +:+ dquote +:+ "lib_contiguous" +:+ dquote +:+ ")]]";
            "[[kernel]] void lib_contiguous(";
            "    device const float* A [[buffer(0)]],";
            "    device const float* B [[buffer(1)]],";
            "    device float* D [[buffer(2)]],";
            "    uint3 pos [[thread_position_in_grid]],";
            "    uint3 grid [[threads_per_grid]]) {";
            "  uint index = pos.x + grid.x * (pos.y + grid.y * pos.z);";
            "  float tmp_A = A[index];";
            "  float tmp_B = B[index];";
            "  auto tmp_C = static_cast<float>(2);";
            "  float tmp_E = Add()(tmp_A, tmp_B);";
            "  float tmp_D = Multiply()(tmp_E, tmp_C);";
            "  D[index] = tmp_D;";
            "}" ]),
     Returned).
Proof. vm_compute. reflexivity. Qed.

(** The source text of the strided_2 and strided_dynamic kernels of x + y. *)
Example strided_2_source :
  print_kernel (fst (variant_kernel tr "lib" (strided_static 2)))
  = concat_strings
      (map (fun line => line +:+ endl)
         [ "[[host_name(" +:+ dquote +:+ "lib_strided_2" +:+ dquote +:+ ")]]";
           "[[kernel]] void lib_strided_2(";
           "    device const float* A [[buffer(0)]],";
           "    device const float* B [[buffer(1)]],";
           "    constant const size_t* in_strides [[buffer(2)]],";
           "    device float* C [[buffer(3)]],";
           "    constant const size_t* output_strides [[buffer(4)]],";
           "    constant const int* output_shape [[buffer(5)]],";
           "    uint3 pos [[thread_position_in_grid]],";
           "    uint3 grid [[threads_per_grid]]) {";
           "  uint index = pos.x + grid.x * (pos.y + grid.y * pos.z);";
           "  uint index_0 = pos.y;";
           "  uint index_1 = pos.x;";
           "  float tmp_A = A[index_0 * in_strides[0] + index_1 * in_strides[1]];";
           "  float tmp_B = B[index_0 * in_strides[2] + index_1 * in_strides[3]];";
           "  float tmp_C = Add()(tmp_A, tmp_B);";
           "  C[index] = tmp_C;";
           "}" ]).
Proof. vm_compute. reflexivity. Qed.

Example strided_dynamic_source :
  print_kernel (fst (variant_kernel tr "lib" strided_dynamic))
  = concat_strings
      (map (fun line => line +:+ endl)
         [ "[[host_name(" +:+ dquote +:+ "lib_strided_dynamic" +:+ dquote
           +:+ ")]]";
           "[[kernel]] void lib_strided_dynamic(";
           "    device const float* A [[buffer(0)]],";
           "    device const float* B [[buffer(1)]],";
           "    constant const size_t* in_strides [[buffer(2)]],";
           "    device float* C [[buffer(3)]],";
           "    constant const size_t* output_strides [[buffer(4)]],";
           "    constant const int* output_shape [[buffer(5)]],";
           "    constant const int& ndim [[buffer(6)]],";
           "    uint3 pos [[thread_position_in_grid]],";
           "    uint3 grid [[threads_per_grid]]) {";
           "  uint index = pos.x + grid.x * (pos.y + grid.y * pos.z);";
           "  float tmp_A = A[elem_to_loc(index, output_shape, in_strides + 0, ndim)];";
           "  float tmp_B = B[elem_to_loc(index, output_shape, in_strides + 0, ndim)];";
           "  float tmp_C = Add()(tmp_A, tmp_B);";
           "  C[index] = tmp_C;";
           "}" ]).
Proof. vm_compute. reflexivity. Qed.

(** Scenario B selects strided_3 with the rows [x0, 0, x2] and [0, y1, y2]. *)
Example scenario_B :
  select_kernel_name "lib" (analyze scB [scB_x; scB_y] scB_z) = "lib_strided_3"
  /\ bound_in_strides (fst (eval_gpu scB {[ "lib" ]} [scB_x; scB_y] scB_z []))
     = [[8; 0; 1; 0; 8; 1]%Z].
Proof. split; vm_compute; reflexivity. Qed.

(** Scenario C selects contiguous_big. *)
Example scenario_C :
  select_kernel_name "lib" (analyze scC [scC_x] scC_z) = "lib_contiguous_big".
Proof. vm_compute. reflexivity. Qed.

(** The sum of 28 arrays overflows in the first strided variant. *)
Example overflow_in_strided_1 :
  snd (build_library ov "lib")
  = Thrown (too_many_arguments "lib_strided_1")
  /\ bound_resources ∅ false false ov_inputs [ov_out] = 32%nat
  /\ bound_resources ∅ true false ov_inputs [ov_out] = 29%nat.
Proof. repeat split; vm_compute; reflexivity. Qed.

(** On an output with an empty axis the strided launch divides by zero
    before it looks at the threadgroup size: whatever the kernel reports,
    the behaviour is undefined, and nothing has been dispatched. *)
Example empty_axis_division :
  snd (eval_gpu z0 {[ "lib" ]} [z0_x; z0_y] z0_z []) = Undefined
  /\ snd (eval_gpu (H := ex_collaborators 512) z0 {[ "lib" ]} [z0_x; z0_y]
            z0_z []) = Undefined
  /\ existsb is_dispatch (fst (eval_gpu z0 {[ "lib" ]} [z0_x; z0_y] z0_z []))
     = false.
Proof. repeat split; vm_compute; reflexivity. Qed.

(** The static variants give each input read through strides its own
    row. *)
Example strided_2_offsets :
  stride_offsets (k_loads (fst (variant_kernel tr "lib" (strided_static 2))))
  = [0; 2]%Z.
Proof. vm_compute. reflexivity. Qed.

(** ** The dynamic-rank variant *)

(** C2 (the code at a failing input).  For x + y over eight axes that
    cannot be merged, the dispatcher selects strided_dynamic and binds a
    stride buffer holding the row of x at offset 0 and the row of y at
    offset 8, while the generated kernel reads both x and y through the
    row at offset 0. *)
Theorem strided_dynamic_shares_row :
  select_kernel_name "lib" (analyze r8 [r8_x; r8_y] r8_z)
  = "lib_strided_dynamic"
  /\ bound_in_strides (fst (eval_gpu r8 {[ "lib" ]} [r8_x; r8_y] r8_z []))
     = [[128; 64; 32; 16; 8; 4; 2; 1; 1; 2; 4; 8; 16; 32; 64; 128]%Z]
  /\ k_loads (fst (variant_kernel r8 "lib" strided_dynamic))
     = [LoadDynamic r8_x "A" 0; LoadDynamic r8_y "B" 0]
  /\ print_load (LoadDynamic r8_y "B" 0)
     = "  float tmp_B = B[elem_to_loc(index, output_shape, in_strides + 0, ndim)];"
       +:+ endl.
Proof. repeat split; vm_compute; reflexivity. Qed.

(** C1 (the code at a failing input).  For x + y with y transposed the
    dispatcher selects strided_2 and launches a grid of 2 x 2 threads on the
    buffers of [tr_args].  The thread at position (1, 0) of the strided_2
    kernel writes x[1] + y[2] = 2 to element 1; the strided_dynamic kernel
    run at rank 2 on the same buffers writes another value, whatever
    [elem_to_loc] computes, because it reads x and y at the same
    location. *)
Theorem strided_dynamic_differs (e2l : Z -> list Z -> list Z -> Z -> Z) :
  eval_gpu tr {[ "lib" ]} [tr_x; tr_y] tr_z []
  = ([get_kernel "lib_strided_2"; setComputePipelineState "lib_strided_2";
      Bind (InputBuffer tr_x) 0; Bind (InputBuffer tr_y) 1;
      Bind (InStrides (arg_in_strides tr_args)) 2;
      allocate_outputs; Bind (OutputBuffer tr_z) 3;
      Bind (OutStrides (arg_output_strides tr_args)) 4;
      Bind (OutShape (arg_output_shape tr_args)) 5;
      dispatchThreads (2, 2, 1)%Z (2, 2, 1)%Z], Returned)
  /\ exec_thread (H0 := ex_metal e2l) tr_args (mk_uint3 1 0 0) (mk_uint3 2 2 1)
       (fst (variant_kernel tr "lib" (strided_static 2)))
     = Some [("C", 1%Z, 2%Z)]
  /\ exec_thread (H0 := ex_metal e2l) tr_args (mk_uint3 1 0 0) (mk_uint3 2 2 1)
       (fst (variant_kernel tr "lib" strided_dynamic))
     <> Some [("C", 1%Z, 2%Z)].
Proof.
  split; [vm_compute; reflexivity|]. split; [vm_compute; reflexivity|].
  set (loc := e2l 1%Z [2; 2]%Z [2; 1; 1; 2]%Z 2%Z).
  assert (Hdyn :
    exec_thread (H0 := ex_metal e2l) tr_args (mk_uint3 1 0 0) (mk_uint3 2 2 1)
      (fst (variant_kernel tr "lib" strided_dynamic))
    = Some [("C", 1%Z,
             ((if (loc =? 1)%Z then 1 else 0)
              + ((if (loc =? 2)%Z then 1 else 0) + 0))%Z)])
    by (vm_compute; reflexivity).
  rewrite Hdyn. intros E. inversion E as [Hv]. clear E Hdyn.
  destruct (Z.eqb_spec loc 1), (Z.eqb_spec loc 2); simpl in Hv; lia.
Qed.

(** ** Instances of the theorems above, and the sentences that fail *)

(** The broadcast rule on the input x of scenario B. *)
Lemma broadcast_strides_rule_witness :
  (ndim scB_x <= length (shape scB_z))%nat
  /\ (input_strides (constant_ids_ scB) (shape scB_z) (strides scB_z)
        (zip (inputs_ scB) [scB_x; scB_y])
      = map (broadcast_strides (shape scB_z) (strides scB_z))
            (strided_inputs (constant_ids_ scB)
               (zip (inputs_ scB) [scB_x; scB_y]))
      /\ length (broadcast_strides (shape scB_z) (strides scB_z) scB_x)
         = length (shape scB_z)
      /\ (forall j : nat, (j < length (shape scB_z) - ndim scB_x)%nat ->
          broadcast_strides (shape scB_z) (strides scB_z) scB_x !!! j =
          if (shape scB_z !!! j =? 1)%Z then strides scB_z !!! j else 0%Z)
      /\ (forall i : nat, (i < ndim scB_x)%nat ->
          let j := (length (shape scB_z) - ndim scB_x + i)%nat in
          broadcast_strides (shape scB_z) (strides scB_z) scB_x !!! j =
          if (shape scB_x !!! i =? 1)%Z && negb (shape scB_z !!! j =? 1)%Z
          then 0%Z
          else if (shape scB_x !!! i =? 1)%Z && (shape scB_z !!! j =? 1)%Z
               then strides scB_z !!! j
               else strides scB_x !!! i)).
Proof.
  split; [vm_compute; lia|].
  apply (broadcast_strides_rule scB [scB_x; scB_y] scB_z scB_x).
  vm_compute; lia.
Defined.

(** C3, as stated, fails where the output has an empty axis: the input
    axis of size 1 gets stride 0, not the input's own stride 1. *)
Lemma broadcast_rule_counterexample :
  ~ broadcast_rule_as_stated [0%Z] [1%Z] z0_x.
Proof.
  intros [_ Haligned]. specialize (Haligned 0%nat).
  vm_compute in Haligned. specialize (Haligned (le_n 1)).
  discriminate Haligned.
Qed.


(** The transposed sum on a kernel that reports 512 threads per group. *)
Lemma threadgroup_check_witness :
  library_available (H := ex_collaborators 512) tr {[ "lib" ]}
  /\ a_contiguous (analyze (H := ex_collaborators 512) tr [tr_x; tr_y] tr_z)
     = false
  /\ size_t_mul
       (u_x (strided_grid
               (a_shape (analyze (H := ex_collaborators 512) tr [tr_x; tr_y]
                           tr_z))))
       (u_y (strided_grid
               (a_shape (analyze (H := ex_collaborators 512) tr [tr_x; tr_y]
                           tr_z)))) <> 0%Z
  /\ snd (eval_gpu (H := ex_collaborators 512) tr {[ "lib" ]}
            [tr_x; tr_y] tr_z [])
     = Thrown must_use_1024
  /\ existsb is_dispatch
       (fst (eval_gpu (H := ex_collaborators 512) tr {[ "lib" ]}
               [tr_x; tr_y] tr_z [])) = false
  /\ contains "lib_strided_2" must_use_1024 = false.
Proof.
  split; [vm_compute; reflexivity|]. split; [vm_compute; reflexivity|].
  split; [vm_compute; discriminate|].
  apply (threadgroup_check (collaborators := ex_collaborators 512) tr
           {[ "lib" ]} [tr_x; tr_y] tr_z []).
  - vm_compute; reflexivity.
  - vm_compute; reflexivity.
  - vm_compute; discriminate.
  - vm_compute. discriminate.
Defined.

(** C7, as stated, fails there: the exception is thrown, but its message
    does not name the kernel. *)
Lemma threadgroup_message_counterexample :
  ~ threadgroup_failure_as_stated (H := ex_collaborators 512) tr {[ "lib" ]}
      [tr_x; tr_y] tr_z [].
Proof.
  unfold threadgroup_failure_as_stated. intros Hclaim.
  destruct Hclaim as (msg & Hmsg & Hnames & _).
  - vm_compute; reflexivity.
  - vm_compute. discriminate.
  - vm_compute in Hmsg. inversion Hmsg; subst msg.
    vm_compute in Hnames. discriminate Hnames.
Qed.

(** The bindings of scenario B. *)
Lemma binding_convention_witness :
  library_available scB {[ "lib" ]}
  /\ (a_contiguous (analyze scB [scB_x; scB_y] scB_z) = false ->
      strided_inputs (constant_ids_ scB) (zip (inputs_ scB) [scB_x; scB_y])
      <> [] ->
      a_strides (analyze scB [scB_x; scB_y] scB_z) !!! 1%nat <> [])
  /\ map fst (bindings (fst (eval_gpu scB {[ "lib" ]} [scB_x; scB_y] scB_z [])))
     = binding_order scB (analyze scB [scB_x; scB_y] scB_z) [scB_x; scB_y]
         [scB_z]
  /\ map snd (bindings (fst (eval_gpu scB {[ "lib" ]} [scB_x; scB_y] scB_z [])))
     = seq 0 (length (bindings (fst (eval_gpu scB {[ "lib" ]} [scB_x; scB_y]
                                      scB_z [])))).
Proof.
  split; [vm_compute; reflexivity|].
  split; [intros _ _; vm_compute; discriminate|].
  apply (binding_convention scB {[ "lib" ]} [scB_x; scB_y] scB_z []).
  - vm_compute; reflexivity.
  - intros _ _; vm_compute; discriminate.
Defined.

(** The library of the sum of 28 arrays: the stream holds the contiguous
    kernels and the whole strided_1 kernel when the overflow is thrown. *)
Lemma overflow_after_emission_witness :
  snd (build_variants ov "lib" metal_preamble library_variants)
  = Thrown (too_many_arguments "lib_strided_1")
  /\ exists done v rest,
       library_variants = done ++ v :: rest
       /\ too_many_arguments "lib_strided_1"
          = too_many_arguments ("lib" +:+ v_suffix v)
       /\ fst (build_variants ov "lib" metal_preamble library_variants)
          = (metal_preamble
             +:+ concat_strings
                   (map (fun w => print_kernel (fst (variant_kernel ov "lib" w)))
                        done))
            +:+ print_kernel (fst (variant_kernel ov "lib" v))
       /\ print_kernel (fst (variant_kernel ov "lib" v))
          = print_kernel_open (fst (variant_kernel ov "lib" v))
            +:+ "}" +:+ endl.
Proof.
  split; [vm_compute; reflexivity|].
  apply (overflow_after_emission ov "lib" metal_preamble library_variants).
  vm_compute; reflexivity.
Defined.

(** * Further properties *)

(** ** The linear index *)

Lemma narrow_index_exact (pos grid : uint3) :
  in_grid pos grid ->
  (u_x grid * u_y grid * u_z grid <= 2 ^ 32)%Z ->
  eval_index pos grid false
  = (u_x pos + u_x grid * (u_y pos + u_y grid * u_z pos))%Z
  /\ (0 <= eval_index pos grid false < u_x grid * u_y grid * u_z grid)%Z.
Proof.
  intros (Hx & Hy & Hz) Hfit. unfold eval_index, to_uint.
  assert (Hb : (0 <= u_x pos + u_x grid * (u_y pos + u_y grid * u_z pos)
                < u_x grid * u_y grid * u_z grid)%Z).
  { assert (0 <= u_y pos + u_y grid * u_z pos < u_y grid * u_z grid)%Z by nia.
    nia. }
  rewrite Z.mod_small by lia. auto.
Qed.

Lemma narrow_index_inj (grid p q : uint3) :
  (u_x grid * u_y grid * u_z grid <= 2 ^ 32)%Z ->
  in_grid p grid -> in_grid q grid ->
  eval_index p grid false = eval_index q grid false -> p = q.
Proof.
  intros Hfit Hp Hq E. destruct p as [px py pz], q as [qx qy qz].
  destruct (narrow_index_exact _ _ Hp Hfit) as [Ep _].
  destruct (narrow_index_exact _ _ Hq Hfit) as [Eq _].
  rewrite Ep, Eq in E. destruct Hp as (Hpx & Hpy & Hpz).
  destruct Hq as (Hqx & Hqy & Hqz). simpl in *.
  destruct (Z.div_mod_unique (u_x grid) (py + u_y grid * pz)
              (qy + u_y grid * qz) px qx) as [E1 ->]; [lia | lia | lia |].
  destruct (Z.div_mod_unique (u_y grid) pz qz py qy) as [-> ->];
    [lia | lia | lia |]. reflexivity.
Qed.

Lemma big_index_exact (pos grid : uint3) :
  in_grid pos grid ->
  (u_x grid * u_y grid <= 2 ^ 64)%Z ->
  eval_index pos grid true = (u_x pos + u_x grid * u_y pos)%Z
  /\ (0 <= u_x pos + u_x grid * u_y pos < u_x grid * u_y grid)%Z.
Proof.
  intros (Hx & Hy & Hz) Hfit. unfold eval_index, to_size_t.
  assert (0 <= u_x pos + u_x grid * u_y pos < u_x grid * u_y grid)%Z by nia.
  rewrite Z.mod_small by lia. auto.
Qed.

Lemma big_index_inj (grid p q : uint3) :
  (u_x grid * u_y grid <= 2 ^ 64)%Z ->
  u_z grid = 1%Z ->
  in_grid p grid -> in_grid q grid ->
  eval_index p grid true = eval_index q grid true -> p = q.
Proof.
  intros Hfit Hgz Hp Hq E. destruct p as [px py pz], q as [qx qy qz].
  destruct (big_index_exact _ _ Hp Hfit) as [Ep _].
  destruct (big_index_exact _ _ Hq Hfit) as [Eq _].
  rewrite Ep, Eq in E. destruct Hp as (Hpx & Hpy & Hpz).
  destruct Hq as (Hqx & Hqy & Hqz). simpl in *.
  destruct (Z.div_mod_unique (u_x grid) py qy px qx) as [-> ->];
    [lia | lia | lia |].
  f_equal. lia.
Qed.

(** X1. With the 32-bit index line, the threads of a grid of at most 2^32
    threads are in one-to-one correspondence with the linear indices below
    the number of threads: every index is in range, two threads never share
    one, and every index in range belongs to some thread. *)
Theorem narrow_index_bijective (grid : uint3) :
  (u_x grid * u_y grid * u_z grid <= 2 ^ 32)%Z ->
  (forall pos, in_grid pos grid ->
     (0 <= eval_index pos grid false < u_x grid * u_y grid * u_z grid)%Z)
  /\ (forall p q, in_grid p grid -> in_grid q grid ->
      eval_index p grid false = eval_index q grid false -> p = q)
  /\ (forall e, (0 <= u_x grid)%Z -> (0 <= u_y grid)%Z ->
      (0 <= e < u_x grid * u_y grid * u_z grid)%Z ->
      exists pos, in_grid pos grid /\ eval_index pos grid false = e).
Proof.
  intros Hfit. split; [|split].
  - intros pos Hpos. now apply narrow_index_exact.
  - intros p q. now apply narrow_index_inj.
  - intros e Hgx Hgy He.
    assert (Hx : (0 < u_x grid)%Z).
    { destruct (Z.eq_dec (u_x grid) 0%Z) as [E|E]; [rewrite E in He|]; lia. }
    assert (Hy : (0 < u_y grid)%Z).
    { destruct (Z.eq_dec (u_y grid) 0%Z) as [E|E]; [rewrite E in He|]; lia. }
    set (pos := mk_uint3 (e mod u_x grid) ((e / u_x grid) mod u_y grid)
                  (e / u_x grid / u_y grid)).
    assert (Hpos : in_grid pos grid).
    { unfold in_grid, pos. simpl.
      split; [apply Z.mod_pos_bound; lia|].
      split; [apply Z.mod_pos_bound; lia|].
      split.
      - apply Z.div_pos; [apply Z.div_pos|]; lia.
      - apply Z.div_lt_upper_bound; [lia|].
        apply Z.div_lt_upper_bound; [lia|]. lia. }
    exists pos. split; [exact Hpos|].
    destruct (narrow_index_exact _ _ Hpos Hfit) as [-> _]. unfold pos. simpl.
    pose proof (Z.div_mod (e / u_x grid) (u_y grid) ltac:(lia)) as H1.
    pose proof (Z.div_mod e (u_x grid) ltac:(lia)) as H2.
    replace ((e / u_x grid) mod u_y grid
             + u_y grid * (e / u_x grid / u_y grid))%Z
      with (e / u_x grid)%Z by lia.
    lia.
Qed.

(** X2. With the 64-bit index line, which ignores [pos.z], the threads of a
    two-dimensional grid of at most 2^64 threads are in one-to-one
    correspondence with the linear indices below the number of threads. *)
Theorem big_index_bijective (grid : uint3) :
  (u_x grid * u_y grid <= 2 ^ 64)%Z ->
  u_z grid = 1%Z ->
  (forall pos, in_grid pos grid ->
     (0 <= eval_index pos grid true < u_x grid * u_y grid)%Z)
  /\ (forall p q, in_grid p grid -> in_grid q grid ->
      eval_index p grid true = eval_index q grid true -> p = q)
  /\ (forall e, (0 <= u_x grid)%Z ->
      (0 <= e < u_x grid * u_y grid)%Z ->
      exists pos, in_grid pos grid /\ eval_index pos grid true = e).
Proof.
  intros Hfit Hgz.
  assert (Hexact : forall pos, in_grid pos grid ->
            eval_index pos grid true = (u_x pos + u_x grid * u_y pos)%Z
            /\ (0 <= u_x pos + u_x grid * u_y pos < u_x grid * u_y grid)%Z).
  { intros pos Hpos. now apply big_index_exact. }
  split; [|split].
  - intros pos Hpos. destruct (Hexact pos Hpos) as [-> H]. exact H.
  - intros p q. now apply big_index_inj.
  - intros e Hgx He.
    assert (Hx : (0 < u_x grid)%Z).
    { destruct (Z.eq_dec (u_x grid) 0%Z) as [E|E]; [rewrite E in He|]; lia. }
    set (pos := mk_uint3 (e mod u_x grid) (e / u_x grid) 0).
    assert (Hpos : in_grid pos grid).
    { unfold in_grid, pos. simpl.
      split; [apply Z.mod_pos_bound; lia|].
      split; [|lia]. split.
      - apply Z.div_pos; lia.
      - apply Z.div_lt_upper_bound; lia. }
    exists pos. split; [exact Hpos|].
    destruct (Hexact _ Hpos) as [-> _]. unfold pos. simpl.
    rewrite Z.add_comm. symmetry. apply Z.div_mod. lia.
Qed.

(** ** Per-axis indices *)

Lemma product_app (l1 l2 : list Z) :
  product (l1 ++ l2) = (product l1 * product l2)%Z.
Proof.
  unfold product. induction l1 as [|d l1 IH]; simpl; [lia|].
  rewrite IH. lia.
Qed.

Lemma product_pos (l : list Z) :
  Forall (fun d => (1 <= d)%Z) l -> (1 <= product l)%Z.
Proof.
  unfold product. induction 1 as [|d l Hd _ IH]; simpl; [lia | nia].
Qed.

Lemma product_take_drop (k : nat) (l : list Z) :
  product l = (product (take k l) * product (drop k l))%Z.
Proof. now rewrite <- product_app, take_drop. Qed.

(** The stride of axis [i] in the row-major layout is the product of the
    dimensions after it. *)
Lemma row_major_strides_lookup (s : list Z) (i : nat) :
  (i < length s)%nat ->
  row_major_strides s !!! i = product (drop (S i) s).
Proof.
  revert i. induction s as [|d s IH]; intros i Hi; simpl in *; [lia|].
  destruct i as [|i]; [reflexivity|]. apply IH. lia.
Qed.

Lemma drop_last_two (s : list Z) :
  (2 <= length s)%nat ->
  drop (length s - 2) s
  = [s !!! (length s - 2)%nat; s !!! (length s - 1)%nat].
Proof.
  intros Hn.
  destruct (lookup_lt_is_Some_2 s (length s - 2)) as [a Ha]; [lia|].
  destruct (lookup_lt_is_Some_2 s (length s - 1)) as [b Hb]; [lia|].
  rewrite (list_lookup_total_correct _ _ _ Ha).
  rewrite (list_lookup_total_correct _ _ _ Hb).
  rewrite (drop_S _ _ _ Ha).
  replace (S (length s - 2)) with (length s - 1)%nat by lia.
  rewrite (drop_S _ _ _ Hb).
  replace (S (length s - 1)) with (length s) by lia.
  now rewrite drop_all.
Qed.

Lemma drop_last_one (s : list Z) :
  (1 <= length s)%nat ->
  drop (length s - 1) s = [s !!! (length s - 1)%nat].
Proof.
  intros Hn.
  destruct (lookup_lt_is_Some_2 s (length s - 1)) as [b Hb]; [lia|].
  rewrite (list_lookup_total_correct _ _ _ Hb), (drop_S _ _ _ Hb).
  replace (S (length s - 1)) with (length s) by lia.
  now rewrite drop_all.
Qed.

(** The strided grid has as many threads as the shape has elements. *)
Lemma strided_grid_threads (s : list Z) :
  (1 <= length s)%nat ->
  (u_x (strided_grid s) * u_y (strided_grid s) * u_z (strided_grid s))%Z
  = product s.
Proof.
  intros Hn. unfold strided_grid. simpl.
  destruct (Nat.ltb_spec 0 (length s)) as [_|]; [|lia].
  destruct (Nat.ltb_spec 1 (length s)) as [H2|H1].
  - rewrite (product_take_drop (length s - 2) s), drop_last_two by lia.
    unfold product at 3. simpl. lia.
  - assert (E : length s = 1%nat) by lia. rewrite E. simpl.
    rewrite (product_take_drop 0 s). simpl.
    replace 0%nat with (length s - 1)%nat at 2 by lia.
    rewrite drop_last_one by lia. rewrite E. unfold product. simpl. lia.
Qed.

(** Each thread position is the row-major coordinate triple of its linear
    index. *)
Lemma position_from_index (pos grid : uint3) :
  in_grid pos grid ->
  (u_x grid * u_y grid * u_z grid <= 2 ^ 32)%Z ->
  let index := eval_index pos grid false in
  u_x pos = (index mod u_x grid)%Z
  /\ u_y pos = ((index / u_x grid) mod u_y grid)%Z
  /\ u_z pos = (index / u_x grid / u_y grid)%Z.
Proof.
  intros Hpos Hfit index.
  destruct (narrow_index_exact pos grid Hpos Hfit) as [E _].
  subst index. rewrite E. destruct Hpos as (Hx & Hy & Hz).
  assert (E1 : ((u_x pos + u_x grid * (u_y pos + u_y grid * u_z pos))
                / u_x grid = u_y pos + u_y grid * u_z pos)%Z).
  { symmetry. apply (Z.div_unique_pos _ _ _ (u_x pos)); lia. }
  split; [|split].
  - apply (Z.mod_unique_pos _ _ (u_y pos + u_y grid * u_z pos)); lia.
  - rewrite E1. apply (Z.mod_unique_pos _ _ (u_z pos)); lia.
  - rewrite E1. apply (Z.div_unique_pos _ _ _ (u_y pos)); lia.
Qed.

(** Case analysis on the integer comparisons of the goal. *)
Ltac case_bools :=
  repeat match goal with
         | |- context [(?a <=? ?b)%Z] => destruct (Z.leb_spec a b)
         | |- context [(?a <? ?b)%Z] => destruct (Z.ltb_spec a b)
         end; simpl.

Lemma to_uint_small (n : Z) : (0 <= n < 2 ^ 32)%Z -> to_uint n = n.
Proof. intros Hn. unfold to_uint. now apply Z.mod_small. Qed.

Lemma lookup_axis_app (l1 l2 : list (Z * Z)) (i : Z) :
  lookup_axis (l1 ++ l2) i
  = match lookup_axis l1 i with
    | Some v => Some v
    | None => lookup_axis l2 i
    end.
Proof.
  induction l1 as [|[j v] l1 IH]; simpl; [reflexivity|].
  now destruct (i =? j)%Z.
Qed.

Lemma lookup_axis_divmod {V : Type} (args : kernel_args V) (pos : uint3)
    (index : Z) (k : nat) :
  forall (start i : Z),
  lookup_axis (map (eval_axis args pos index)
                 (map AxisDivMod (seqZ start (Z.of_nat k)))) i
  = if (start <=? i)%Z && (i <? start + Z.of_nat k)%Z
    then Some (snd (eval_axis args pos index (AxisDivMod i)))
    else None.
Proof.
  induction k as [|k IH]; intros start i.
  - simpl. case_bools; reflexivity || lia.
  - rewrite seqZ_cons by lia.
    replace (Z.pred (Z.of_nat (S k))) with (Z.of_nat k) by lia.
    simpl. destruct (Z.eqb_spec i start) as [->|Hne].
    + case_bools; reflexivity || lia.
    + rewrite IH. case_bools; reflexivity || lia.
Qed.

Lemma lookup_total_bounds (s : list Z) (i : nat) :
  Forall (fun d => (1 <= d)%Z) s -> (i < length s)%nat ->
  (1 <= s !!! i <= product s)%Z.
Proof.
  intros Hpos Hi.
  destruct (lookup_lt_is_Some_2 s i Hi) as [d Hd].
  rewrite (list_lookup_total_correct _ _ _ Hd).
  rewrite (product_take_drop i s), (drop_S _ _ _ Hd).
  assert (H1 : (1 <= product (take i s))%Z)
    by (apply product_pos, Forall_take, Hpos).
  assert (H2 : (1 <= product (drop (S i) s))%Z)
    by (apply product_pos, Forall_drop, Hpos).
  assert (H3 : (1 <= d)%Z) by (rewrite Forall_lookup in Hpos; eauto).
  change (product (d :: drop (S i) s)) with (d * product (drop (S i) s))%Z.
  set (p1 := product (take i s)) in *. set (p2 := product (drop (S i) s)) in *.
  assert (d <= d * p2)%Z by nia.
  assert (d * p2 <= p1 * (d * p2))%Z by nia. lia.
Qed.

Lemma stride_bounds (s : list Z) (i : nat) :
  Forall (fun d => (1 <= d)%Z) s -> (i < length s)%nat ->
  (1 <= row_major_strides s !!! i <= product s)%Z.
Proof.
  intros Hpos Hi. rewrite row_major_strides_lookup by exact Hi.
  rewrite (product_take_drop (S i) s).
  assert (H1 : (1 <= product (take (S i) s))%Z)
    by (apply product_pos, Forall_take, Hpos).
  assert (H2 : (1 <= product (drop (S i) s))%Z)
    by (apply product_pos, Forall_drop, Hpos).
  set (p1 := product (take (S i) s)) in *.
  set (p2 := product (drop (S i) s)) in *.
  assert (p2 <= p1 * p2)%Z by nia. lia.
Qed.

(** In a static strided kernel launched on the grid of the collapsed
    shape, every per-axis index holds the row-major coordinate of the
    thread's linear index. *)
Lemma axis_lookup_coordinates {V : Type} (args : kernel_args V)
    (s : list Z) (pos : uint3) :
  (1 <= length s)%nat ->
  Forall (fun d => (1 <= d)%Z) s ->
  (product s < 2 ^ 32)%Z ->
  arg_output_shape args = s ->
  arg_output_strides args = row_major_strides s ->
  in_grid pos (strided_grid s) ->
  let index := eval_index pos (strided_grid s) false in
  let axes :=
    map (eval_axis args pos index)
        (axis_decls (Z.of_nat (length s)) false true) in
  forall i : nat, (i < length s)%nat ->
    lookup_axis axes (Z.of_nat i)
    = Some ((index / (row_major_strides s !!! i)) mod (s !!! i))%Z.
Proof.
  intros Hn Hdims Hfit Hshape Hstr Hpos index axes i Hi.
  pose proof (strided_grid_threads s Hn) as Hthreads.
  assert (Hfit' : (u_x (strided_grid s) * u_y (strided_grid s)
                   * u_z (strided_grid s) <= 2 ^ 32)%Z) by lia.
  destruct (position_from_index pos (strided_grid s) Hpos Hfit')
    as (Hx & Hy & Hz). fold index in Hx, Hy, Hz.
  destruct (narrow_index_exact pos (strided_grid s) Hpos Hfit') as [_ Hidx].
  fold index in Hidx. rewrite Hthreads in Hidx.
  assert (Hgz : (0 <= u_z pos < u_z (strided_grid s))%Z) by apply Hpos.
  subst axes. unfold axis_decls. cbn [negb].
  destruct s as [|a [|b [|c [|d s']]]]; simpl in Hn; [lia|..].
  - (* rank 1 *)
    simpl in *. assert (i = 0%nat) as -> by lia. simpl.
    rewrite Z.div_1_r. now rewrite Hx.
  - (* rank 2 *)
    simpl in *. destruct i as [|[|i]]; [| |lia]; simpl.
    + rewrite Z.mul_1_r. now rewrite Hy.
    + rewrite Z.div_1_r. now rewrite Hx.
  - (* rank 3 *)
    inversion Hdims as [|? ? Ha Hdims1]; subst.
    inversion Hdims1 as [|? ? Hb Hdims2]; subst.
    inversion Hdims2 as [|? ? Hc _]; subst.
    simpl in *. destruct i as [|[|[|i]]]; [| | |lia]; simpl.
    + rewrite Z.mul_1_r. f_equal.
      rewrite Z.mul_1_r in Hgz.
      replace (index / (b * c))%Z with (u_z pos).
      * symmetry. apply Z.mod_small. lia.
      * rewrite Hz, (Z.mul_comm b c). apply Z.div_div; lia.
    + rewrite Z.mul_1_r. now rewrite Hy.
    + rewrite Z.div_1_r. now rewrite Hx.
  - (* rank 4 and above *)
    remember (a :: b :: c :: d :: s') as s eqn:Es.
    assert (Hn4 : (4 <= length s)%nat) by (rewrite Es; simpl; lia).
    clear Es a b c d s' Hn.
    destruct (Z.eqb_spec (Z.of_nat (length s)) 1); [lia|].
    destruct (Z.eqb_spec (Z.of_nat (length s)) 2); [lia|].
    destruct (Z.eqb_spec (Z.of_nat (length s)) 3); [lia|].
    rewrite map_app, lookup_axis_app.
    replace (Z.of_nat (length s) - 2)%Z with (Z.of_nat (length s - 2)) by lia.
    rewrite lookup_axis_divmod.
    assert (Hgx : u_x (strided_grid s) = s !!! (length s - 1)%nat).
    { unfold strided_grid. simpl.
      destruct (Nat.ltb_spec 0 (length s)); [reflexivity | lia]. }
    assert (Hgy : u_y (strided_grid s) = s !!! (length s - 2)%nat).
    { unfold strided_grid. simpl.
      destruct (Nat.ltb_spec 1 (length s)); [reflexivity | lia]. }
    destruct (Z.leb_spec 0 (Z.of_nat i)) as [_|]; [|lia].
    destruct (Z.ltb_spec (Z.of_nat i) (0 + Z.of_nat (length s - 2)))
      as [Hlt|Hge]; cbn [andb].
    + (* computed by division *)
      unfold eval_axis. cbn [snd].
      rewrite Nat2Z.id, Hshape, Hstr. f_equal.
      pose proof (stride_bounds s i Hdims Hi) as Hst.
      pose proof (lookup_total_bounds s i Hdims Hi) as Hsh.
      rewrite (to_uint_small (row_major_strides s !!! i)) by lia.
      rewrite (to_uint_small (s !!! i)) by lia.
      rewrite to_uint_small; [reflexivity|].
      split; [apply Z.div_pos; lia|].
      apply Z.div_lt_upper_bound; [lia | nia].
    + (* taken from the position *)
      assert (Hcase : i = (length s - 2)%nat \/ i = (length s - 1)%nat) by lia.
      destruct Hcase as [->| ->]; simpl (lookup_axis _ _).
      * rewrite Z.eqb_refl.
        f_equal. rewrite row_major_strides_lookup by lia.
        replace (S (length s - 2)) with (length s - 1)%nat by lia.
        rewrite drop_last_one by lia.
        unfold product. simpl. rewrite Z.mul_1_r.
        now rewrite Hy, Hgx, Hgy.
      * destruct (Z.eqb_spec (Z.of_nat (length s - 1))
                    (Z.of_nat (length s - 2))); [lia|].
        destruct (Z.eqb_spec (Z.of_nat (length s - 1))
                    (Z.of_nat (length s) - 1)); [|lia].
        f_equal. rewrite row_major_strides_lookup by lia.
        replace (S (length s - 1)) with (length s) by lia.
        rewrite drop_all. unfold product. simpl.
        rewrite Z.div_1_r. now rewrite Hx, Hgx.
Qed.

(** X3. In a static strided kernel launched on the grid of the collapsed
    shape, with a row-major output of fewer than 2^32 elements and no empty
    axis, every per-axis index [index_i] is declared and holds the i-th
    row-major coordinate of the thread's linear index,
    [(index / stride_i) mod shape_i], whether it is computed by division or
    taken from the thread position. *)
Theorem axis_indices_are_coordinates {V : Type} (args : kernel_args V)
    (s : list Z) (pos : uint3) :
  (1 <= length s)%nat ->
  Forall (fun d => (1 <= d)%Z) s ->
  (product s < 2 ^ 32)%Z ->
  arg_output_shape args = s ->
  arg_output_strides args = row_major_strides s ->
  in_grid pos (strided_grid s) ->
  let index := eval_index pos (strided_grid s) false in
  let axes :=
    map (eval_axis args pos index)
        (axis_decls (Z.of_nat (length s)) false true) in
  forall i : nat, (i < length s)%nat ->
    lookup_axis axes (Z.of_nat i)
    = Some ((index / (row_major_strides s !!! i)) mod (s !!! i))%Z.
Proof. apply axis_lookup_coordinates. Qed.

(** ** The launch and the library *)

Section LaunchFacts.

Context {Dtype Primitive NodeNamer : Type}
        {collaborators : @Collaborators Dtype Primitive NodeNamer}.

Local Abbreviation array := (@array Dtype Primitive).
Local Abbreviation Compiled := (@Compiled Dtype Primitive).
Local Abbreviation call := (@call Dtype Primitive).

(** X4. A strided launch on a kernel of 1024 threads per group, over a
    collapsed shape without empty axis that has the output's number of
    elements (below 2^64), dispatches the grid of that shape: the last
    axis, the axis before it, the product of the others; it has exactly one
    thread per output element. *)
Theorem strided_launch_grid (kernel_name : string) (a : analysis)
    (out0 : array) :
  a_contiguous a = false ->
  maxTotalThreadsPerThreadgroup kernel_name = 1024%Z ->
  Forall (fun d => (1 <= d)%Z) (a_shape a) ->
  size out0 = product (a_shape a) ->
  (product (a_shape a) < 2 ^ 64)%Z ->
  let g := strided_grid (a_shape a) in
  launch kernel_name a out0
  = ([dispatchThreads (u_x g, u_y g, u_z g)
        (get_block_dims (u_x g) (u_y g) (u_z g))], Returned)
  /\ (u_x g * u_y g * u_z g)%Z = size out0.
Proof.
  intros Ha Hmax Hdims Hsize Hfit g.
  assert (Hthreads : (u_x g * u_y g * u_z g)%Z = product (a_shape a)).
  { destruct (a_shape a) as [|d s] eqn:Es; [reflexivity|].
    apply strided_grid_threads. simpl. lia. }
  split; [|lia].
  assert (Hgz : (1 <= u_z g)%Z)
    by (apply product_pos, Forall_take, Hdims).
  assert (Hgx : (1 <= u_x g)%Z).
  { subst g. unfold strided_grid. simpl.
    destruct (Nat.ltb_spec 0 (length (a_shape a))); [|lia].
    apply lookup_total_bounds; [exact Hdims | lia]. }
  assert (Hgy : (1 <= u_y g)%Z).
  { subst g. unfold strided_grid. simpl.
    destruct (Nat.ltb_spec 1 (length (a_shape a))); [|lia].
    apply lookup_total_bounds; [exact Hdims | lia]. }
  unfold launch. rewrite Ha. cbv zeta.
  change (if (0 <? length (a_shape a))%nat
          then a_shape a !!! (length (a_shape a) - 1)%nat else 1%Z)
    with (u_x g).
  change (if (1 <? length (a_shape a))%nat
          then a_shape a !!! (length (a_shape a) - 2)%nat else 1%Z)
    with (u_y g).
  assert (Hxy : (u_x g * u_y g <= u_x g * u_y g * u_z g)%Z) by nia.
  assert (Hdiv : size_t_mul (u_x g) (u_y g) = (u_x g * u_y g)%Z).
  { unfold size_t_mul. apply Z.mod_small. nia. }
  assert (Hrest : (size out0 / size_t_mul (u_x g) (u_y g))%Z = u_z g).
  { rewrite Hdiv, Hsize, <- Hthreads. symmetry.
    apply Z.div_unique_exact; nia. }
  rewrite Hrest, Hmax.
  destruct (Z.eqb_spec (size_t_mul (u_x g) (u_y g)) 0) as [E|_];
    [rewrite Hdiv in E; nia | reflexivity].
Qed.

Lemma build_variants_returned (c : Compiled) (lib : string)
    (vs : list variant) :
  forall os,
  (snd (build_variants c lib os vs) = Returned
   <-> Forall (fun v =>
                 (bound_resources (constant_ids_ c) (v_contiguous v)
                    (v_dynamic_dims v) (inputs_ c) (outputs_ c) <= 31)%nat)
              vs)
  /\ (snd (build_variants c lib os vs) = Returned ->
      fst (build_variants c lib os vs)
      = os +:+ concat_strings
                 (map (fun v => print_kernel (fst (variant_kernel c lib v)))
                      vs)).
Proof.
  induction vs as [|v vs IH]; intros os; simpl.
  - split; [split; auto|]. intros _. now rewrite append_nil_r.
  - rewrite build_variant_unfold.
    destruct (Nat.ltb_spec 31 (bound_resources (constant_ids_ c)
                (v_contiguous v) (v_dynamic_dims v) (inputs_ c) (outputs_ c)))
      as [Hlt|Hle]; simpl.
    + split; [split|]; try discriminate.
      intros H. inversion H; subst. lia.
    + destruct (IH (os +:+ print_kernel (fst (variant_kernel c lib v))))
        as [Hiff Htext].
      split.
      * rewrite Hiff. split; [intros H; now constructor|].
        intros H. now inversion H.
      * intros H. rewrite (Htext H). unfold concat_strings. simpl.
        now rewrite append_assoc.
Qed.

(** The variant at which building a library throws is the first one that
    does not fit. *)
Lemma build_variants_first_failure (c : Compiled) (lib : string)
    (vs : list variant) :
  forall os msg,
  snd (build_variants c lib os vs) = Thrown msg ->
  exists done v rest,
    vs = done ++ v :: rest
    /\ Forall (fun w =>
                 (bound_resources (constant_ids_ c) (v_contiguous w)
                    (v_dynamic_dims w) (inputs_ c) (outputs_ c) <= 31)%nat)
              done
    /\ (31 < bound_resources (constant_ids_ c) (v_contiguous v)
                (v_dynamic_dims v) (inputs_ c) (outputs_ c))%nat
    /\ msg = too_many_arguments (lib +:+ v_suffix v).
Proof.
  induction vs as [|v vs IH]; intros os msg E; simpl in E; [discriminate|].
  rewrite build_variant_unfold in E.
  destruct (Nat.ltb_spec 31 (bound_resources (constant_ids_ c)
              (v_contiguous v) (v_dynamic_dims v) (inputs_ c) (outputs_ c)))
    as [Hlt|Hle]; simpl in E.
  - inversion E; subst. exists [], v, vs. auto.
  - apply IH in E as (done & w & rest & -> & Hdone & Hb & ->).
    exists (v :: done), w, rest. repeat split; auto.
Qed.

(** The strided_dynamic variant needs the most arguments. *)
Lemma bound_resources_max (c : Compiled) (v : variant) :
  In v library_variants ->
  (bound_resources (constant_ids_ c) (v_contiguous v) (v_dynamic_dims v)
     (inputs_ c) (outputs_ c)
   <= bound_resources (constant_ids_ c) false true (inputs_ c) (outputs_ c))%nat.
Proof.
  assert (Hcontig : existsb (reads_through_strides (constant_ids_ c) true)
                      (inputs_ c) = false).
  { induction (inputs_ c) as [|x xs IH]; [reflexivity|]. simpl.
    rewrite IH. unfold reads_through_strides.
    now rewrite orb_true_r, andb_false_r. }
  intros Hv. unfold library_variants in Hv. simpl in Hv.
  unfold bound_resources.
  repeat (destruct Hv as [<-|Hv]; [simpl; rewrite ?Hcontig; lia|]).
  destruct Hv.
Qed.

(** X5. The library of a computation can be built iff its strided_dynamic
    kernel fits 31 arguments: the non-constant inputs, one more if one of
    them is not a scalar, the outputs, and three.  Then its text is the
    Metal helpers followed by the ten kernels in order.  Otherwise no
    kernel of the computation is available, the contiguous ones
    included. *)
Theorem library_builds_iff (c : Compiled) (lib : string) :
  (snd (build_library c lib) = Returned
   <-> (bound_resources (constant_ids_ c) false true (inputs_ c) (outputs_ c)
        <= 31)%nat)
  /\ (snd (build_library c lib) = Returned ->
      fst (build_library c lib)
      = metal_preamble
        +:+ concat_strings
              (map (fun v => print_kernel (fst (variant_kernel c lib v)))
                   library_variants))
  /\ length library_variants = 10%nat.
Proof.
  unfold build_library.
  destruct (build_variants_returned c lib library_variants metal_preamble)
    as [Hiff Htext].
  split; [|split; [exact Htext | reflexivity]].
  rewrite Hiff, Forall_forall. split.
  - intros H. apply (H strided_dynamic).
    apply list_elem_of_In. unfold library_variants. simpl. tauto.
  - intros H v Hv. apply list_elem_of_In in Hv.
    pose proof (bound_resources_max c v Hv). lia.
Qed.

(** X6. [eval_gpu] throws in two ways only: with the overflow message of
    the first variant that does not fit, when the library is not cached,
    before any call on the device; or with the threadgroup message, on the
    strided path when the kernel does not report 1024 threads per group. *)
Theorem eval_gpu_exceptions (c : Compiled) (device_libs : gset string)
    (inputs : list array) (out0 : array) (outs : list array) (msg : string) :
  snd (eval_gpu c device_libs inputs out0 outs) = Thrown msg ->
  let lib := library_name c in
  let a := analyze c inputs out0 in
  ((library_name c ∉ device_libs)
   /\ fst (eval_gpu c device_libs inputs out0 outs) = []
   /\ exists v, In v library_variants
        /\ msg = too_many_arguments (lib +:+ v_suffix v)
        /\ (31 < bound_resources (constant_ids_ c) (v_contiguous v)
                   (v_dynamic_dims v) (inputs_ c) (outputs_ c))%nat)
  \/ (library_available c device_libs
      /\ msg = must_use_1024
      /\ a_contiguous a = false
      /\ maxTotalThreadsPerThreadgroup (select_kernel_name lib a) <> 1024%Z).
Proof.
  intros E lib a.
  destruct (classic_available c device_libs) as [Hlib|Hlib].
  - right. split; [exact Hlib|].
    rewrite eval_gpu_available in E by exact Hlib. simpl in E.
    fold lib a in E. unfold launch in E.
    destruct (a_contiguous a); [discriminate E|].
    destruct (_ =? 0)%Z; [discriminate E|].
    destruct (Z.eqb_spec (maxTotalThreadsPerThreadgroup
                            (select_kernel_name lib a)) 1024) as [Hm|Hm];
      simpl in E; [discriminate E|].
    inversion E. auto.
  - left.
    assert (Hc : lib ∉ device_libs).
    { intros Hin. apply Hlib. unfold library_available, get_library.
      fold lib. now rewrite bool_decide_eq_true_2. }
    assert (Hb : snd (build_library c lib) = Thrown msg).
    { unfold eval_gpu, get_library in E. fold lib in E.
      rewrite bool_decide_eq_false_2 in E by exact Hc.
      destruct (build_library c lib) as [src [|m|]] eqn:Eb; simpl in E |- *.
      - exfalso. apply Hlib. unfold library_available, get_library.
        fold lib. rewrite bool_decide_eq_false_2 by exact Hc.
        now rewrite Eb.
      - exact E.
      - discriminate E. }
    split; [exact Hc|].
    split; [now rewrite (eval_gpu_builder_throws c device_libs inputs out0
                           outs msg Hc Hb)|].
    unfold build_library in Hb.
    apply build_variants_first_failure in Hb
      as (done & v & rest & Hvs & _ & Hbound & Hmsg).
    exists v. split; [rewrite Hvs; apply in_app_iff; right; now left|].
    auto.
Qed.

End LaunchFacts.

(** ** Broadcast strides as addresses *)

Lemma sum_map_ext (f g : nat -> Z) (start len : nat) :
  (forall j : nat, (start <= j < start + len)%nat -> f j = g j) ->
  fold_right Z.add 0%Z (map f (seq start len))
  = fold_right Z.add 0%Z (map g (seq start len)).
Proof.
  revert start. induction len as [|len IH]; intros start Hfg; simpl;
    [reflexivity|].
  rewrite Hfg by lia. f_equal. apply IH. intros j Hj. apply Hfg. lia.
Qed.

Lemma sum_map_shift (f : nat -> Z) (start len : nat) :
  fold_right Z.add 0%Z (map f (seq start len))
  = fold_right Z.add 0%Z (map (fun j => f (start + j)%nat) (seq 0 len)).
Proof.
  revert f start. induction len as [|len IH]; intros f start; simpl;
    [reflexivity|].
  rewrite Nat.add_0_r. f_equal.
  rewrite (IH f (S start)), (IH (fun j => f (start + j)%nat) 1%nat).
  apply sum_map_ext. intros j _. f_equal. lia.
Qed.

Lemma sum_map_app (f : nat -> Z) (n m : nat) :
  fold_right Z.add 0%Z (map f (seq 0 (n + m)))
  = (fold_right Z.add 0%Z (map f (seq 0 n))
     + fold_right Z.add 0%Z (map f (seq n m)))%Z.
Proof.
  rewrite seq_app, map_app. simpl.
  induction (map f (seq 0 n)) as [|a l IH]; simpl; [reflexivity|].
  rewrite IH. lia.
Qed.

Lemma sum_map_zero (f : nat -> Z) (start len : nat) :
  (forall j : nat, (start <= j < start + len)%nat -> f j = 0%Z) ->
  fold_right Z.add 0%Z (map f (seq start len)) = 0%Z.
Proof.
  intros Hf. rewrite (sum_map_ext f (fun _ => 0%Z)) by exact Hf.
  induction (seq start len) as [|a l IH]; simpl; [reflexivity | exact IH].
Qed.

(** An offset is the sum over the axes of coordinate times stride. *)
Lemma dot_as_sum (idx : list Z) :
  forall row, length idx = length row ->
  dot idx row
  = fold_right Z.add 0%Z
      (map (fun j : nat => (idx !!! j * row !!! j)%Z) (seq 0 (length row))).
Proof.
  unfold dot. induction idx as [|i idx IH]; intros [|r row] Hlen;
    simpl in *; try reflexivity; try discriminate.
  f_equal. rewrite IH by lia.
  now rewrite <- seq_shift, map_map.
Qed.

Lemma broadcast_coords_lookup (xshape : list Z) (lead : nat) (idx : list Z)
    (i : nat) :
  length idx = (lead + length xshape)%nat -> (i < length xshape)%nat ->
  broadcast_coords xshape lead idx !!! i
  = if (xshape !!! i =? 1)%Z then 0%Z else idx !!! (lead + i)%nat.
Proof.
  intros Hlen Hi. unfold broadcast_coords.
  destruct (lookup_lt_is_Some_2 xshape i Hi) as [d Hd].
  destruct (lookup_lt_is_Some_2 idx (lead + i)) as [v Hv]; [lia|].
  rewrite (list_lookup_total_correct _ _ _ Hd).
  rewrite (list_lookup_total_correct _ _ _ Hv).
  apply list_lookup_total_correct.
  rewrite lookup_zip_with, lookup_drop, Hv. simpl. now rewrite Hd.
Qed.

Section BroadcastFacts.

Context {Dtype Primitive : Type}.
Local Abbreviation array := (@array Dtype Primitive).

(** For every coordinate of the output, the stride row of an input
    addresses the element that trailing-aligned broadcasting assigns to
    it: the offset of the output coordinates under the row equals the
    offset under the input's own strides of the coordinates with the
    leading axes dropped and the axes of size 1 read at 0. *)
Lemma broadcast_strides_dot (output_shape out_strides : list Z)
    (x : array) (idx : list Z) :
  (ndim x <= length output_shape)%nat ->
  length (strides x) = ndim x ->
  Forall2 (fun i d => (0 <= i < d)%Z) idx output_shape ->
  let lead := (length output_shape - ndim x)%nat in
  dot idx (broadcast_strides output_shape out_strides x)
  = dot (broadcast_coords (shape x) lead idx) (strides x).
Proof.
  intros Hrank Hstr Hidx lead.
  pose proof (Forall2_length _ _ _ Hidx) as Hlen.
  destruct (broadcast_strides_lookup output_shape out_strides x)
    as (Hrow & Hlead & Haligned). fold lead in Hrow, Hlead, Haligned.
  cbv zeta in Haligned.
  assert (Hunit : forall j : nat, (j < length output_shape)%nat ->
            output_shape !!! j = 1%Z -> idx !!! j = 0%Z).
  { intros j Hj Hone.
    destruct (lookup_lt_is_Some_2 output_shape j Hj) as [d Hd].
    destruct (lookup_lt_is_Some_2 idx j) as [v Hv]; [lia|].
    rewrite (list_lookup_total_correct _ _ _ Hd) in Hone.
    rewrite (list_lookup_total_correct _ _ _ Hv).
    pose proof (Forall2_lookup_lr _ _ _ _ _ _ Hidx Hv Hd) as Hb.
    simpl in Hb. lia. }
  rewrite dot_as_sum by lia. rewrite Hrow, sum_map_app.
  rewrite (sum_map_zero _ 0 lead).
  - rewrite sum_map_shift, dot_as_sum.
    + rewrite Hstr. apply sum_map_ext. intros i Hi.
      rewrite (Haligned i) by lia.
      rewrite broadcast_coords_lookup by (unfold ndim in *; lia).
      destruct (shape x !!! i =? 1)%Z; [|reflexivity].
      destruct (Z.eqb_spec (output_shape !!! (lead + i)%nat) 1) as [E|E];
        [|lia].
      rewrite (Hunit (lead + i)%nat) by (unfold ndim in *; lia || exact E).
      lia.
    + unfold broadcast_coords. rewrite length_zip_with, length_drop.
      unfold ndim in *. lia.
  - intros j Hj. rewrite (Hlead j) by lia.
    destruct (Z.eqb_spec (output_shape !!! j) 1) as [E|E]; [|lia].
    rewrite (Hunit j) by (lia || exact E). lia.
Qed.

(** X7. For every coordinate of the output, the stride row of an input
    addresses the element that trailing-aligned broadcasting assigns to
    it: the offset of the output coordinates under the row equals the
    offset under the input's own strides of the coordinates with the
    leading axes dropped and the axes of size 1 read at 0. *)
Theorem broadcast_strides_address (output_shape out_strides : list Z)
    (x : array) (idx : list Z) :
  (ndim x <= length output_shape)%nat ->
  length (strides x) = ndim x ->
  Forall2 (fun i d => (0 <= i < d)%Z) idx output_shape ->
  let lead := (length output_shape - ndim x)%nat in
  dot idx (broadcast_strides output_shape out_strides x)
  = dot (broadcast_coords (shape x) lead idx) (strides x).
Proof. apply broadcast_strides_dot. Qed.

(** X8. An input that has the shape of the output is read through its own
    strides at every coordinate, whatever the output's strides are: a
    transposed or otherwise permuted view is addressed as it is laid
    out. *)
Theorem broadcast_strides_same_shape (output_shape out_strides : list Z)
    (x : array) (idx : list Z) :
  shape x = output_shape ->
  length (strides x) = ndim x ->
  Forall2 (fun i d => (0 <= i < d)%Z) idx output_shape ->
  dot idx (broadcast_strides output_shape out_strides x)
  = dot idx (strides x).
Proof.
  intros Hshape Hstr Hidx.
  rewrite (broadcast_strides_dot output_shape out_strides x idx);
    [|unfold ndim; rewrite Hshape; lia | exact Hstr | exact Hidx].
  f_equal. unfold ndim. rewrite Hshape, Nat.sub_diag.
  unfold broadcast_coords. rewrite drop_0.
  clear Hshape Hstr.
  induction Hidx as [|i d idx ds Hi _ IH]; simpl; [reflexivity|].
  f_equal; [|exact IH].
  destruct (Z.eqb_spec d 1); [lia | reflexivity].
Qed.

End BroadcastFacts.

(** ** The kernel and the dispatcher side by side *)

Lemma pretty_Z_of_nat (n : nat) : pretty (Z.of_nat n) = pretty n.
Proof. destruct n; reflexivity. Qed.

(** Row [j] of a buffer that concatenates rows of one length. *)
Lemma concat_row_lookup (n : nat) (rows : list (list Z)) (j : nat) :
  Forall (fun r => length r = n) rows ->
  (j < length rows)%nat ->
  take n (drop (j * n) (concat rows)) = rows !!! j.
Proof.
  intros Hrows. revert j.
  induction Hrows as [|r rows Hr _ IH]; intros j Hj; simpl in Hj; [lia|].
  destruct j as [|j]; simpl.
  - rewrite drop_0, take_app_length'; [reflexivity | now symmetry].
  - replace (n + j * n)%nat with (length r + j * n)%nat by lia.
    rewrite drop_app_add. apply IH. lia.
Qed.

Lemma lookup_total_map_seq_rows (f : nat -> list Z) (start n i : nat) :
  (i < n)%nat -> map f (seq start n) !!! i = f (start + i)%nat.
Proof.
  revert start i. induction n as [|n IH]; intros start i Hi; [lia|].
  destruct i as [|i]; simpl.
  - now rewrite Nat.add_0_r.
  - change (map f (seq (S start) n) !!! i = f (start + S i)%nat).
    rewrite IH by lia. f_equal. lia.
Qed.

Section SignatureFacts.

Context {Dtype Primitive NodeNamer : Type}
        {collaborators : @Collaborators Dtype Primitive NodeNamer}.

Local Abbreviation array := (@array Dtype Primitive).
Local Abbreviation param := (@param Dtype Primitive).
Local Abbreviation Compiled := (@Compiled Dtype Primitive).
Local Abbreviation resource := (@resource Dtype Primitive).
Local Abbreviation call := (@call Dtype Primitive).

(** The traced and the runtime inputs are as many, and constants are told
    by the traced identity on both sides. *)
Lemma nonconstant_count_agree (constant_ids : gset N)
    (xs_ xs : list array) :
  length xs_ = length xs ->
  length (List.filter (fun x => negb (is_constant constant_ids x)) xs_)
  = length (nonconstant_inputs constant_ids (zip xs_ xs)).
Proof.
  unfold nonconstant_inputs. rewrite length_map.
  revert xs. induction xs_ as [|x_ xs_ IH]; intros [|x xs] Hlen;
    simpl in *; try reflexivity; try discriminate.
  destruct (is_constant constant_ids x_); simpl; [|f_equal]; apply IH; lia.
Qed.

(** When the traced and the runtime inputs agree on which are scalars,
    the generator and the dispatcher count the same inputs read through
    strides. *)
Lemma strided_count_agree (constant_ids : gset N) (xs_ xs : list array) :
  Forall2 (fun x_ x => is_scalar x_ = is_scalar x) xs_ xs ->
  length (List.filter (reads_through_strides constant_ids false) xs_)
  = length (strided_inputs constant_ids (zip xs_ xs)).
Proof.
  unfold strided_inputs, nonconstant_inputs, reads_through_strides.
  induction 1 as [|x_ x xs_ xs Hx _ IH]; simpl; [reflexivity|].
  destruct (is_constant constant_ids x_); simpl; [exact IH|].
  rewrite orb_false_r, Hx.
  destruct (is_scalar x); simpl; [|f_equal]; exact IH.
Qed.

Lemma existsb_filter_length {A : Type} (f : A -> bool) (l : list A) :
  existsb f l = negb (length (List.filter f l) =? 0)%nat.
Proof.
  induction l as [|x l IH]; simpl; [reflexivity|].
  destruct (f x); simpl; [reflexivity | exact IH].
Qed.

Lemma existsb_contiguous (constant_ids : gset N) (xs : list array) :
  existsb (reads_through_strides constant_ids true) xs = false.
Proof.
  induction xs as [|x xs IH]; simpl; [reflexivity|].
  unfold reads_through_strides at 1.
  now rewrite orb_true_r, andb_false_r.
Qed.

Lemma input_params_kinds (constant_ids : gset N) (contiguous : bool)
    (xs : list array) :
  forall namer cnt add_indices ps namer' cnt' add_indices',
  input_params constant_ids contiguous xs namer cnt add_indices
  = (ps, namer', cnt', add_indices') ->
  map param_kind ps = repeat KInput (length ps).
Proof.
  induction xs as [|x xs IH]; intros namer cnt ai ps namer' cnt' ai' E;
    simpl in E.
  - inversion E; subst. reflexivity.
  - destruct (get_name namer x) as [xname namer1].
    destruct (is_constant constant_ids x).
    + now apply IH in E.
    + destruct (input_params _ _ xs namer1 (S cnt) _)
        as [[[ps1 namer2] cnt2] ai2] eqn:E1.
      inversion E; subst. apply IH in E1. simpl. now rewrite E1.
Qed.

Lemma output_params_kinds (xs : list array) :
  forall namer cnt ps namer' cnt',
  output_params xs namer cnt = (ps, namer', cnt') ->
  map param_kind ps = repeat KOutput (length xs).
Proof.
  induction xs as [|x xs IH]; intros namer cnt ps namer' cnt' E; simpl in E.
  - inversion E; subst. reflexivity.
  - destruct (get_name namer x) as [xname namer1].
    destruct (output_params xs namer1 (S cnt)) as [[ps1 namer2] cnt2] eqn:E1.
    inversion E; subst. apply IH in E1. simpl. now rewrite E1.
Qed.

(** The kinds of the parameters of a generated kernel, in order. *)
Lemma gen_kernel_kinds (constant_ids : gset N) (contiguous : bool)
    (ndim_arg : Z) (dynamic_dims : bool) (kernel_name : string)
    (inputs outputs tape : list array) (use_big_index : bool) :
  map param_kind
    (k_params (fst (gen_kernel constant_ids contiguous ndim_arg dynamic_dims
                      kernel_name inputs outputs tape use_big_index)))
  = repeat KInput
      (length (List.filter (fun x => negb (is_constant constant_ids x))
                 inputs))
    ++ (if existsb (reads_through_strides constant_ids contiguous) inputs
        then [KInStrides] else [])
    ++ repeat KOutput (length outputs)
    ++ (if contiguous then [] else [KOutStrides; KOutShape])
    ++ (if dynamic_dims then [KNdim] else []).
Proof.
  unfold gen_kernel.
  destruct (input_params _ _ inputs new_namer 0 false)
    as [[[in_ps namer1] cnt1] ai] eqn:Ein.
  pose proof (input_params_kinds _ _ _ _ _ _ _ _ _ _ Ein) as Hk1.
  apply input_params_spec in Ein as (_ & _ & Hl1 & _ & Hai).
  simpl in Hai. subst ai. rewrite <- Hl1.
  destruct (existsb _ inputs); cbn iota;
    (destruct (output_params outputs namer1 _)
       as [[out_ps namer2] cnt3] eqn:Eout;
     apply output_params_kinds in Eout as Hk3);
    destruct contiguous, dynamic_dims; cbn iota; cbn [negb];
    destruct (input_loads _ _ _ _ inputs namer2 0) as [loads namer3];
    destruct (tape_stmts tape namer3) as [body namer4];
    destruct (output_stores outputs namer4) as [stores namer5];
    cbn [fst k_params]; rewrite !map_app, Hk1, Hk3; reflexivity.
Qed.

(** The kinds of the resources the binding order lists. *)
Lemma binding_order_kinds (c : Compiled) (a : analysis)
    (inputs outputs : list array) :
  map resource_kind (binding_order c a inputs outputs)
  = repeat KInput
      (length (nonconstant_inputs (constant_ids_ c) (zip (inputs_ c) inputs)))
    ++ (if negb (a_contiguous a)
           && negb (length (strided_inputs (constant_ids_ c)
                              (zip (inputs_ c) inputs)) =? 0)%nat
        then [KInStrides] else [])
    ++ repeat KOutput (length outputs)
    ++ (if a_contiguous a then [] else [KOutStrides; KOutShape])
    ++ (if negb (a_contiguous a) && is_dynamic a then [KNdim] else []).
Proof.
  unfold binding_order.
  set (ins := nonconstant_inputs _ _). set (strided := strided_inputs _ _).
  assert (Hins : forall l : list array,
            map resource_kind (map InputBuffer l) = repeat KInput (length l)).
  { induction l as [|x l IH]; simpl; [reflexivity | now rewrite IH]. }
  assert (Houts : forall l : list array,
            map resource_kind (map OutputBuffer l) = repeat KOutput (length l)).
  { induction l as [|x l IH]; simpl; [reflexivity | now rewrite IH]. }
  assert (Hs : bool_decide (strided = []) = (length strided =? 0)%nat).
  { destruct strided; reflexivity. }
  rewrite !map_app, Hins, Houts, Hs.
  destruct (a_contiguous a), (length strided =? 0)%nat, (is_dynamic a);
    reflexivity.
Qed.

(** The name the dispatcher asks for is the name of the selected
    variant. *)
Lemma select_kernel_name_variant (lib : string) (a : analysis) :
  select_kernel_name lib a = lib +:+ v_suffix (selected_variant a).
Proof.
  unfold select_kernel_name, selected_variant.
  destruct (a_contiguous a), (a_use_2d a), (is_dynamic a); simpl;
    rewrite ?append_assoc, ?pretty_Z_of_nat; reflexivity.
Qed.

(** X9. The kernel the dispatcher selects declares exactly what the
    dispatcher binds: it carries the name asked for, and its parameter
    list has, slot for slot, the kind of the resource bound at that slot
    (input buffer, input strides, output buffer, output strides, output
    shape, rank).  This needs the traced and the runtime inputs to agree
    on which are scalars, as many outputs as were traced, and a non-empty
    stride row on the strided path. *)
Theorem kernel_signature_matches_bindings (c : Compiled)
    (inputs : list array) (out0 : array) (outs : list array) :
  let a := analyze c inputs out0 in
  let lib := library_name c in
  let k := fst (variant_kernel c lib (selected_variant a)) in
  let bound := bindings (bind_arguments c a inputs (out0 :: outs)) in
  Forall2 (fun x_ x => is_scalar x_ = is_scalar x) (inputs_ c) inputs ->
  length (outputs_ c) = S (length outs) ->
  (a_contiguous a = false ->
   strided_inputs (constant_ids_ c) (zip (inputs_ c) inputs) <> [] ->
   a_strides a !!! 1%nat <> []) ->
  k_name k = select_kernel_name lib a
  /\ map param_kind (k_params k) = map (fun b => resource_kind (fst b)) bound
  /\ map slot_of (k_params k) = map snd bound.
Proof.
  intros a lib k bound Hsc Houts Hrow.
  assert (Hdyn : a_contiguous a = true -> is_dynamic a = false).
  { intros Ha. now apply analyze_contiguous in Ha. }
  assert (Hb : bound = zip (binding_order c a inputs (out0 :: outs))
                 (seq 0 (length (binding_order c a inputs (out0 :: outs))))).
  { subst bound. apply bind_arguments_bindings; assumption. }
  pose proof (gen_kernel_params (constant_ids_ c)
                (v_contiguous (selected_variant a))
                (v_ndim (selected_variant a))
                (v_dynamic_dims (selected_variant a))
                (lib +:+ v_suffix (selected_variant a))
                (inputs_ c) (outputs_ c) (tape_ c)
                (v_use_big_index (selected_variant a)))
    as (Hcnt & Hslots & _ & _ & Hname).
  cbv zeta in Hcnt, Hslots, Hname. fold (variant_kernel c lib (selected_variant a)) in *.
  fold k in Hcnt, Hslots, Hname.
  assert (Hkinds : map param_kind (k_params k)
                   = map resource_kind
                       (binding_order c a inputs (out0 :: outs))).
  { subst k. unfold variant_kernel. rewrite gen_kernel_kinds.
    rewrite binding_order_kinds.
    rewrite (nonconstant_count_agree (constant_ids_ c) (inputs_ c) inputs)
      by (eapply Forall2_length; exact Hsc).
    rewrite Houts. simpl length.
    unfold selected_variant.
    destruct (a_contiguous a) eqn:Ha.
    - rewrite (Hdyn eq_refl).
      destruct (a_use_2d a); simpl; now rewrite existsb_contiguous.
    - destruct (is_dynamic a); simpl;
        now rewrite existsb_filter_length, (strided_count_agree _ _ _ Hsc). }
  split; [now rewrite Hname, select_kernel_name_variant|].
  rewrite Hb. split.
  - rewrite Hkinds, <- (map_map fst resource_kind), map_fst_zip_seq.
    reflexivity.
  - rewrite Hslots, Hcnt, map_snd_zip_seq.
    rewrite <- (length_map param_kind), Hkinds, length_map. reflexivity.
Qed.

(** X10. In a static strided variant the load of the j-th input read
    through strides starts at offset [j * N] of the input-stride buffer,
    and that is where the dispatcher has put the collapsed stride row of
    that input: the [N] entries from there on are row [j + 1] of the
    collapsed strides.  The collapsed strides are assumed to be one row
    for the output followed by one per such input, each of the collapsed
    rank [N]. *)
Theorem static_offsets_meet_rows (c : Compiled) (lib : string)
    (a : analysis) (inputs outputs : list array) (n : nat) :
  let m := length (strided_inputs (constant_ids_ c)
                     (zip (inputs_ c) inputs)) in
  let k := fst (variant_kernel c lib (strided_static (Z.of_nat n))) in
  let cs := bind_arguments c a inputs outputs in
  Forall2 (fun x_ x => is_scalar x_ = is_scalar x) (inputs_ c) inputs ->
  a_contiguous a = false ->
  (1 <= n)%nat ->
  length (a_strides a) = S m ->
  Forall (fun row => length row = n) (a_strides a) ->
  length (stride_offsets (k_loads k)) = m
  /\ ((1 <= m)%nat ->
      exists d, bound_in_strides cs = [d]
        /\ forall (j : nat) (offset : Z),
             stride_offsets (k_loads k) !! j = Some offset ->
             offset = (Z.of_nat j * Z.of_nat n)%Z
             /\ take n (drop (Z.to_nat offset) d) = a_strides a !!! S j).
Proof.
  intros m k cs Hsc Ha Hn Hlen Hrows.
  assert (Hoff : stride_offsets (k_loads k)
                 = map (fun j : nat => (Z.of_nat j * Z.of_nat n)%Z) (seq 0 m)).
  { subst k. unfold variant_kernel. simpl.
    rewrite gen_kernel_stride_offsets.
    now rewrite (strided_count_agree _ _ _ Hsc). }
  split; [now rewrite Hoff, length_map, length_seq|].
  intros Hm.
  set (rows := map (fun k : nat => a_strides a !!! S k) (seq 0 m)).
  assert (Hrows' : Forall (fun r => length r = n) rows).
  { subst rows. apply Forall_forall. intros r Hr.
    apply list_elem_of_In, in_map_iff in Hr as (i & <- & Hi).
    apply in_seq in Hi.
    rewrite Forall_forall in Hrows. apply Hrows.
    apply list_elem_of_lookup_total_2. lia. }
  exists (concat rows). split.
  - subst cs. unfold bind_arguments.
    destruct (bind_inputs _ a _ 0 1 []) as [[in_calls cnt] in_strides] eqn:E.
    apply bind_inputs_spec in E as (-> & -> & ->). rewrite Ha. simpl.
    fold m. fold rows.
    set (ins := nonconstant_inputs _ _).
    assert (Hne : exists z zs, concat rows = z :: zs).
    { subst rows. destruct m as [|m']; [lia|]. simpl.
      assert (Hr1 : length (a_strides a !!! 1%nat) = n).
      { rewrite Forall_forall in Hrows. apply Hrows.
        apply list_elem_of_lookup_total_2. lia. }
      destruct (a_strides a !!! 1%nat) as [|z zs]; [simpl in Hr1; lia|].
      simpl. eauto. }
    destruct Hne as (z & zs & Hne). rewrite Hne. rewrite <- Hne.
    destruct (bind_outputs outputs (S (length ins))) as [out_calls cnt] eqn:Eo.
    apply bind_outputs_spec in Eo as (-> & ->).
    rewrite !bound_in_strides_app.
    rewrite (bound_in_strides_zip_with InputBuffer) by discriminate.
    simpl.
    rewrite !bound_in_strides_app.
    rewrite (bound_in_strides_zip_with OutputBuffer) by discriminate.
    simpl. now destruct (is_dynamic a).
  - intros j offset Hj. rewrite Hoff in Hj.
    rewrite list_lookup_fmap in Hj.
    destruct (seq 0 m !! j) as [i|] eqn:Ei; [|discriminate].
    apply lookup_seq in Ei as [-> Hjm]. simpl in Hj. inversion Hj; subst.
    split; [reflexivity|].
    replace (Z.to_nat (Z.of_nat j * Z.of_nat n)) with (j * n)%nat by lia.
    rewrite concat_row_lookup; [|exact Hrows' | ].
    + subst rows. now rewrite lookup_total_map_seq_rows.
    + subst rows. now rewrite length_map, length_seq.
Qed.

End SignatureFacts.

(** ** What the variants of a library share *)

Section ComputationFacts.

Context {Dtype Primitive NodeNamer : Type}
        {collaborators : @Collaborators Dtype Primitive NodeNamer}.

Local Abbreviation array := (@array Dtype Primitive).
Local Abbreviation Compiled := (@Compiled Dtype Primitive).
Local Abbreviation load := (@load Dtype Primitive).
Local Abbreviation store := (@store Dtype Primitive).

(** Every loop over the inputs or the outputs looks each array up once, in
    order, whatever it writes: it leaves the namer as [get_names] does. *)
Lemma input_params_namer (constant_ids : gset N) (contiguous : bool)
    (xs : list array) :
  forall namer cnt add_indices,
  snd (fst (fst (input_params constant_ids contiguous xs namer cnt
                   add_indices)))
  = snd (get_names xs namer).
Proof.
  induction xs as [|x xs IH]; intros namer cnt ai; simpl; [reflexivity|].
  destruct (get_name namer x) as [xname namer1].
  specialize (IH namer1).
  destruct (get_names xs namer1) as [names namer2] eqn:En. simpl in IH.
  destruct (is_constant constant_ids x); simpl; [now rewrite IH|].
  specialize (IH (S cnt) (if is_scalar x || contiguous then ai else true)).
  destruct (input_params _ _ xs namer1 _ _) as [[[ps n2] cnt2] ai2].
  simpl in *. exact IH.
Qed.

Lemma output_params_namer (xs : list array) :
  forall namer cnt,
  snd (fst (output_params xs namer cnt)) = snd (get_names xs namer).
Proof.
  induction xs as [|x xs IH]; intros namer cnt; simpl; [reflexivity|].
  destruct (get_name namer x) as [xname namer1].
  specialize (IH namer1 (S cnt)).
  destruct (get_names xs namer1) as [names namer2].
  destruct (output_params xs namer1 (S cnt)) as [[ps n2] cnt2].
  simpl in *. exact IH.
Qed.

Lemma input_loads_names (constant_ids : gset N) (contiguous : bool)
    (ndim_arg : Z) (dynamic_dims : bool) (xs : list array) :
  forall namer nc_in_count,
  let r := input_loads constant_ids contiguous ndim_arg dynamic_dims xs
             namer nc_in_count in
  map load_name (fst r) = fst (get_names xs namer)
  /\ map load_array (fst r) = xs
  /\ snd r = snd (get_names xs namer).
Proof.
  induction xs as [|x xs IH]; intros namer nc; simpl; [auto|].
  destruct (get_name namer x) as [xname namer1].
  pose proof (IH namer1 nc) as IH0.
  pose proof (IH namer1 (nc + 1)%Z) as IH1.
  destruct (get_names xs namer1) as [names namer2]. cbv zeta in IH0, IH1.
  destruct (is_constant constant_ids x);
    [|destruct (is_scalar x);
      [|destruct contiguous; [|destruct (negb dynamic_dims)]]];
    match goal with
    | |- context [input_loads _ _ _ _ xs namer1 ?n] =>
        destruct (input_loads constant_ids _ ndim_arg dynamic_dims xs
                    namer1 n) as [ls n2]
    end; simpl in *;
    try (destruct IH0 as (-> & -> & ->); auto);
    try (destruct IH1 as (-> & -> & ->); auto).
Qed.

(** The computation and the stores of a generated kernel depend on the
    arrays alone. *)
Lemma gen_kernel_computation (constant_ids : gset N) (contiguous : bool)
    (ndim_arg : Z) (dynamic_dims : bool) (kernel_name : string)
    (inputs outputs tape : list array) (use_big_index : bool) :
  let k := fst (gen_kernel constant_ids contiguous ndim_arg dynamic_dims
                  kernel_name inputs outputs tape use_big_index) in
  let namer1 := snd (get_names inputs new_namer) in
  let namer2 := snd (get_names outputs namer1) in
  let namer3 := snd (get_names inputs namer2) in
  let namer4 := snd (tape_stmts tape namer3) in
  map load_array (k_loads k) = inputs
  /\ map load_name (k_loads k) = fst (get_names inputs namer2)
  /\ k_tape k = fst (tape_stmts tape namer3)
  /\ k_stores k = fst (output_stores outputs namer4)
  /\ k_big_index k = use_big_index.
Proof.
  unfold gen_kernel.
  pose proof (input_params_namer constant_ids contiguous inputs new_namer 0
                false) as H1.
  destruct (input_params _ _ inputs new_namer 0 false)
    as [[[in_ps namer1] cnt1] ai].
  simpl in H1. subst namer1.
  destruct (if ai then _ else _) as [stride_ps cnt2].
  pose proof (output_params_namer outputs (snd (get_names inputs new_namer))
                cnt2) as H2.
  destruct (output_params outputs _ cnt2) as [[out_ps namer2] cnt3].
  simpl in H2. subst namer2.
  destruct (if negb contiguous then _ else _) as [shape_ps cnt4].
  destruct (if dynamic_dims then _ else _) as [ndim_ps cnt5].
  pose proof (input_loads_names constant_ids contiguous ndim_arg dynamic_dims
                inputs (snd (get_names outputs
                               (snd (get_names inputs new_namer)))) 0)
    as (H3 & H3a & H3b).
  destruct (input_loads _ _ _ _ inputs _ 0) as [loads namer3].
  simpl in H3, H3a, H3b. subst namer3.
  destruct (tape_stmts tape _) as [body namer4].
  destruct (output_stores outputs namer4) as [stores namer5] eqn:Es.
  simpl. rewrite Es. auto.
Qed.

(** X11. Every variant of a library performs the same computation: any
    two of them read the same inputs into temporaries of the same names,
    in the same order, and have the same tape lines and the same stores.
    The variants differ only in the parameters, the index line and the
    address each load reads at. *)
Theorem variants_share_computation (c : Compiled) (lib : string)
    (v1 v2 : variant) :
  let k1 := fst (variant_kernel c lib v1) in
  let k2 := fst (variant_kernel c lib v2) in
  map load_array (k_loads k1) = inputs_ c
  /\ map load_array (k_loads k2) = inputs_ c
  /\ map load_name (k_loads k1) = map load_name (k_loads k2)
  /\ k_tape k1 = k_tape k2
  /\ k_stores k1 = k_stores k2.
Proof.
  unfold variant_kernel.
  pose proof (gen_kernel_computation (constant_ids_ c) (v_contiguous v1)
                (v_ndim v1) (v_dynamic_dims v1) (lib +:+ v_suffix v1)
                (inputs_ c) (outputs_ c) (tape_ c) (v_use_big_index v1))
    as (A1 & B1 & C1 & D1 & _).
  pose proof (gen_kernel_computation (constant_ids_ c) (v_contiguous v2)
                (v_ndim v2) (v_dynamic_dims v2) (lib +:+ v_suffix v2)
                (inputs_ c) (outputs_ c) (tape_ c) (v_use_big_index v2))
    as (A2 & B2 & C2 & D2 & _).
  cbv zeta in *. rewrite A1, A2, B1, B2, C1, C2, D1, D2. auto.
Qed.

Lemma output_stores_length (xs : list array) :
  forall namer, length (fst (output_stores xs namer)) = length xs.
Proof.
  induction xs as [|x xs IH]; intros namer; simpl; [reflexivity|].
  destruct (get_name namer x) as [lhs namer1].
  destruct (get_name namer1 x) as [rhs namer2].
  specialize (IH namer2).
  destruct (output_stores xs namer2) as [ss namer3]. simpl in *.
  now rewrite IH.
Qed.

Section ThreadFacts.

Context {V : Type} {metal : @MetalRuntime Dtype Primitive V}.

Lemma eval_stores_index (index : Z) (tmp : gmap string V)
    (ss : list store) (writes : list (string * Z * V)) :
  mapM (eval_store index tmp) ss = Some writes ->
  length writes = length ss
  /\ Forall (fun w => snd (fst w) = index) writes.
Proof.
  intros Hm. apply mapM_Some in Hm.
  induction Hm as [|s w ss ws Hs _ [IH1 IH2]]; simpl; [auto|].
  split; [now rewrite IH1|]. constructor; [|exact IH2].
  destruct s as [x lhs rhs]. simpl in Hs.
  destruct (tmp !! rhs); simpl in Hs; [|discriminate].
  now inversion Hs.
Qed.

Lemma exec_thread_writes (c : Compiled) (lib : string) (v : variant)
    (args : kernel_args V) (pos grid : uint3)
    (writes : list (string * Z * V)) :
  exec_thread args pos grid (fst (variant_kernel c lib v)) = Some writes ->
  length writes = length (outputs_ c)
  /\ Forall (fun w => snd (fst w) = eval_index pos grid (v_use_big_index v))
            writes.
Proof.
  unfold exec_thread, variant_kernel.
  pose proof (gen_kernel_computation (constant_ids_ c) (v_contiguous v)
                (v_ndim v) (v_dynamic_dims v) (lib +:+ v_suffix v)
                (inputs_ c) (outputs_ c) (tape_ c) (v_use_big_index v))
    as (_ & _ & _ & Hst & Hbig).
  cbv zeta in Hst, Hbig. rewrite Hst, Hbig. intros E.
  destruct (eval_loads _ _ _ _ _) as [tmp1|]; simpl in E; [|discriminate].
  destruct (eval_tape _ _) as [tmp2|]; simpl in E; [|discriminate].
  apply eval_stores_index in E as [Hlen Hall].
  now rewrite output_stores_length in Hlen.
Qed.

(** X12. A launch is free of write conflicts: each thread writes one
    element of every output, at its own linear index, and two different
    threads of the grid never write the same element.  The grid is assumed
    to fit the index type of the variant: at most 2^32 threads for the
    32-bit index, a two-dimensional grid of at most 2^64 threads for the
    64-bit index. *)
Theorem threads_never_collide (c : Compiled) (lib : string) (v : variant)
    (args : kernel_args V) (grid p q : uint3)
    (wp wq : list (string * Z * V)) :
  let k := fst (variant_kernel c lib v) in
  (if v_use_big_index v
   then u_z grid = 1%Z /\ (u_x grid * u_y grid <= 2 ^ 64)%Z
   else (u_x grid * u_y grid * u_z grid <= 2 ^ 32)%Z) ->
  in_grid p grid -> in_grid q grid -> p <> q ->
  exec_thread args p grid k = Some wp ->
  exec_thread args q grid k = Some wq ->
  length wp = length (outputs_ c)
  /\ Forall (fun w => snd (fst w) = eval_index p grid (v_use_big_index v)) wp
  /\ forall a b, In a wp -> In b wq -> snd (fst a) <> snd (fst b).
Proof.
  intros k Hfit Hp Hq Hne Ep Eq.
  apply exec_thread_writes in Ep as [Hlp Hap].
  apply exec_thread_writes in Eq as [Hlq Haq].
  split; [exact Hlp|]. split; [exact Hap|].
  intros a b Ha Hb E.
  rewrite Forall_forall in Hap, Haq.
  apply list_elem_of_In in Ha, Hb.
  rewrite (Hap a Ha), (Haq b Hb) in E. apply Hne.
  destruct (v_use_big_index v).
  - destruct Hfit as [Hz Hfit]. now apply (big_index_inj grid).
  - now apply (narrow_index_inj grid).
Qed.

End ThreadFacts.

End ComputationFacts.

(** ** Generated kernels are well scoped and compute the tape *)

Section ScopingFacts.

Context {Dtype Primitive NodeNamer : Type}
        {collaborators : @Collaborators Dtype Primitive NodeNamer}.

Local Abbreviation array := (@array Dtype Primitive).
Local Abbreviation Compiled := (@Compiled Dtype Primitive).
Local Abbreviation load := (@load Dtype Primitive).
Local Abbreviation stmt := (@stmt Dtype Primitive).
Local Abbreviation store := (@store Dtype Primitive).

Lemma get_names_app (xs ys : list array) (namer : NodeNamer) :
  get_names (xs ++ ys) namer
  = (fst (get_names xs namer)
     ++ fst (get_names ys (snd (get_names xs namer))),
     snd (get_names ys (snd (get_names xs namer)))).
Proof.
  revert namer. induction xs as [|x xs IH]; intros namer; simpl.
  - now destruct (get_names ys namer).
  - destruct (get_name namer x) as [xname namer1]. rewrite IH.
    destruct (get_names xs namer1) as [names namer2]. reflexivity.
Qed.

Lemma get_names_length (xs : list array) (namer : NodeNamer) :
  length (fst (get_names xs namer)) = length xs.
Proof.
  revert namer. induction xs as [|x xs IH]; intros namer; simpl;
    [reflexivity|].
  destruct (get_name namer x) as [xname namer1]. specialize (IH namer1).
  destruct (get_names xs namer1) as [names namer2]. simpl in *.
  now rewrite IH.
Qed.

(** Names given along a concatenation split as the concatenation does. *)
Lemma get_names_app_map (f : array -> string) (xs ys : list array)
    (namer : NodeNamer) :
  fst (get_names (xs ++ ys) namer) = map f (xs ++ ys) ->
  fst (get_names xs namer) = map f xs
  /\ fst (get_names ys (snd (get_names xs namer))) = map f ys.
Proof.
  rewrite get_names_app, map_app. simpl. intros E.
  apply app_inj_1 in E; [exact E|].
  now rewrite get_names_length, length_map.
Qed.

(** The tape loop asks for the node and then for the inputs it names. *)
Lemma tape_stmts_names (f : array -> string) (tape : list array) :
  forall namer,
  snd (tape_stmts tape namer)
  = snd (get_names (flat_map (fun x => x :: named_inputs x) tape) namer)
  /\ (fst (get_names (flat_map (fun x => x :: named_inputs x) tape) namer)
      = map f (flat_map (fun x => x :: named_inputs x) tape) ->
      fst (tape_stmts tape namer)
      = map (fun x => TapeStmt x (f x) (map f (named_inputs x))) tape).
Proof.
  induction tape as [|x tape IH]; intros namer; simpl; [auto|].
  destruct (get_name namer x) as [xname namer1].
  rewrite get_names_app.
  assert (Hargs : (if is_static_cast (primitive x)
                   then get_names (take 1 (inputs x)) namer1
                   else get_names (inputs x) namer1)
                  = get_names (named_inputs x) namer1).
  { unfold named_inputs. now destruct (is_static_cast (primitive x)). }
  rewrite Hargs.
  destruct (get_names (named_inputs x) namer1) as [arg_names namer2] eqn:Ea.
  simpl. destruct (IH namer2) as [IH1 IH2].
  destruct (tape_stmts tape namer2) as [ss namer3]. simpl in *.
  split; [exact IH1|].
  intros E. inversion E as [[E1 E2]].
  rewrite map_app in E2. apply app_inj_1 in E2 as [E2 E3].
  - rewrite E2, (IH2 E3). reflexivity.
  - pose proof (get_names_length (named_inputs x) namer1) as Hl.
    rewrite Ea in Hl. simpl in Hl. now rewrite Hl, length_map.
Qed.

Lemma output_stores_names (f : array -> string) (xs : list array) :
  forall namer,
  fst (get_names (flat_map (fun x => [x; x]) xs) namer)
  = map f (flat_map (fun x => [x; x]) xs) ->
  fst (output_stores xs namer) = map (fun x => Store x (f x) (f x)) xs.
Proof.
  induction xs as [|x xs IH]; intros namer; simpl; [reflexivity|].
  destruct (get_name namer x) as [lhs namer1].
  destruct (get_name namer1 x) as [rhs namer2].
  specialize (IH namer2).
  destruct (get_names _ namer2) as [names namer3].
  destruct (output_stores xs namer2) as [ss namer4]. simpl in *.
  intros E. inversion E as [[E1 E2 E3]]. now rewrite (IH E3).
Qed.

(** When the namer names by identity, the lines of a kernel are those of
    the arrays under [name_of]. *)
Lemma gen_kernel_named (name_of : N -> string) (c : Compiled)
    (lib : string) (v : variant) :
  named_by name_of c ->
  let k := fst (variant_kernel c lib v) in
  let nm := fun x : array => name_of (id x) in
  map load_name (k_loads k) = map nm (inputs_ c)
  /\ k_tape k = map (fun x => TapeStmt x (nm x) (map nm (named_inputs x)))
                    (tape_ c)
  /\ k_stores k = map (fun x => Store x (nm x) (nm x)) (outputs_ c).
Proof.
  unfold named_by, lookups, variant_kernel. intros Hn.
  pose proof (gen_kernel_computation (constant_ids_ c) (v_contiguous v)
                (v_ndim v) (v_dynamic_dims v) (lib +:+ v_suffix v)
                (inputs_ c) (outputs_ c) (tape_ c) (v_use_big_index v))
    as (_ & Hl & Ht & Hs & _).
  cbv zeta in *. rewrite Hl, Ht, Hs. clear Hl Ht Hs.
  set (nm := fun x : array => name_of (id x)) in *.
  apply (get_names_app_map nm) in Hn as [_ Hn].
  apply (get_names_app_map nm) in Hn as [_ Hn].
  apply (get_names_app_map nm) in Hn as [H3 Hn].
  apply (get_names_app_map nm) in Hn as [H4 H5].
  destruct (tape_stmts_names nm (tape_ c)
              (snd (get_names (inputs_ c)
                      (snd (get_names (outputs_ c)
                              (snd (get_names (inputs_ c) new_namer)))))))
    as [Hsnd Hfst].
  split; [exact H3|]. split; [exact (Hfst H4)|].
  apply output_stores_names. rewrite Hsnd. exact H5.
Qed.

(** A static load through strides is written for an input that is read
    through strides, with the rank of the variant. *)
Lemma input_loads_strided (constant_ids : gset N) (contiguous : bool)
    (ndim_arg : Z) (dynamic_dims : bool) (xs : list array) :
  forall namer nc_in_count l,
  In l (fst (input_loads constant_ids contiguous ndim_arg dynamic_dims xs
               namer nc_in_count)) ->
  match l with
  | LoadStrided x _ _ n =>
      n = ndim_arg /\ dynamic_dims = false
      /\ existsb (reads_through_strides constant_ids contiguous) xs = true
  | _ => True
  end.
Proof.
  induction xs as [|x xs IH]; intros namer nc l; simpl; [intros []|].
  destruct (get_name namer x) as [xname namer1].
  unfold reads_through_strides at 1.
  destruct (is_constant constant_ids x);
    [|destruct (is_scalar x);
      [|destruct contiguous eqn:Hc; [|destruct dynamic_dims eqn:Hd]]];
    simpl;
    match goal with
    | |- context [input_loads _ _ _ _ xs namer1 ?n] =>
        specialize (IH namer1 n l);
        destruct (input_loads constant_ids _ ndim_arg _ xs namer1 n)
          as [ls n2]
    end; simpl in *; intros [<-|Hl]; try exact I; try (now apply IH);
    try (specialize (IH Hl); destruct l; try exact I;
         destruct IH as (? & ? & ?); auto);
    auto.
Qed.

Lemma gen_kernel_axes (constant_ids : gset N) (contiguous : bool)
    (ndim_arg : Z) (dynamic_dims : bool) (kernel_name : string)
    (inputs outputs tape : list array) (use_big_index : bool) :
  k_axes (fst (gen_kernel constant_ids contiguous ndim_arg dynamic_dims
                 kernel_name inputs outputs tape use_big_index))
  = axis_decls ndim_arg dynamic_dims
      (existsb (reads_through_strides constant_ids contiguous) inputs).
Proof.
  unfold gen_kernel.
  destruct (input_params _ _ inputs new_namer 0 false)
    as [[[in_ps namer1] cnt1] ai] eqn:Ein.
  apply input_params_spec in Ein as (_ & _ & _ & _ & Hai).
  simpl in Hai. subst ai.
  destruct (if existsb _ inputs then _ else _) as [stride_ps cnt2].
  destruct (output_params outputs namer1 cnt2) as [[out_ps namer2] cnt3].
  destruct (if negb contiguous then _ else _) as [shape_ps cnt4].
  destruct (if dynamic_dims then _ else _) as [ndim_ps cnt5].
  destruct (input_loads _ _ _ _ inputs namer2 0) as [loads namer3].
  destruct (tape_stmts tape namer3) as [body namer4].
  destruct (output_stores outputs namer4) as [stores namer5].
  reflexivity.
Qed.

(** The kinds of variant a library holds. *)
Lemma library_variants_cases (v : variant) :
  In v library_variants ->
  v_dynamic_dims v = true
  \/ v_dynamic_dims v = false /\ (1 <= v_ndim v <= 7)%Z
  \/ v_contiguous v = true.
Proof.
  unfold library_variants. simpl.
  intros [<-|[<-|[<-|[<-|[<-|[<-|[<-|[<-|[<-|[<-|[]]]]]]]]]]]; simpl;
    auto; right; left; (split; [reflexivity | lia]).
Qed.

Section Run.

Context {V : Type} {metal : @MetalRuntime Dtype Primitive V}.
Variables (args : kernel_args V) (pos grid : uint3).

(** In a static variant of rank 1 to 7 every axis index a load through
    strides multiplies is declared. *)
Lemma strided_loc_defined (index offset ndim_arg : Z) :
  (1 <= ndim_arg <= 7)%Z ->
  is_Some (strided_loc args
             (map (eval_axis args pos index) (axis_decls ndim_arg false true))
             offset ndim_arg).
Proof.
  intros Hn.
  assert (Hc : (ndim_arg = 1 \/ ndim_arg = 2 \/ ndim_arg = 3 \/ ndim_arg = 4
                \/ ndim_arg = 5 \/ ndim_arg = 6 \/ ndim_arg = 7)%Z) by lia.
  destruct Hc as [->|[->|[->|[->|[->|[->| ->]]]]]];
    unfold strided_loc; simpl; eexists; reflexivity.
Qed.

(** Every load of a library variant can be evaluated. *)
Lemma library_loads_defined (c : Compiled) (lib : string) (v : variant)
    (index : Z) :
  In v library_variants ->
  let k := fst (variant_kernel c lib v) in
  forall l, In l (k_loads k) ->
  is_Some (eval_load args index (map (eval_axis args pos index) (k_axes k)) l).
Proof.
  intros Hv k l Hl. subst k. unfold variant_kernel in *.
  rewrite gen_kernel_axes.
  destruct (gen_kernel_loads (constant_ids_ c) (v_contiguous v) (v_ndim v)
              (v_dynamic_dims v) (lib +:+ v_suffix v) (inputs_ c)
              (outputs_ c) (tape_ c) (v_use_big_index v)) as [namer Hloads].
  rewrite Hloads in Hl. apply input_loads_strided in Hl.
  destruct l as [x s|x s|x s|x s off n|x s off]; simpl;
    try (eexists; reflexivity).
  destruct Hl as (-> & Hd & He). rewrite He.
  apply library_variants_cases in Hv as [Hv|[[_ Hv]|Hv]].
  - congruence.
  - rewrite Hd.
    destruct (strided_loc_defined index off (v_ndim v) Hv) as [loc Hloc].
    rewrite Hloc. simpl. eexists; reflexivity.
  - rewrite Hv in He. now rewrite existsb_contiguous in He.
Qed.

Lemma eval_load_name (index : Z) (axes : list (Z * Z)) (l : load)
    (s : string) (v : V) :
  eval_load args index axes l = Some (s, v) -> s = load_name l.
Proof.
  destruct l as [x n|x n|x n|x n off nd|x n off]; simpl; intros E;
    try (now inversion E).
  destruct (strided_loc args axes off nd); simpl in E; [|discriminate].
  now inversion E.
Qed.

Variable name_of : N -> string.
Variable P : N -> V -> Prop.
Variable ids : list N.

Hypothesis Hover : forall i j v,
  i ∈ ids -> j ∈ ids -> name_of i = name_of j -> P j v -> P i v.

Local Abbreviation nm := (fun x : array => name_of (id x)).
Local Abbreviation Inv tmp known :=
  (forall i : N, i ∈ known ->
     i ∈ ids /\ exists v : V, tmp !! name_of i = Some v /\ P i v).

Lemma Inv_insert (tmp : gmap string V) (known : list N) (i0 : N) (v : V) :
  Inv tmp known -> i0 ∈ ids -> P i0 v ->
  Inv (<[name_of i0 := v]> tmp) (known ++ [i0]).
Proof.
  intros Hinv Hi0 Hp i Hi.
  apply elem_of_app in Hi as [Hi|Hi].
  - destruct (Hinv i Hi) as (Hids & w & Hw & Hpw). split; [exact Hids|].
    destruct (decide (name_of i0 = name_of i)) as [E|E].
    + exists v. rewrite E, lookup_insert_eq. split; [reflexivity|].
      apply (Hover i i0); auto.
    + exists w. rewrite lookup_insert_ne by exact E. auto.
  - apply list_elem_of_singleton in Hi. subst i. split; [exact Hi0|].
    exists v. rewrite lookup_insert_eq. auto.
Qed.

Lemma eval_loads_inv (index : Z) (axes : list (Z * Z)) (ls : list load) :
  forall (tmp : gmap string V) (known : list N),
  (forall l, In l ls -> is_Some (eval_load args index axes l)) ->
  (forall l s v, In l ls -> eval_load args index axes l = Some (s, v) ->
     P (id (load_array l)) v) ->
  (forall l, In l ls -> load_name l = nm (load_array l)) ->
  (forall l, In l ls -> id (load_array l) ∈ ids) ->
  Inv tmp known ->
  exists tmp', eval_loads args index axes ls tmp = Some tmp'
    /\ Inv tmp' (known ++ map (fun l => id (load_array l)) ls).
Proof.
  induction ls as [|l ls IH]; intros tmp known Hdef Hload Hname Hids Hinv.
  - exists tmp. simpl. rewrite app_nil_r. auto.
  - simpl. destruct (Hdef l (or_introl eq_refl)) as [[s v] E].
    rewrite E. simpl.
    pose proof (eval_load_name _ _ _ _ _ E) as Hs.
    rewrite (Hname l (or_introl eq_refl)) in Hs. subst s.
    destruct (IH (<[nm (load_array l) := v]> tmp)
                (known ++ [id (load_array l)])) as (tmp' & E' & Hinv').
    + intros l' Hl'. apply Hdef. now right.
    + intros l' s' v' Hl'. apply Hload. now right.
    + intros l' Hl'. apply Hname. now right.
    + intros l' Hl'. apply Hids. now right.
    + apply Inv_insert; [exact Hinv | apply Hids; now left |].
      apply (Hload l _ _ (or_introl eq_refl) E).
    + exists tmp'. split; [exact E'|].
      now rewrite <- app_assoc in Hinv'.
Qed.

Lemma lookup_names (tmp : gmap string V) (known : list N)
    (ys : list array) :
  Inv tmp known ->
  forallb (fun y => bool_decide (id y ∈ known)) ys = true ->
  exists vs, mapM (fun a : string => tmp !! a) (map nm ys) = Some vs
    /\ Forall2 (fun y v => P (id y) v) ys vs.
Proof.
  intros Hinv. induction ys as [|y ys IH]; simpl; intros Hk.
  - exists []. split; [reflexivity | constructor].
  - apply andb_true_iff in Hk as [Hy Hk]. apply bool_decide_eq_true in Hy.
    destruct (Hinv _ Hy) as (_ & v & Hv & Hp).
    destruct (IH Hk) as (vs & Hvs & Hps).
    exists (v :: vs). rewrite Hv. simpl. rewrite Hvs. simpl.
    split; [reflexivity | now constructor].
Qed.

Lemma eval_tape_inv (tape : list array) :
  forall (tmp : gmap string V) (known : list N),
  closed_tape known tape = true ->
  (forall x, In x tape -> id x ∈ ids) ->
  (forall x, In x tape -> is_static_cast (primitive x) = true ->
     forall y ys v, inputs x = y :: ys -> P (id y) v ->
     P (id x) (static_cast (dtype x) v)) ->
  (forall x, In x tape -> is_static_cast (primitive x) = false ->
     forall vs, Forall2 (fun y v => P (id y) v) (inputs x) vs ->
     P (id x) (apply_primitive (primitive x) vs)) ->
  Inv tmp known ->
  exists tmp',
    eval_tape (map (fun x => TapeStmt x (nm x) (map nm (named_inputs x))) tape)
      tmp = Some tmp'
    /\ Inv tmp' (known ++ map id tape).
Proof.
  induction tape as [|x tape IH]; intros tmp known Hc Hids Hcast Hnode Hinv.
  - exists tmp. simpl. rewrite app_nil_r. auto.
  - simpl in Hc. apply andb_true_iff in Hc as [Hx Hc].
    assert (Hstep : exists v,
              eval_stmt tmp (TapeStmt x (nm x) (map nm (named_inputs x)))
              = Some (<[nm x := v]> tmp) /\ P (id x) v).
    { unfold eval_stmt, named_inputs.
      destruct (inputs x) as [|y ys] eqn:Ei; [discriminate|].
      destruct (is_static_cast (primitive x)) eqn:Es.
      - apply bool_decide_eq_true in Hx.
        destruct (Hinv _ Hx) as (_ & v & Hv & Hp).
        exists (static_cast (dtype x) v). simpl. rewrite Hv. simpl.
        split; [reflexivity|].
        apply (Hcast x (or_introl eq_refl) Es y ys v Ei Hp).
      - destruct (lookup_names tmp known (y :: ys) Hinv Hx)
          as (vs & Hvs & Hps).
        exists (apply_primitive (primitive x) vs). rewrite Hvs. simpl.
        split; [reflexivity|]. rewrite <- Ei in Hps.
        apply (Hnode x (or_introl eq_refl) Es vs Hps). }
    destruct Hstep as (v & Ev & Hp).
    destruct (IH (<[nm x := v]> tmp) (known ++ [id x])) as (tmp' & E' & Hinv').
    + exact Hc.
    + intros x' Hx'. apply Hids. now right.
    + intros x' Hx'. apply Hcast. now right.
    + intros x' Hx'. apply Hnode. now right.
    + apply Inv_insert; [exact Hinv | apply Hids; now left | exact Hp].
    + exists tmp'. simpl map. cbn [eval_tape]. rewrite Ev. simpl.
      split; [exact E'|]. now rewrite <- app_assoc in Hinv'.
Qed.

Lemma eval_stores_inv (index : Z) (tmp : gmap string V) (known : list N)
    (outs : list array) :
  Inv tmp known ->
  forallb (fun o => bool_decide (id o ∈ known)) outs = true ->
  exists writes,
    mapM (eval_store index tmp) (map (fun x => Store x (nm x) (nm x)) outs)
    = Some writes
    /\ Forall2 (fun o w => fst (fst w) = nm o /\ snd (fst w) = index
                           /\ P (id o) (snd w)) outs writes.
Proof.
  intros Hinv. induction outs as [|o outs IH]; simpl; intros Hk.
  - exists []. split; [reflexivity | constructor].
  - apply andb_true_iff in Hk as [Ho Hk]. apply bool_decide_eq_true in Ho.
    destruct (Hinv _ Ho) as (_ & v & Hv & Hp).
    destruct (IH Hk) as (ws & Hws & Hps).
    exists ((nm o, index, v) :: ws). rewrite Hv. simpl. rewrite Hws. simpl.
    split; [reflexivity|]. constructor; [simpl; auto | exact Hps].
Qed.

(** A thread of a kernel whose namer names by identity and whose tape is
    in evaluation order runs to the end, and what holds of the loaded
    values and is kept by the tape lines holds of the values written. *)
Lemma exec_thread_inv (c : Compiled) (lib : string) (v : variant) :
  let k := fst (variant_kernel c lib v) in
  let index := eval_index pos grid (v_use_big_index v) in
  let axes := map (eval_axis args pos index) (k_axes k) in
  ids = map id (lookups c) ->
  named_by name_of c ->
  closed c = true ->
  (forall l, In l (k_loads k) -> is_Some (eval_load args index axes l)) ->
  (forall l s w, In l (k_loads k) -> eval_load args index axes l = Some (s, w) ->
     P (id (load_array l)) w) ->
  (forall x, In x (tape_ c) -> is_static_cast (primitive x) = true ->
     forall y ys w, inputs x = y :: ys -> P (id y) w ->
     P (id x) (static_cast (dtype x) w)) ->
  (forall x, In x (tape_ c) -> is_static_cast (primitive x) = false ->
     forall vs, Forall2 (fun y w => P (id y) w) (inputs x) vs ->
     P (id x) (apply_primitive (primitive x) vs)) ->
  exists writes,
    exec_thread args pos grid k = Some writes
    /\ Forall2 (fun o w => fst (fst w) = nm o /\ snd (fst w) = index
                           /\ P (id o) (snd w)) (outputs_ c) writes.
Proof.
  intros k index axes Hidseq Hnamed Hclosed Hdef Hload Hcast Hnode.
  destruct (gen_kernel_named name_of c lib v Hnamed) as (Hln & Htp & Hst).
  fold k in Hln, Htp, Hst. cbv zeta in Hln, Htp, Hst.
  pose proof (gen_kernel_computation (constant_ids_ c) (v_contiguous v)
                (v_ndim v) (v_dynamic_dims v) (lib +:+ v_suffix v)
                (inputs_ c) (outputs_ c) (tape_ c) (v_use_big_index v))
    as (Hla & _ & _ & _ & Hbig).
  cbv zeta in Hla, Hbig.
  fold (variant_kernel c lib v) in Hla, Hbig. fold k in Hla, Hbig.
  unfold closed in Hclosed. apply andb_true_iff in Hclosed as [Hct Hco].
  assert (Hin_ids : forall x, In x (inputs_ c) -> id x ∈ ids).
  { intros x Hx. rewrite Hidseq. apply list_elem_of_In, in_map.
    unfold lookups. apply in_app_iff. now left. }
  assert (Htape_ids : forall x, In x (tape_ c) -> id x ∈ ids).
  { intros x Hx. rewrite Hidseq. apply list_elem_of_In, in_map.
    unfold lookups. apply in_app_iff. right. apply in_app_iff. right.
    apply in_app_iff. right. apply in_app_iff. left.
    apply in_flat_map. exists x. split; [exact Hx | now left]. }
  destruct (eval_loads_inv index axes (k_loads k) ∅ []) as (tmp1 & E1 & Hinv1).
  - exact Hdef.
  - exact Hload.
  - intros l Hl. apply In_nth_error in Hl as [n Hn].
    assert (Hn1 : nth_error (map load_name (k_loads k)) n = Some (load_name l))
      by now apply map_nth_error.
    assert (Hn2 : nth_error (map load_array (k_loads k)) n
                  = Some (load_array l)) by now apply map_nth_error.
    rewrite Hln in Hn1. rewrite Hla in Hn2.
    rewrite (map_nth_error _ _ _ Hn2) in Hn1. now inversion Hn1.
  - intros l Hl. apply Hin_ids. rewrite <- Hla. now apply in_map.
  - intros i Hi. apply elem_of_nil in Hi. destruct Hi.
  - simpl in Hinv1.
    assert (Hknown : map (fun l => id (load_array l)) (k_loads k)
                     = map id (inputs_ c)).
    { rewrite <- Hla, map_map. reflexivity. }
    rewrite Hknown in Hinv1.
    destruct (eval_tape_inv (tape_ c) tmp1 (map id (inputs_ c)))
      as (tmp2 & E2 & Hinv2); try assumption.
    rewrite <- map_app in Hinv2.
    destruct (eval_stores_inv index tmp2 _ (outputs_ c) Hinv2 Hco)
      as (writes & E3 & Hw).
    exists writes. split; [|exact Hw].
    unfold exec_thread. rewrite Hbig. fold index. fold axes.
    rewrite E1. simpl. rewrite Htp, E2. simpl. rewrite Hst. exact E3.
Qed.

End Run.

End ScopingFacts.

Section TapeFacts.

Context {Dtype Primitive NodeNamer : Type}
        {collaborators : @Collaborators Dtype Primitive NodeNamer}
        {V : Type} {metal : @MetalRuntime Dtype Primitive V}.

Local Abbreviation array := (@array Dtype Primitive).
Local Abbreviation Compiled := (@Compiled Dtype Primitive).

Lemma names_apart_spec (name_of : N -> string) (c : Compiled) (i j : N) :
  names_apart name_of c = true ->
  i ∈ map id (lookups c) -> j ∈ map id (lookups c) ->
  name_of i = name_of j -> i = j.
Proof.
  unfold names_apart. intros Ha Hi Hj E.
  apply list_elem_of_In, in_map_iff in Hi as (x & <- & Hx).
  apply list_elem_of_In, in_map_iff in Hj as (y & <- & Hy).
  rewrite forallb_forall in Ha. specialize (Ha x Hx).
  rewrite forallb_forall in Ha. specialize (Ha y Hy).
  rewrite E, String.eqb_refl in Ha. simpl in Ha.
  now apply N.eqb_eq in Ha.
Qed.

(** X13. The kernels of a library are well scoped: when the namer names
    by identity and the tape is in evaluation order, a thread of any
    variant finds every temporary it reads declared by an earlier line,
    every axis index a load multiplies declared, and runs to the end; it
    writes once to each output, in order, under the output's name. *)
Theorem library_kernels_run (c : Compiled) (lib : string) (v : variant)
    (name_of : N -> string) (args : kernel_args V) (pos grid : uint3) :
  named_by name_of c ->
  closed c = true ->
  In v library_variants ->
  exists writes,
    exec_thread args pos grid (fst (variant_kernel c lib v)) = Some writes
    /\ map (fun w => fst (fst w)) writes
       = map (fun o => name_of (id o)) (outputs_ c).
Proof.
  intros Hnamed Hclosed Hv.
  destruct (exec_thread_inv args pos grid name_of (fun _ _ => True)
              (map id (lookups c)) ltac:(auto) c lib v eq_refl Hnamed Hclosed)
    as (writes & E & Hw); auto.
  - intros l Hl. exact (library_loads_defined args pos c lib v _ Hv l Hl).
  - exists writes. split; [exact E|]. clear E.
    induction Hw as [|o w outs ws (H1 & _) _ IH]; simpl; [reflexivity|].
    f_equal; [exact H1 | exact IH].
Qed.

(** X14. A kernel computes the tape: let [val] give every input the
    value its load line reads and every tape node the value of its line
    from the values of the inputs it names.  Then, when different
    identities have different names, the thread writes to each output the
    value of that output, at the thread's linear index. *)
Theorem kernel_computes_tape (c : Compiled) (lib : string) (v : variant)
    (name_of : N -> string) (val : N -> V)
    (args : kernel_args V) (pos grid : uint3) :
  let k := fst (variant_kernel c lib v) in
  let index := eval_index pos grid (v_use_big_index v) in
  let axes := map (eval_axis args pos index) (k_axes k) in
  named_by name_of c ->
  names_apart name_of c = true ->
  closed c = true ->
  In v library_variants ->
  (forall l s w, In l (k_loads k) ->
     eval_load args index axes l = Some (s, w) -> val (id (load_array l)) = w) ->
  (forall x, In x (tape_ c) -> val (id x) = node_value val x) ->
  exec_thread args pos grid k
  = Some (map (fun o => (name_of (id o), index, val (id o))) (outputs_ c)).
Proof.
  intros k index axes Hnamed Hapart Hclosed Hv Hload Hnode.
  destruct (exec_thread_inv args pos grid name_of (fun i w => w = val i)
              (map id (lookups c))) with (c := c) (lib := lib) (v := v)
    as (writes & E & Hw); auto.
  - intros i j w Hi Hj En ->. f_equal.
    symmetry. exact (names_apart_spec name_of c i j Hapart Hi Hj En).
  - intros l Hl. exact (library_loads_defined args pos c lib v _ Hv l Hl).
  - intros l s w Hl El. symmetry. exact (Hload l s w Hl El).
  - intros x Hx Hc y ys w Hi ->. rewrite (Hnode x Hx). unfold node_value.
    now rewrite Hc, Hi.
  - intros x Hx Hc vs Hvs. rewrite (Hnode x Hx). unfold node_value.
    rewrite Hc. f_equal.
    induction Hvs as [|y w ys ws -> _ IH]; simpl; [reflexivity|].
    now rewrite IH.
  - unfold k. rewrite E. f_equal. fold index in Hw. clear E.
    induction Hw as [|o w outs ws (H1 & H2 & H3) _ IH]; simpl; [reflexivity|].
    rewrite <- IH. f_equal. destruct w as [[a b] d]. simpl in *.
    now subst.
Qed.

End TapeFacts.

(** ** The address a static strided load reads *)

Lemma mapM_map_Some {A B : Type} (f : A -> option B) (g : A -> B)
    (l : list A) :
  (forall x, In x l -> f x = Some (g x)) -> mapM f l = Some (map g l).
Proof.
  induction l as [|x l IH]; intros Hf; simpl; [reflexivity|].
  rewrite (Hf x (or_introl eq_refl)). simpl.
  rewrite IH by (intros y Hy; apply Hf; now right). reflexivity.
Qed.

Lemma seqZ_from_zero (n : nat) :
  (1 <= n)%nat ->
  (0 :: seqZ 1 (Z.of_nat n - 1))%Z = map Z.of_nat (seq 0 n).
Proof.
  intros Hn. destruct n as [|n]; [lia|]. simpl. f_equal.
  replace (Z.of_nat (S n) - 1)%Z with (Z.of_nat n) by lia.
  unfold seqZ. rewrite Nat2Z.id, <- seq_shift, map_map.
  apply map_ext. intros i. lia.
Qed.

(** X15. In a static strided kernel launched on the grid of the collapsed
    shape, the load that starts at [offset] of the input-stride buffer
    reads the element whose address is the dot product of the row-major
    coordinates of the thread's linear index with the stride row found at
    [offset].  The output is row-major with fewer than 2^32 elements and
    no empty axis, and the row lies inside the buffer. *)
Theorem strided_load_address {V : Type} (args : kernel_args V)
    (s : list Z) (pos : uint3) (offset : nat) :
  (1 <= length s)%nat ->
  Forall (fun d => (1 <= d)%Z) s ->
  (product s < 2 ^ 32)%Z ->
  arg_output_shape args = s ->
  arg_output_strides args = row_major_strides s ->
  in_grid pos (strided_grid s) ->
  (offset + length s <= length (arg_in_strides args))%nat ->
  let index := eval_index pos (strided_grid s) false in
  let axes :=
    map (eval_axis args pos index)
        (axis_decls (Z.of_nat (length s)) false true) in
  let coords :=
    map (fun i : nat => ((index / (row_major_strides s !!! i)) mod (s !!! i))%Z)
        (seq 0 (length s)) in
  strided_loc args axes (Z.of_nat offset) (Z.of_nat (length s))
  = Some (to_size_t
            (dot coords (take (length s) (drop offset (arg_in_strides args))))).
Proof.
  intros Hn Hdims Hfit Hshape Hstr Hpos Hrow index axes coords.
  unfold strided_loc. rewrite (seqZ_from_zero (length s) Hn).
  rewrite (mapM_map_Some _
             (fun i : Z =>
                ((index / (row_major_strides s !!! Z.to_nat i))
                 mod (s !!! Z.to_nat i)
                 * (arg_in_strides args !!! (offset + Z.to_nat i)%nat))%Z)).
  - simpl. do 2 f_equal. rewrite map_map.
    rewrite dot_as_sum
      by (unfold coords;
          rewrite length_map, length_seq, length_take, length_drop; lia).
    rewrite length_take, length_drop.
    replace (length s `min` (length (arg_in_strides args) - offset))%nat
      with (length s) by lia.
    f_equal. apply map_ext_in. intros i Hi. apply in_seq in Hi.
    rewrite Nat2Z.id. f_equal.
    + unfold coords. rewrite lookup_total_map_seq by lia. reflexivity.
    + rewrite lookup_total_take_lt by lia. now rewrite lookup_total_drop.
  - intros i Hi. apply in_map_iff in Hi as (j & <- & Hj). apply in_seq in Hj.
    unfold axes, index.
    rewrite (axis_lookup_coordinates args s pos Hn Hdims Hfit Hshape Hstr
               Hpos j) by lia.
    simpl. rewrite Nat2Z.id. do 3 f_equal. lia.
Qed.

(** ** Instances of the further properties *)

(** A grid of 2 x 2 threads. *)
Lemma narrow_index_bijective_witness :
  let grid := mk_uint3 2 2 1 in
  (u_x grid * u_y grid * u_z grid <= 2 ^ 32)%Z
  /\ (forall pos, in_grid pos grid ->
        (0 <= eval_index pos grid false < u_x grid * u_y grid * u_z grid)%Z)
  /\ (forall p q, in_grid p grid -> in_grid q grid ->
      eval_index p grid false = eval_index q grid false -> p = q)
  /\ (forall e, (0 <= u_x grid)%Z -> (0 <= u_y grid)%Z ->
      (0 <= e < u_x grid * u_y grid * u_z grid)%Z ->
      exists pos, in_grid pos grid /\ eval_index pos grid false = e).
Proof.
  split; [simpl; lia|].
  apply (narrow_index_bijective (mk_uint3 2 2 1)). simpl; lia.
Defined.

Lemma big_index_bijective_witness :
  let grid := mk_uint3 65536 65536 1 in
  (u_x grid * u_y grid <= 2 ^ 64)%Z
  /\ u_z grid = 1%Z
  /\ (forall pos, in_grid pos grid ->
        (0 <= eval_index pos grid true < u_x grid * u_y grid)%Z)
  /\ (forall p q, in_grid p grid -> in_grid q grid ->
      eval_index p grid true = eval_index q grid true -> p = q)
  /\ (forall e, (0 <= u_x grid)%Z ->
      (0 <= e < u_x grid * u_y grid)%Z ->
      exists pos, in_grid pos grid /\ eval_index pos grid true = e).
Proof.
  split; [simpl; lia|]. split; [reflexivity|].
  apply (big_index_bijective (mk_uint3 65536 65536 1));
    [simpl; lia | reflexivity].
Defined.

(** The thread (1, 0, 0) of the transposed sum. *)
Lemma axis_indices_are_coordinates_witness :
  let s := [2; 2]%Z in
  let pos := mk_uint3 1 0 0 in
  (1 <= length s)%nat
  /\ Forall (fun d => (1 <= d)%Z) s
  /\ (product s < 2 ^ 32)%Z
  /\ arg_output_shape tr_args = s
  /\ arg_output_strides tr_args = row_major_strides s
  /\ in_grid pos (strided_grid s)
  /\ forall i : nat, (i < length s)%nat ->
       lookup_axis
         (map (eval_axis tr_args pos (eval_index pos (strided_grid s) false))
              (axis_decls (Z.of_nat (length s)) false true))
         (Z.of_nat i)
       = Some ((eval_index pos (strided_grid s) false
                / (row_major_strides s !!! i)) mod (s !!! i))%Z.
Proof.
  split; [simpl; lia|]. split; [repeat constructor; lia|].
  split; [simpl; lia|]. split; [reflexivity|]. split; [reflexivity|].
  split; [unfold in_grid; simpl; lia|].
  apply (axis_indices_are_coordinates tr_args [2; 2]%Z (mk_uint3 1 0 0)).
  - simpl; lia.
  - repeat constructor; lia.
  - simpl; lia.
  - reflexivity.
  - reflexivity.
  - unfold in_grid; simpl; lia.
Defined.

Lemma strided_launch_grid_witness :
  let a := analyze tr [tr_x; tr_y] tr_z in
  let g := strided_grid (a_shape a) in
  a_contiguous a = false
  /\ maxTotalThreadsPerThreadgroup "lib_strided_2" = 1024%Z
  /\ Forall (fun d => (1 <= d)%Z) (a_shape a)
  /\ size tr_z = product (a_shape a)
  /\ (product (a_shape a) < 2 ^ 64)%Z
  /\ launch "lib_strided_2" a tr_z
     = ([dispatchThreads (u_x g, u_y g, u_z g)
           (get_block_dims (u_x g) (u_y g) (u_z g))], Returned)
  /\ (u_x g * u_y g * u_z g)%Z = size tr_z.
Proof.
  assert (Hshape : a_shape (analyze tr [tr_x; tr_y] tr_z) = [2; 2]%Z)
    by (vm_compute; reflexivity).
  cbv zeta. rewrite Hshape.
  split; [vm_compute; reflexivity|]. split; [vm_compute; reflexivity|].
  split; [repeat constructor; lia|].
  split; [vm_compute; reflexivity|]. split; [vm_compute; reflexivity|].
  rewrite <- Hshape.
  apply (strided_launch_grid "lib_strided_2"
           (analyze tr [tr_x; tr_y] tr_z) tr_z).
  - vm_compute; reflexivity.
  - vm_compute; reflexivity.
  - rewrite Hshape. repeat constructor; lia.
  - vm_compute; reflexivity.
  - vm_compute; reflexivity.
Defined.

(** The sum of 28 arrays on a device that has not built its library. *)
Lemma eval_gpu_exceptions_witness :
  let msg := too_many_arguments "lib_strided_1" in
  snd (eval_gpu ov ∅ ov_inputs ov_out []) = Thrown msg
  /\ (((library_name ov ∉ (∅ : gset string))
       /\ fst (eval_gpu ov ∅ ov_inputs ov_out []) = []
       /\ exists v, In v library_variants
            /\ msg = too_many_arguments (library_name ov +:+ v_suffix v)
            /\ (31 < bound_resources (constant_ids_ ov) (v_contiguous v)
                       (v_dynamic_dims v) (inputs_ ov) (outputs_ ov))%nat)
      \/ (library_available ov ∅
          /\ msg = must_use_1024
          /\ a_contiguous (analyze ov ov_inputs ov_out) = false
          /\ maxTotalThreadsPerThreadgroup
               (select_kernel_name (library_name ov)
                  (analyze ov ov_inputs ov_out)) <> 1024%Z)).
Proof.
  split; [vm_compute; reflexivity|].
  apply (eval_gpu_exceptions ov ∅ ov_inputs ov_out []
           (too_many_arguments "lib_strided_1")).
  vm_compute; reflexivity.
Defined.

(** The input x of scenario B at the output coordinate (3, 5, 7). *)
Lemma broadcast_strides_address_witness :
  let output_shape := [4; 6; 8]%Z in
  let out_strides := [48; 8; 1]%Z in
  let idx := [3; 5; 7]%Z in
  (ndim scB_x <= length output_shape)%nat
  /\ length (strides scB_x) = ndim scB_x
  /\ Forall2 (fun i d => (0 <= i < d)%Z) idx output_shape
  /\ dot idx (broadcast_strides output_shape out_strides scB_x)
     = dot (broadcast_coords (shape scB_x)
              (length output_shape - ndim scB_x) idx) (strides scB_x).
Proof.
  split; [vm_compute; lia|]. split; [reflexivity|].
  split; [repeat constructor; lia|].
  apply (broadcast_strides_address [4; 6; 8]%Z [48; 8; 1]%Z scB_x
           [3; 5; 7]%Z).
  - vm_compute; lia.
  - reflexivity.
  - repeat constructor; lia.
Defined.

(** The transposed input y against the output it has the shape of. *)
Lemma broadcast_strides_same_shape_witness :
  let output_shape := [2; 2]%Z in
  let out_strides := [2; 1]%Z in
  let idx := [1; 0]%Z in
  shape tr_y = output_shape
  /\ length (strides tr_y) = ndim tr_y
  /\ Forall2 (fun i d => (0 <= i < d)%Z) idx output_shape
  /\ dot idx (broadcast_strides output_shape out_strides tr_y)
     = dot idx (strides tr_y).
Proof.
  split; [reflexivity|]. split; [reflexivity|].
  split; [repeat constructor; lia|].
  apply (broadcast_strides_same_shape [2; 2]%Z [2; 1]%Z tr_y [1; 0]%Z).
  - reflexivity.
  - reflexivity.
  - repeat constructor; lia.
Defined.

Lemma kernel_signature_matches_bindings_witness :
  let a := analyze tr [tr_x; tr_y] tr_z in
  let k := fst (variant_kernel tr (library_name tr) (selected_variant a)) in
  let bound := bindings (bind_arguments tr a [tr_x; tr_y] [tr_z]) in
  Forall2 (fun x_ x => is_scalar x_ = is_scalar x) (inputs_ tr) [tr_x; tr_y]
  /\ length (outputs_ tr) = 1%nat
  /\ (a_contiguous a = false ->
      strided_inputs (constant_ids_ tr) (zip (inputs_ tr) [tr_x; tr_y]) <> [] ->
      a_strides a !!! 1%nat <> [])
  /\ k_name k = select_kernel_name (library_name tr) a
  /\ map param_kind (k_params k) = map (fun b => resource_kind (fst b)) bound
  /\ map slot_of (k_params k) = map snd bound.
Proof.
  split; [repeat constructor|]. split; [reflexivity|].
  split; [intros _ _; vm_compute; discriminate|].
  apply (kernel_signature_matches_bindings tr [tr_x; tr_y] tr_z []).
  - repeat constructor.
  - reflexivity.
  - intros _ _; vm_compute; discriminate.
Defined.

Lemma static_offsets_meet_rows_witness :
  let a := analyze tr [tr_x; tr_y] tr_z in
  let m := length (strided_inputs (constant_ids_ tr)
                     (zip (inputs_ tr) [tr_x; tr_y])) in
  let k := fst (variant_kernel tr "lib" (strided_static (Z.of_nat 2))) in
  let cs := bind_arguments tr a [tr_x; tr_y] [tr_z] in
  Forall2 (fun x_ x => is_scalar x_ = is_scalar x) (inputs_ tr) [tr_x; tr_y]
  /\ a_contiguous a = false
  /\ (1 <= 2)%nat
  /\ length (a_strides a) = S m
  /\ Forall (fun row => length row = 2%nat) (a_strides a)
  /\ length (stride_offsets (k_loads k)) = m
  /\ ((1 <= m)%nat ->
      exists d, bound_in_strides cs = [d]
        /\ forall (j : nat) (offset : Z),
             stride_offsets (k_loads k) !! j = Some offset ->
             offset = (Z.of_nat j * Z.of_nat 2)%Z
             /\ take 2 (drop (Z.to_nat offset) d) = a_strides a !!! S j).
Proof.
  split; [repeat constructor|]. split; [vm_compute; reflexivity|].
  split; [lia|]. split; [vm_compute; reflexivity|].
  split; [vm_compute; repeat constructor|].
  apply (static_offsets_meet_rows tr "lib" (analyze tr [tr_x; tr_y] tr_z)
           [tr_x; tr_y] [tr_z] 2).
  - repeat constructor.
  - vm_compute; reflexivity.
  - lia.
  - vm_compute; reflexivity.
  - vm_compute; repeat constructor.
Defined.

(** The threads (1, 0, 0) and (0, 0, 0) of the strided_2 kernel. *)
Lemma threads_never_collide_witness :
  let v := strided_static 2 in
  let k := fst (variant_kernel tr "lib" v) in
  let grid := mk_uint3 2 2 1 in
  let p := mk_uint3 1 0 0 in
  let q := mk_uint3 0 0 0 in
  let wp := [("C", 1%Z, 2%Z)] in
  let wq := [("C", 0%Z, 0%Z)] in
  (if v_use_big_index v
   then u_z grid = 1%Z /\ (u_x grid * u_y grid <= 2 ^ 64)%Z
   else (u_x grid * u_y grid * u_z grid <= 2 ^ 32)%Z)
  /\ in_grid p grid /\ in_grid q grid /\ p <> q
  /\ exec_thread tr_args p grid k = Some wp
  /\ exec_thread tr_args q grid k = Some wq
  /\ length wp = length (outputs_ tr)
  /\ Forall (fun w => snd (fst w) = eval_index p grid (v_use_big_index v)) wp
  /\ forall a b, In a wp -> In b wq -> snd (fst a) <> snd (fst b).
Proof.
  split; [simpl; lia|]. split; [unfold in_grid; simpl; lia|].
  split; [unfold in_grid; simpl; lia|]. split; [discriminate|].
  split; [vm_compute; reflexivity|]. split; [vm_compute; reflexivity|].
  apply (threads_never_collide tr "lib" (strided_static 2) tr_args
           (mk_uint3 2 2 1) (mk_uint3 1 0 0) (mk_uint3 0 0 0)
           [("C", 1%Z, 2%Z)] [("C", 0%Z, 0%Z)]).
  - simpl; lia.
  - unfold in_grid; simpl; lia.
  - unfold in_grid; simpl; lia.
  - discriminate.
  - vm_compute; reflexivity.
  - vm_compute; reflexivity.
Defined.

Lemma library_kernels_run_witness :
  named_by tr_name_of tr
  /\ closed tr = true
  /\ In (strided_static 2) library_variants
  /\ exists writes,
       exec_thread tr_args (mk_uint3 1 0 0) (mk_uint3 2 2 1)
         (fst (variant_kernel tr "lib" (strided_static 2))) = Some writes
       /\ map (fun w => fst (fst w)) writes
          = map (fun o => tr_name_of (id o)) (outputs_ tr).
Proof.
  split; [vm_compute; reflexivity|]. split; [vm_compute; reflexivity|].
  split; [vm_compute; tauto|].
  apply (library_kernels_run tr "lib" (strided_static 2) tr_name_of tr_args
           (mk_uint3 1 0 0) (mk_uint3 2 2 1)).
  - vm_compute; reflexivity.
  - vm_compute; reflexivity.
  - vm_compute; tauto.
Defined.

Lemma kernel_computes_tape_witness :
  let v := strided_static 2 in
  let pos := mk_uint3 1 0 0 in
  let grid := mk_uint3 2 2 1 in
  let k := fst (variant_kernel tr "lib" v) in
  let index := eval_index pos grid (v_use_big_index v) in
  let axes := map (eval_axis tr_args pos index) (k_axes k) in
  named_by tr_name_of tr
  /\ names_apart tr_name_of tr = true
  /\ closed tr = true
  /\ In v library_variants
  /\ (forall l s w, In l (k_loads k) ->
        eval_load tr_args index axes l = Some (s, w) ->
        tr_val (id (load_array l)) = w)
  /\ (forall x, In x (tape_ tr) -> tr_val (id x) = node_value tr_val x)
  /\ exec_thread tr_args pos grid k
     = Some (map (fun o => (tr_name_of (id o), index, tr_val (id o)))
               (outputs_ tr)).
Proof.
  assert (Hload : forall l s w,
            In l (k_loads (fst (variant_kernel tr "lib" (strided_static 2)))) ->
            eval_load tr_args
              (eval_index (mk_uint3 1 0 0) (mk_uint3 2 2 1)
                 (v_use_big_index (strided_static 2)))
              (map (eval_axis tr_args (mk_uint3 1 0 0)
                      (eval_index (mk_uint3 1 0 0) (mk_uint3 2 2 1)
                         (v_use_big_index (strided_static 2))))
                   (k_axes (fst (variant_kernel tr "lib" (strided_static 2)))))
              l = Some (s, w) ->
            tr_val (id (load_array l)) = w).
  { intros l s w Hl. vm_compute in Hl.
    destruct Hl as [<-|[<-|[]]]; vm_compute; intros E; now inversion E. }
  assert (Hnode : forall x, In x (tape_ tr) ->
            tr_val (id x) = node_value tr_val x).
  { intros x [<-|[]]. vm_compute; reflexivity. }
  split; [vm_compute; reflexivity|]. split; [vm_compute; reflexivity|].
  split; [vm_compute; reflexivity|]. split; [vm_compute; tauto|].
  split; [exact Hload|]. split; [exact Hnode|].
  apply (kernel_computes_tape tr "lib" (strided_static 2) tr_name_of tr_val
           tr_args (mk_uint3 1 0 0) (mk_uint3 2 2 1)).
  - vm_compute; reflexivity.
  - vm_compute; reflexivity.
  - vm_compute; reflexivity.
  - vm_compute; tauto.
  - exact Hload.
  - exact Hnode.
Defined.

(** The load of y in the thread (1, 0, 0): its row starts at offset 2. *)
Lemma strided_load_address_witness :
  let s := [2; 2]%Z in
  let pos := mk_uint3 1 0 0 in
  let index := eval_index pos (strided_grid s) false in
  (1 <= length s)%nat
  /\ Forall (fun d => (1 <= d)%Z) s
  /\ (product s < 2 ^ 32)%Z
  /\ arg_output_shape tr_args = s
  /\ arg_output_strides tr_args = row_major_strides s
  /\ in_grid pos (strided_grid s)
  /\ (2 + length s <= length (arg_in_strides tr_args))%nat
  /\ strided_loc tr_args
       (map (eval_axis tr_args pos index)
            (axis_decls (Z.of_nat (length s)) false true))
       (Z.of_nat 2) (Z.of_nat (length s))
     = Some (to_size_t
               (dot (map (fun i : nat =>
                            ((index / (row_major_strides s !!! i))
                             mod (s !!! i))%Z)
                         (seq 0 (length s)))
                    (take (length s) (drop 2 (arg_in_strides tr_args))))).
Proof.
  split; [simpl; lia|]. split; [repeat constructor; lia|].
  split; [simpl; lia|]. split; [reflexivity|]. split; [reflexivity|].
  split; [unfold in_grid; simpl; lia|]. split; [simpl; lia|].
  apply (strided_load_address tr_args [2; 2]%Z (mk_uint3 1 0 0) 2).
  - simpl; lia.
  - repeat constructor; lia.
  - simpl; lia.
  - reflexivity.
  - reflexivity.
  - unfold in_grid; simpl; lia.
  - simpl; lia.
Defined.
